(** * Rudolf: product-feed ranking core

    A shallow embedding of the TypeScript sources of the recommender
    (services/bandit.ts, services/recommender.ts, utils/diversity.ts,
    workers/event_consumer.ts, workers/feature_worker.ts,
    workers/cf_worker.ts, pages/api/events.ts, lib/redis.ts) together with
    the properties the specification states about them and with further
    properties of the code: frames, round trips between the workers and the
    recommender, edge cases.

    Conventions of the embedding.
    - The Beta sampler computes in IEEE 754 doubles ([jsnum]), rounding
      included; [Math.log] and [Math.random] are taken from the runtime.
      The ranking pipeline computes in exact rationals [Q]: its numbers
      are finite, its rounding is not modelled, and the bandit sample that
      enters a score is handed in from outside as such a number.
    - Strings are [string], holding the UTF-8 encoding of the text: the
      bytes Redis stores and compares, and the form in which the code
      points that [trim] strips are recognised.
    - The Redis server is a record of typed key spaces; every command is a
      function on it (commands are atomic on the server).  Key expiry needs
      a clock and is not modelled: [expire] leaves the store unchanged.
    - The relational store is a record with the product table and the
      interaction log.
    - Cache and store calls are taken to succeed unless the model says
      otherwise ([product_update] can throw). *)

From Stdlib Require Import ZArith QArith Qround Qminmax Lqa Lia SpecFloat.
From Stdlib Require Import String Ascii List Permutation Sorted.
From stdpp Require Import gmap strings list fin_maps.

Local Open Scope Z_scope.

(* ================================================================== *)
(** * Part I.  The embedding                                            *)
(* ================================================================== *)

(** ** JavaScript helpers *)

Module JS.

(** Truthiness of a [string | null | undefined]: only a non-empty string
    is truthy. *)
Definition truthy (s : option string) : bool :=
  match s with
  | Some s => negb (String.eqb s EmptyString)
  | None => false
  end.

(** [String.prototype.trim] strips the code points of WhiteSpace and
    LineTerminator.  Those of one byte in UTF-8: TAB, LF, VT, FF, CR and
    SPACE. *)
Definition is_space (c : ascii) : bool :=
  let n := nat_of_ascii c in
  (Nat.eqb n 9 || Nat.eqb n 10 || Nat.eqb n 11 || Nat.eqb n 12
   || Nat.eqb n 13 || Nat.eqb n 32)%bool.

(** Of two bytes: U+00A0 (C2 A0). *)
Definition is_space2 (c1 c2 : ascii) : bool :=
  (Nat.eqb (nat_of_ascii c1) 194 && Nat.eqb (nat_of_ascii c2) 160)%bool.

(** Of three bytes: U+1680 (E1 9A 80), U+2000 to U+200A (E2 80 80 to
    E2 80 8A), U+2028 and U+2029 (E2 80 A8, E2 80 A9), U+202F (E2 80 AF),
    U+205F (E2 81 9F), U+3000 (E3 80 80) and U+FEFF (EF BB BF). *)
Definition is_space3 (c1 c2 c3 : ascii) : bool :=
  let n1 := nat_of_ascii c1 in
  let n2 := nat_of_ascii c2 in
  let n3 := nat_of_ascii c3 in
  ((Nat.eqb n1 225 && Nat.eqb n2 154 && Nat.eqb n3 128)
   || (Nat.eqb n1 226 && Nat.eqb n2 128
       && ((Nat.leb 128 n3 && Nat.leb n3 138)
           || Nat.eqb n3 168 || Nat.eqb n3 169 || Nat.eqb n3 175))
   || (Nat.eqb n1 226 && Nat.eqb n2 129 && Nat.eqb n3 159)
   || (Nat.eqb n1 227 && Nat.eqb n2 128 && Nat.eqb n3 128)
   || (Nat.eqb n1 239 && Nat.eqb n2 187 && Nat.eqb n3 191))%bool.

(** [s.trim().length === 0]: every code point of [s] is stripped. *)
Fixpoint blank (s : string) : bool :=
  match s with
  | EmptyString => true
  | String c1 s1 =>
      if is_space c1 then blank s1
      else
        match s1 with
        | EmptyString => false
        | String c2 s2 =>
            if is_space2 c1 c2 then blank s2
            else
              match s2 with
              | EmptyString => false
              | String c3 s3 => if is_space3 c1 c2 c3 then blank s3 else false
              end
        end
  end.

(** [x === y] on values that are strings or undefined. *)
Definition strict_eq (x y : option string) : bool :=
  match x, y with
  | Some a, Some b => String.eqb a b
  | None, None => true
  | _, _ => false
  end.

(** Truthiness of [l.length]. *)
Definition nonempty {A} (l : list A) : bool :=
  match l with
  | [] => false
  | _ :: _ => true
  end.

(** [x < y] on numbers. *)
Definition Qltb (x y : Q) : bool := negb (Qle_bool y x).

(** [ToIntegerOrInfinity] on a finite number: truncation towards zero. *)
Definition trunc (q : Q) : Z :=
  if Qle_bool 0 q then Qfloor q else Qceiling q.

(** A relative index of [Array.prototype.slice] resolved against a
    length: negative indices count from the end, and the result is
    clamped to [0, len]. *)
Definition rel_index (len : nat) (i : Z) : nat :=
  if Z.ltb i 0 then Z.to_nat (Z.max (Z.of_nat len + i) 0)
  else Nat.min (Z.to_nat i) len.

(** [l.slice(start)] *)
Definition slice_from {A} (start : Q) (l : list A) : list A :=
  drop (rel_index (length l) (trunc start)) l.

(** [l.slice(0, stop)] *)
Definition slice_to {A} (stop : Q) (l : list A) : list A :=
  take (rel_index (length l) (trunc stop)) l.

(** [Array.prototype.sort] with a comparator is stable.  [sort_by ahead]
    sorts so that [y] is moved in front of an earlier [x] only when
    [ahead y x] holds; elements that tie keep their order. *)
Fixpoint insert_by {A} (ahead : A -> A -> bool) (x : A) (l : list A) : list A :=
  match l with
  | [] => [x]
  | y :: l' => if ahead y x then y :: insert_by ahead x l' else x :: y :: l'
  end.

Fixpoint sort_by {A} (ahead : A -> A -> bool) (l : list A) : list A :=
  match l with
  | [] => []
  | x :: l' => insert_by ahead x (sort_by ahead l')
  end.

End JS.

(** ** lib/redis.ts: key conventions and the commands the code issues *)

Module KEYS.
Definition userTopK (userId : string) : string := "user:topk:" +:+ userId.
Definition productFactors (productId : string) : string := "pf:" +:+ productId.
Definition userFactors (userId : string) : string := "uf:" +:+ userId.
Definition merchantBeta (merchantId : string) : string := "bandit:merchant:" +:+ merchantId.
Definition categoryBeta (catId : string) : string := "bandit:category:" +:+ catId.
Definition sessionRecent (sessionId : string) : string :=
  "session:" +:+ sessionId +:+ ":recent".
Definition globalTop : string := "global:topk".
Definition productMetaHash : string := "product:meta".
End KEYS.

(** The blob kept per product in the [product:meta] hash, as the code
    writes it: three strings and a popularity that is a number, or [None]
    for null. *)
Record Meta := mkMeta {
  title : string;
  merchantId : string;
  productCategoryId : string;
  popularity : option Q
}.

(** What the code holds as the [meta] of a candidate: a truthy value read
    from the object that [loadProductMeta] returns.  That is a meta, or a
    value that is none: a function or object inherited from
    [Object.prototype], a non-empty string, a number other than 0.  Of such a
    value every field the code reads is undefined. *)
Inductive metaval : Type :=
| MetaObj (m : Meta)
| NotMeta.

(** [meta.merchantId], [meta.productCategoryId] and [meta.title], [None]
    for undefined. *)
Definition v_merchantId (v : metaval) : option string :=
  match v with
  | MetaObj m => Some (merchantId m)
  | NotMeta => None
  end.

Definition v_productCategoryId (v : metaval) : option string :=
  match v with
  | MetaObj m => Some (productCategoryId m)
  | NotMeta => None
  end.

Definition v_title (v : metaval) : option string :=
  match v with
  | MetaObj m => Some (title m)
  | NotMeta => None
  end.

(** [typeof meta.popularity === 'number' ? meta.popularity : 0] *)
Definition v_popularity (v : metaval) : Q :=
  match v with
  | MetaObj m => default 0%Q (popularity m)
  | NotMeta => 0%Q
  end.

Module Redis.

(** The key spaces by type of value.  [hashes] holds the hashes with
    integer fields (the bandit posteriors, written only by HINCRBY);
    [metaHash] is the single hash at [KEYS.productMetaHash], its JSON
    blobs kept parsed. *)
Record t := mk {
  lists : gmap string (list string);
  hashes : gmap string (gmap string Z);
  zsets : gmap string (gmap string Q);
  metaHash : gmap string Meta
}.

Definition empty : t := mk ∅ ∅ ∅ ∅.

Definition with_lists (f : gmap string (list string) -> gmap string (list string)) (r : t) : t :=
  mk (f (lists r)) (hashes r) (zsets r) (metaHash r).
Definition with_hashes (f : gmap string (gmap string Z) -> gmap string (gmap string Z)) (r : t) : t :=
  mk (lists r) (f (hashes r)) (zsets r) (metaHash r).
Definition with_zsets (f : gmap string (gmap string Q) -> gmap string (gmap string Q)) (r : t) : t :=
  mk (lists r) (hashes r) (f (zsets r)) (metaHash r).

(** A key that holds no list reads as the empty list. *)
Definition list_at (key : string) (r : t) : list string :=
  default [] (lists r !! key).

(** Redis removes a list key once the list is empty. *)
Definition store_list (key : string) (l : list string) (m : gmap string (list string)) :=
  match l with
  | [] => delete key m
  | _ => <[key := l]> m
  end.

(** LPUSH key value *)
Definition lpush (key value : string) (r : t) : t :=
  with_lists (store_list key (value :: list_at key r)) r.

(** LTRIM key start stop, for non-negative indices; [stop] is inclusive. *)
Definition ltrim (key : string) (start stop : nat) (r : t) : t :=
  with_lists (store_list key (take (S stop - start) (drop start (list_at key r)))) r.

(** LRANGE key start stop, for non-negative indices; [stop] is inclusive. *)
Definition lrange (key : string) (start stop : nat) (r : t) : list string :=
  take (S stop - start) (drop start (list_at key r)).

(** EXPIRE key seconds: no clock in the model. *)
Definition expire (key : string) (seconds : Z) (r : t) : t := r.

(** HINCRBY key field n: a missing key or field counts as 0. *)
Definition hincrby (key field : string) (n : Z) (r : t) : t :=
  let h := default ∅ (hashes r !! key) in
  with_hashes (insert key (<[field := default 0 (h !! field) + n]> h)) r.

(** HMGET key f1 f2 ...: one reply per field, [None] for nil. *)
Definition hmget (key : string) (fields : list string) (r : t) : list (option Z) :=
  (fun f => hashes r !! key ≫= (fun h => h !! f)) <$> fields.

(** HMGET product:meta id1 id2 ... *)
Definition hmget_meta (ids : list string) (r : t) : list (option Meta) :=
  (fun id => metaHash r !! id) <$> ids.

(** HSET product:meta id blob *)
Definition hset_meta (id : string) (m : Meta) (r : t) : t :=
  mk (lists r) (hashes r) (zsets r) (<[id := m]> (metaHash r)).

(** DEL key *)
Definition del (key : string) (r : t) : t :=
  mk (delete key (lists r)) (delete key (hashes r)) (delete key (zsets r))
     (if String.eqb key KEYS.productMetaHash then ∅ else metaHash r).

(** ZADD key score1 member1 score2 member2 ...: later pairs win. *)
Definition zadd (key : string) (args : list (Q * string)) (r : t) : t :=
  let z := default ∅ (zsets r !! key) in
  match args with
  | [] => r
  | _ => with_zsets (insert key (fold_left (fun z a => <[snd a := fst a]> z) args z)) r
  end.

(** Order of ZREVRANGE: by score, highest first; equal scores by member,
    lexicographically last first. *)
Definition zrev_ahead (y x : string * Q) : bool :=
  (JS.Qltb (snd x) (snd y)
   || (Qeq_bool (snd x) (snd y) && negb (String.leb (fst y) (fst x))))%bool.

(** ZREVRANGE key start stop WITHSCORES, for non-negative indices, the
    flat reply already paired up as the callers do. *)
Definition zrevrange (key : string) (start stop : nat) (r : t) : list (string * Q) :=
  let all := JS.sort_by zrev_ahead (map_to_list (default ∅ (zsets r !! key))) in
  take (S stop - start) (drop start all).

End Redis.

(** ** Numbers of the sampler *)

(** The sampler computes in IEEE 754 binary64, as JavaScript does:
    [spec_float] with precision 53 and exponent bound 1024, whose
    operations round to nearest, ties to even. *)
Definition jsnum : Type := spec_float.

Module Num.

Definition prec : Z := 53.
Definition emax : Z := 1024.

(** unary minus *)
Definition neg (x : jsnum) : jsnum := SFopp x.

Definition mul (x y : jsnum) : jsnum := SFmul prec emax x y.

Definition add (x y : jsnum) : jsnum := SFadd prec emax x y.

Definition div (x y : jsnum) : jsnum := SFdiv prec emax x y.

(** [Number(s)] for the decimal string of an integer: the nearest double. *)
Definition of_Z (z : Z) : jsnum := binary_normalize prec emax z 0 false.

End Num.

(** ** services/bandit.ts *)

Module Bandit.

(** [Math.log] and [Math.random], which the code takes from the runtime.
    ECMAScript fixes [Math.log] at NaN, at the negative numbers, at the
    zeros, at 1 and at +Infinity and leaves its other values to the
    implementation.  [Math.random] returns a double in [0, 1): the
    generator is a tape of draws and a read position; each call returns the
    draw under the head and advances by one. *)
Record runtime := mkRuntime {
  log : jsnum -> jsnum;
  tape : nat -> jsnum;
  pos : nat
}.

Definition random (g : runtime) : jsnum * runtime :=
  (tape g (pos g), mkRuntime (log g) (tape g) (S (pos g))).

(** [data[i] || 1]: a nil reply is replaced by 1; every stored counter,
    being a non-empty string, is truthy and is kept ("0" included). *)
Definition or_one (reply : option (option Z)) : Z :=
  match reply with
  | Some (Some z) => z
  | _ => 1
  end.

Definition getAB (key : string) (r : Redis.t) : Z * Z :=
  let data := Redis.hmget key ["a"; "b"]%string r in
  let a := or_one (data !! 0%nat) in
  let b := or_one (data !! 1%nat) in
  (a, b).

Definition sampleBeta (a b : jsnum) (g : runtime) : jsnum * runtime :=
  let '(u1, g1) := random g in
  let ga := Num.mul (Num.neg (log g1 u1)) a in
  let '(u2, g2) := random g1 in
  let gb := Num.mul (Num.neg (log g2 u2)) b in
  (Num.div ga (Num.add ga gb), g2).

Definition sampleMerchantBoost (merchantId : string) (r : Redis.t) (g : runtime)
  : jsnum * runtime :=
  let key := KEYS.merchantBeta merchantId in
  let '(a, b) := getAB key r in
  sampleBeta (Num.of_Z a) (Num.of_Z b) g.

Definition recordBanditOutcome (key : string) (success : bool) (r : Redis.t) : Redis.t :=
  if success then Redis.hincrby key "a" 1 r
  else Redis.hincrby key "b" 1 r.

(** [record outcomes]: one [recordBanditOutcome] call per entry, in order. *)
Definition record_all (key : string) (outcomes : list bool) (r : Redis.t) : Redis.t :=
  fold_left (fun r s => recordBanditOutcome key s r) outcomes r.

End Bandit.

(** ** The relational store (Prisma) *)

Inductive InteractionType : Type := VIEW | CLICK | CART | PURCHASE.

Module Store.

Record Product := mkProduct {
  p_title : string;
  p_description : string;
  p_merchantId : string;
  p_productCategoryId : string;
  p_popularity : Q
}.

Record Interaction := mkInteraction {
  i_userId : option string;
  i_productId : string;
  i_type : InteractionType;
  i_value : Q;
  i_createdAt : Z            (* milliseconds since the epoch *)
}.

(** The product table, keyed by its primary key [id], and the
    interaction log, oldest row first. *)
Record t := mk {
  products : gmap string Product;
  interactions : list Interaction
}.

Definition empty : t := mk ∅ [].

(** [prisma.product.findUnique({ where: { id } })] *)
Definition findUnique (id : string) (db : t) : option Product :=
  products db !! id.

(** [prisma.interaction.create({ data })]; [createdAt] defaults to the
    time of the insert. *)
Definition interaction_create (userId : option string) (productId : string)
    (type : InteractionType) (value : Q) (now : Z) (db : t) : t :=
  mk (products db)
     (interactions db ++ [mkInteraction userId productId type value now]).

(** [prisma.product.update({ where: { id }, data: { popularity } })]:
    [None] when no such row exists (Prisma throws). *)
Definition product_update (id : string) (pop : Q) (db : t) : option t :=
  match products db !! id with
  | Some p =>
      Some (mk (<[id := mkProduct (p_title p) (p_description p) (p_merchantId p)
                          (p_productCategoryId p) pop]> (products db))
               (interactions db))
  | None => None
  end.

End Store.

(** The world the workers and the ranker act on. *)
Record World := mkWorld {
  redis : Redis.t;
  store : Store.t
}.

(** ** workers/event_consumer.ts *)

Module EventConsumer.

Record Event := mkEvent {
  userId : option string;
  sessionId : option string;
  productId : string;
  type : InteractionType
}.

(** Step 1: the session trail. *)
Definition pushTrail (e : Event) (r : Redis.t) : Redis.t :=
  if JS.truthy (sessionId e) then
    let key := KEYS.sessionRecent (default EmptyString (sessionId e)) in
    let r := Redis.lpush key (productId e) r in
    let r := Redis.ltrim key 0 49 r in
    Redis.expire key (60 * 60 * 24) r
  else r.

(** Step 2: the bandit counts. *)
Definition updateBandit (e : Event) (db : Store.t) (r : Redis.t) : Redis.t :=
  match Store.findUnique (productId e) db with
  | Some pMeta =>
      let merchantKey := KEYS.merchantBeta (Store.p_merchantId pMeta) in
      let categoryKey := KEYS.categoryBeta (Store.p_productCategoryId pMeta) in
      match type e with
      | CLICK | PURCHASE =>
          let r := Bandit.recordBanditOutcome merchantKey true r in
          Bandit.recordBanditOutcome categoryKey true r
      | VIEW =>
          let r := Bandit.recordBanditOutcome merchantKey false r in
          Bandit.recordBanditOutcome categoryKey false r
      | CART => r
      end
  | None => r
  end.

(** [handleEvent(e)], run at time [now]. *)
Definition handleEvent (now : Z) (e : Event) (w : World) : World :=
  let r := pushTrail e (redis w) in
  let r := updateBandit e (store w) r in
  let db := Store.interaction_create (userId e) (productId e) (type e) 1 now (store w) in
  mkWorld r db.

(** The events [runLoop] has popped and handled so far, each with the
    time at which it was handled, oldest first. *)
Definition handleAll (events : list (Z * Event)) (w : World) : World :=
  fold_left (fun w te => handleEvent (fst te) (snd te) w) events w.

(** The session trail as [LRANGE key 0 -1] shows it. *)
Definition trail (sid : string) (w : World) : list string :=
  Redis.list_at (KEYS.sessionRecent sid) (redis w).

End EventConsumer.

(** ** workers/feature_worker.ts *)

Module FeatureWorker.

Import Store.

(** The CASE expression of the aggregation query. *)
Definition typeWeight (t : InteractionType) : Q :=
  match t with
  | VIEW => 0.5
  | CLICK => 1
  | CART => 3
  | PURCHASE => 8
  end.

(** 30 days in milliseconds. *)
Definition window : Z := 30 * 24 * 3600 * 1000.

(** LIMIT of the query. *)
Definition LIMIT : nat := Z.to_nat 50000.

(** WHERE "createdAt" >= since *)
Definition in_window (since : Z) (i : Interaction) : bool :=
  Z.leb since (i_createdAt i).

(** The summand of a row: CASE "type" ... END * "value" *)
Definition weighted (i : Interaction) : Q :=
  typeWeight (i_type i) * i_value i.

(** GROUP BY "productId" with SUM: the group of [pid] grows by [x], a new
    group opens at the end. *)
Fixpoint add_to_group (pid : string) (x : Q) (rows : list (string * Q))
  : list (string * Q) :=
  match rows with
  | [] => [(pid, x)]
  | (p, s) :: rows' =>
      if String.eqb p pid then (p, (s + x)%Q) :: rows'
      else (p, s) :: add_to_group pid x rows'
  end.

Definition aggregate (since : Z) (log : list Interaction) : list (string * Q) :=
  fold_left
    (fun rows i =>
       if in_window since i then add_to_group (i_productId i) (weighted i) rows
       else rows)
    log [].

(** The rows of the query: grouped, ORDER BY score DESC, LIMIT 50000.
    SQL leaves the order of equal scores open; the model keeps them in
    order of first appearance. *)
Definition popularityRows (now : Z) (db : Store.t) : list (string * Q) :=
  take LIMIT
    (JS.sort_by (fun y x => JS.Qltb (snd x) (snd y))
       (aggregate (now - window) (interactions db))).

(** How a run ends: the promise resolves, or an awaited call throws and
    the writes made so far stay. *)
Inductive outcome : Type :=
| Returned (w : World)
| Threw (w : World).

(** The body of the loop over the rows; [None] when the update throws. *)
Definition writeRow (row : string * Q) (w : World) : option World :=
  let '(productid, score) := row in
  match product_update productid score (store w) with
  | None => None
  | Some db =>
      let r := Redis.zadd KEYS.globalTop [(score, productid)] (redis w) in
      let r :=
        match findUnique productid db with
        | Some meta =>
            Redis.hset_meta productid
              (mkMeta (p_title meta) (p_merchantId meta)
                      (p_productCategoryId meta) (Some (p_popularity meta))) r
        | None => r
        end in
      Some (mkWorld r db)
  end.

Fixpoint writeRows (rows : list (string * Q)) (w : World) : outcome :=
  match rows with
  | [] => Returned w
  | row :: rows' =>
      match writeRow row w with
      | None => Threw w
      | Some w' => writeRows rows' w'
      end
  end.

(** [computeProductPopularity()], started at time [now]. *)
Definition computeProductPopularity (now : Z) (w : World) : outcome :=
  writeRows (popularityRows now (store w)) w.

End FeatureWorker.

(** ** workers/cf_worker.ts: publishing the per-user top-K *)

Module CFWorker.

(** A latent vector; all vectors of a run have the same length DIM. *)
Definition Vec : Type := list Q.

Definition dot (a b : Vec) : Q :=
  fold_left (fun s xy => (s + fst xy * snd xy)%Q) (zip a b) 0%Q.

Definition TOPK : nat := 200.

(** [scores.sort((a, b) => b[1] - a[1]).slice(0, TOPK)] over the scores
    of one user against every product vector. *)
Definition topScores (uvec : Vec) (productFactors : list (string * Vec))
  : list (string * Q) :=
  let scores := List.map (fun pv => (fst pv, dot uvec (snd pv))) productFactors in
  take TOPK (JS.sort_by (fun y x => JS.Qltb (snd x) (snd y)) scores).

(** The commands one user's top-K is written with, in the order in which
    they are awaited.  Each is a round trip of its own: DEL and ZADD are
    not wrapped in a transaction. *)
Definition writeTop (uid : string) (top : list (string * Q))
  : list (Redis.t -> Redis.t) :=
  let key := KEYS.userTopK uid in
  let args := List.map (fun ps => (snd ps, fst ps)) top in
  (if JS.nonempty args then [Redis.del key] else [])
  ++ (if JS.nonempty args then [Redis.zadd key args] else [])
  ++ [Redis.expire key (24 * 3600)].

(** The stores a concurrent client can read while the commands run: the
    store before the first command and the store after each command. *)
Fixpoint observable (cmds : list (Redis.t -> Redis.t)) (r : Redis.t) : list Redis.t :=
  r :: match cmds with
       | [] => []
       | c :: cmds' => observable cmds' (c r)
       end.

(** The store once all commands have run. *)
Definition run_cmds (cmds : list (Redis.t -> Redis.t)) (r : Redis.t) : Redis.t :=
  fold_left (fun r c => c r) cmds r.

(** The last loop of [run]: for every trained user, score, cut and write. *)
Definition publishTopK (userFactors productFactors : list (string * Vec))
  : list (Redis.t -> Redis.t) :=
  concat (List.map (fun uv => writeTop (fst uv) (topScores (snd uv) productFactors))
                   userFactors).

End CFWorker.

(** ** utils/diversity.ts *)

Module Diversity.

(** [Item]; the meta is a truthy value, as [getFeed] only passes items
    whose meta it has found truthy. *)
Record Item := mkItem {
  id : string;
  score : Q;
  meta : metaval
}.

Record Opts := mkOpts {
  maxSameMerchantConsecutive : Q;
  maxMerchantTotalRatio : Q;
  maxCategoryTotalRatio : Q
}.

(** The variables of the while loop. *)
Record state := mkState {
  merchantCount : gmap (option string) Z;
  categoryCount : gmap (option string) Z;
  out : list Item;
  pool : list Item
}.

(** [lastK.every(x => x.meta.merchantId === m) && lastK.length >= k] *)
Definition lastViolates (opts : Opts) (out : list Item) (m : option string) : bool :=
  let lastK := JS.slice_from (- maxSameMerchantConsecutive opts) out in
  forallb (fun x => JS.strict_eq (v_merchantId (meta x)) m) lastK
  && Qle_bool (maxSameMerchantConsecutive opts) (inject_Z (Z.of_nat (length lastK))).

(** The test of one candidate in the for loop. *)
Definition acceptable (opts : Opts) (maxMerchantTotal maxCategoryTotal : Z)
    (st : state) (cand : Item) : bool :=
  let m := v_merchantId (meta cand) in
  let c := v_productCategoryId (meta cand) in
  let mCount := default 0 (merchantCount st !! m) in
  let cCount := default 0 (categoryCount st !! c) in
  if lastViolates opts (out st) m then false
  else if Z.leb maxMerchantTotal mCount then false
  else if Z.leb maxCategoryTotal cCount then false
  else true.

(** The for loop from index [i] on: the first acceptable index, [None]
    for the -1 of the source. *)
Fixpoint pickFrom (ok : Item -> bool) (i : nat) (pool : list Item) : option nat :=
  match pool with
  | [] => None
  | cand :: rest => if ok cand then Some i else pickFrom ok (S i) rest
  end.

(** The body of the while loop; [None] when it throws (it never does). *)
Definition step (opts : Opts) (maxMerchantTotal maxCategoryTotal : Z) (st : state)
  : option state :=
  match pickFrom (acceptable opts maxMerchantTotal maxCategoryTotal st) 0 (pool st) with
  | None =>
      match pool st with
      | top :: rest =>
          Some (mkState (merchantCount st) (categoryCount st) (out st ++ [top]) rest)
      | [] => None
      end
  | Some pickedIndex =>
      match pool st !! pickedIndex with
      | Some picked =>
          let m := v_merchantId (meta picked) in
          let c := v_productCategoryId (meta picked) in
          Some (mkState
                  (<[m := default 0 (merchantCount st !! m) + 1]> (merchantCount st))
                  (<[c := default 0 (categoryCount st !! c) + 1]> (categoryCount st))
                  (out st ++ [picked])
                  (delete pickedIndex (pool st)))
      | None => None
      end
  end.

(** The while loop, run for at most [fuel] iterations; [None] when it has
    not returned by then. *)
Fixpoint loop (fuel : nat) (opts : Opts) (N : nat)
    (maxMerchantTotal maxCategoryTotal : Z) (st : state) : option (list Item) :=
  if negb (Nat.eqb (length (pool st)) 0) && Nat.ltb (length (out st)) N then
    match fuel with
    | O => None
    | S fuel' =>
        match step opts maxMerchantTotal maxCategoryTotal st with
        | Some st' => loop fuel' opts N maxMerchantTotal maxCategoryTotal st'
        | None => None
        end
    end
  else Some (out st).

Definition ensureDiversity_fuel (fuel : nat) (items : list Item) (opts : Opts)
  : option (list Item) :=
  match items with
  | [] => Some items
  | _ =>
      let N := length items in
      let maxMerchantTotal :=
        Qceiling (inject_Z (Z.of_nat N) * maxMerchantTotalRatio opts) in
      let maxCategoryTotal :=
        Qceiling (inject_Z (Z.of_nat N) * maxCategoryTotalRatio opts) in
      loop fuel opts N maxMerchantTotal maxCategoryTotal (mkState ∅ ∅ [] items)
  end.

(** Every iteration moves one item out of the pool, so as many iterations
    as there are items are enough. *)
Definition ensureDiversity (items : list Item) (opts : Opts) : option (list Item) :=
  ensureDiversity_fuel (length items) items opts.

End Diversity.

(** ** utils/fuzzy.ts and services/recommender.ts *)

Module Recommender.

Import Diversity.

(** The arguments of [getFeed]; the prefix keeps the field names apart
    from those of [Meta]. *)
Record FeedParams := mkParams {
  fp_userId : option string;
  fp_searchText : option string;
  fp_productCategoryId : option string;
  fp_cursor : option string;
  fp_limit : option Q;
  fp_sessionId : option string
}.

(** What the request gets from outside the model.
    - [trgmRows q n]: the rows (id, sim) of the trigram query for the
      text [q] with LIMIT [n], a NULL [sim] as [None].
    - [merchantBoost id]: how the promise of
      [sampleMerchantBoost(meta.merchantId)] settles while candidate [id]
      is scored: with a finite number, or [None] when it rejects.  The
      sample depends on the posterior of the merchant (of the key
      bandit:merchant:undefined for a meta without merchant) and on two
      draws of [Math.random], so it is the candidate's own and any number
      the sampler can produce may stand here.  The sampler can also
      produce NaN (see [Bandit.sampleBeta]); a NaN score makes the
      comparator of the sort inconsistent and the order of the feed
      implementation-defined, and is outside the model. *)
Record Env := mkEnv {
  trgmRows : string -> nat -> list (string * option Q);
  merchantBoost : string -> option Q
}.

Definition DEFAULT_LIMIT : Q := 30.
Definition CANDIDATE_K : nat := 200.

(** [fuzzySearchProductIds(query, limit)] *)
Definition fuzzySearchProductIds (env : Env) (query : string) (limit : nat)
  : list (string * Q) :=
  if JS.blank query then []
  else List.map (fun row => (fst row, Qmin 1 (default 0%Q (snd row))))
                (trgmRows env query limit).

Definition getPrecomputedUserTop (userId : option string) (k : nat) (r : Redis.t)
  : list (string * Q) :=
  if JS.truthy userId then
    Redis.zrevrange (KEYS.userTopK (default EmptyString userId)) 0 (k - 1) r
  else [].

Definition getGlobalTop (k : nat) (r : Redis.t) : list (string * Q) :=
  Redis.zrevrange KEYS.globalTop 0 (k - 1) r.

(** [candidatesMap]: a JS Map iterates in insertion order, and setting a
    present key keeps the key's place. *)
Definition Candidates : Type := list (string * Q).

Definition cm_get (id : string) (cm : Candidates) : option Q :=
  snd <$> List.find (fun c => String.eqb (fst c) id) cm.

Definition cm_has (id : string) (cm : Candidates) : bool :=
  existsb (fun c => String.eqb (fst c) id) cm.

Fixpoint cm_set (id : string) (baseScore : Q) (cm : Candidates) : Candidates :=
  match cm with
  | [] => [(id, baseScore)]
  | (k, v) :: cm' =>
      if String.eqb k id then (k, baseScore) :: cm'
      else (k, v) :: cm_set id baseScore cm'
  end.

Definition cm_add_if_absent (id : string) (baseScore : Q) (cm : Candidates) : Candidates :=
  if cm_has id cm then cm else cm_set id baseScore cm.

(** Step 1: the precomputed personal top-K. *)
Definition addUserTop (userTop : list (string * Q)) (cm : Candidates) : Candidates :=
  fold_left (fun cm r => cm_set (fst r) (snd r) cm) userTop cm.

(** Step 2: the text matches (empty unless a non-blank text is given). *)
Definition textMatchesOf (env : Env) (p : FeedParams) : list (string * Q) :=
  if JS.truthy (fp_searchText p)
     && negb (JS.blank (default EmptyString (fp_searchText p)))
  then fuzzySearchProductIds env (default EmptyString (fp_searchText p)) 200
  else [].

Definition addTextMatches (textMatches : list (string * Q)) (cm : Candidates)
  : Candidates :=
  fold_left
    (fun cm m =>
       let boosted := (0.05 + snd m * 0.8)%Q in
       match cm_get (fst m) cm with
       | Some cur => cm_set (fst m) (Qmax cur boosted) cm
       | None => cm_set (fst m) boosted cm
       end)
    textMatches cm.

(** Step 3: the global top, when fewer than 3 * limit candidates. *)
Definition addGlobal (limit : Q) (r : Redis.t) (cm : Candidates) : Candidates :=
  if JS.Qltb (inject_Z (Z.of_nat (length cm))) (limit * 3) then
    fold_left (fun cm g => cm_add_if_absent (fst g) (snd g * 0.6)%Q cm)
              (getGlobalTop 200 r) cm
  else cm.

(** [prisma.product.findMany({ where: { productCategoryId },
    orderBy: { popularity: 'desc' }, take: 200 })] *)
Definition findByCategory (cat : string) (db : Store.t) : list (string * Store.Product) :=
  take 200
    (JS.sort_by
       (fun y x => JS.Qltb (Store.p_popularity (snd x)) (Store.p_popularity (snd y)))
       (List.filter (fun row => String.eqb (Store.p_productCategoryId (snd row)) cat)
                    (map_to_list (Store.products db)))).

(** Step 4: products of the category, when fewer than 2 * limit. *)
Definition addCategory (p : FeedParams) (limit : Q) (db : Store.t) (cm : Candidates)
  : Candidates :=
  if JS.truthy (fp_productCategoryId p) then
    if JS.Qltb (inject_Z (Z.of_nat (length cm))) (limit * 2) then
      fold_left
        (fun cm row => cm_add_if_absent (fst row) (Store.p_popularity (snd row) * 0.5)%Q cm)
        (findByCategory (default EmptyString (fp_productCategoryId p)) db) cm
    else cm
  else cm.

Definition limitOf (p : FeedParams) : Q := default DEFAULT_LIMIT (fp_limit p).

(** Steps 1 to 4. *)
Definition candidates (env : Env) (p : FeedParams) (w : World) : Candidates :=
  let cm := addUserTop (getPrecomputedUserTop (fp_userId p) CANDIDATE_K (redis w)) [] in
  let cm := addTextMatches (textMatchesOf env p) cm in
  let cm := addGlobal (limitOf p) (redis w) cm in
  addCategory p (limitOf p) (store w) cm.

Definition candidateIds (cm : Candidates) : list string :=
  take CANDIDATE_K (List.map fst cm).

Definition metaOfRow (row : Store.Product) : Meta :=
  mkMeta (Store.p_title row) (Store.p_merchantId row)
         (Store.p_productCategoryId row) (Some (Store.p_popularity row)).

(** [prisma.product.findMany({ where: { id: { in: ids } } })] *)
Definition findManyIn (ids : list string) (db : Store.t) : list (string * Store.Product) :=
  List.filter (fun row => existsb (String.eqb (fst row)) ids)
              (map_to_list (Store.products db)).

(** The object [out] of [loadProductMeta] is a plain object, written with
    [out[id] = meta] and read with [out[id]]; both go through the prototype
    chain.  [own] holds the own properties; [proto] is the meta that an
    assignment to [__proto__] has made the prototype of the object, [None]
    while the prototype is [Object.prototype]. *)
Record Obj := mkObj {
  own : gmap string Meta;
  proto : option Meta
}.

(** [{}] *)
Definition obj_empty : Obj := mkObj ∅ None.

(** The property names of [Object.prototype] besides [__proto__]; each
    holds a function. *)
Definition builtin (k : string) : bool :=
  existsb (String.eqb k)
    ["constructor"; "hasOwnProperty"; "isPrototypeOf"; "propertyIsEnumerable";
     "toLocaleString"; "toString"; "valueOf"; "__defineGetter__";
     "__defineSetter__"; "__lookupGetter__"; "__lookupSetter__"]%string.

(** [out[k] = m] for an object [m]: [__proto__] is a setter of
    [Object.prototype], which replaces the prototype; any other key
    becomes or stays an own property. *)
Definition obj_set (k : string) (m : Meta) (o : Obj) : Obj :=
  if String.eqb k "__proto__" then mkObj (own o) (Some m)
  else mkObj (<[k := m]> (own o)) (proto o).

(** Whether field [k] of a meta is truthy: a non-empty string, a number
    other than 0. *)
Definition field_truthy (k : string) (m : Meta) : bool :=
  if String.eqb k "title" then JS.truthy (Some (title m))
  else if String.eqb k "merchantId" then JS.truthy (Some (merchantId m))
  else if String.eqb k "productCategoryId" then JS.truthy (Some (productCategoryId m))
  else if String.eqb k "popularity" then
    match popularity m with
    | Some q => negb (Qeq_bool q 0)
    | None => false
    end
  else false.

(** [out[k]] when it is truthy, [None] when it is falsy.  [__proto__] is a
    getter that returns the prototype.  Any other key is looked up among
    the own properties, then among the fields of a meta that has become the
    prototype, then among the names of [Object.prototype]. *)
Definition obj_get (k : string) (o : Obj) : option metaval :=
  if String.eqb k "__proto__" then
    Some (match proto o with
          | Some m => MetaObj m
          | None => NotMeta
          end)
  else
    match own o !! k with
    | Some m => Some (MetaObj m)
    | None =>
        if match proto o with
           | Some m => field_truthy k m
           | None => false
           end
        then Some NotMeta
        else if builtin k then Some NotMeta
        else None
    end.

(** [!out[id]] *)
Definition falsy (v : option metaval) : bool :=
  match v with
  | Some _ => false
  | None => true
  end.

(** [loadProductMeta(ids)]: the object returned, and the cache once the
    write-backs, which are not awaited, have landed.  A write-back
    stringifies [out[r.id]] as read back after the assignment; [r.id] was
    falsy before, so that is the meta just assigned, and the last branch is
    never taken. *)
Definition loadProductMeta (ids : list string) (w : World) : Obj * Redis.t :=
  match ids with
  | [] => (obj_empty, redis w)
  | _ =>
      let metas := Redis.hmget_meta ids (redis w) in
      let out :=
        fold_left
          (fun out im => match snd im with
                         | Some m => obj_set (fst im) m out
                         | None => out
                         end)
          (zip ids metas) obj_empty in
      let missing := List.filter (fun id => falsy (obj_get id out)) ids in
      if JS.nonempty missing then
        fold_left
          (fun acc row =>
             let out := obj_set (fst row) (metaOfRow (snd row)) (fst acc) in
             (out,
              match obj_get (fst row) out with
              | Some (MetaObj m) => Redis.hset_meta (fst row) m (snd acc)
              | _ => snd acc
              end))
          (findManyIn missing (store w)) (out, redis w)
      else (out, redis w)
  end.

(** [textMatches.find((t) => t.id === id)?.textScore ?? 0] *)
Definition textScoreOf (textMatches : list (string * Q)) (id : string) : Q :=
  default 0%Q (snd <$> List.find (fun t => String.eqb (fst t) id) textMatches).

(** The session affinity of a candidate. *)
Definition sessionAffinity (sessionId : option string) (id : string) (r : Redis.t) : Q :=
  if JS.truthy sessionId then
    let list := Redis.lrange (KEYS.sessionRecent (default EmptyString sessionId)) 0 20 r in
    if existsb (String.eqb id) list then 1%Q else 0%Q
  else 0%Q.

(** Step 6, the body of the loop: [None] for [continue]. *)
Definition scoreCandidate (env : Env) (p : FeedParams) (r : Redis.t)
    (cm : Candidates) (textMatches : list (string * Q)) (metas : Obj)
    (id : string) : option Item :=
  match obj_get id metas with
  | None => None
  | Some meta =>
      let base := default 0.01%Q (cm_get id cm) in
      let textScore := textScoreOf textMatches id in
      let popularity := v_popularity meta in
      let merchantBoost := default 0.5%Q (merchantBoost env id) in
      let sessionAffinity := sessionAffinity (fp_sessionId p) id r in
      let wCF := 0.45%Q in
      let wPop := 0.18%Q in
      let wBandit := 0.12%Q in
      let wText := if JS.truthy (fp_searchText p) then 0.20%Q else 0.05%Q in
      let wSess := 0.1%Q in
      let finalScore :=
        (wCF * base + wPop * popularity + wBandit * merchantBoost
         + wText * textScore + wSess * sessionAffinity)%Q in
      Some (mkItem id finalScore meta)
  end.

(** Steps 5 and 6: the scored candidates, and the cache afterwards. *)
Definition results (env : Env) (p : FeedParams) (w : World) : list Item * Redis.t :=
  let cm := candidates env p w in
  let ids := candidateIds cm in
  let '(metas, r) := loadProductMeta ids w in
  (omap (scoreCandidate env p r cm (textMatchesOf env p) metas) ids, r).

(** The product of a returned item: the row of the store, or the stub
    [{ id, title, description: '' }] when the row is gone. *)
Inductive ProductView : Type :=
| Row (id : string) (row : Store.Product)
| Stub (id title description : string).

Definition product_id (v : ProductView) : string :=
  match v with
  | Row id _ => id
  | Stub id _ _ => id
  end.

Record FeedItem := mkFeedItem {
  f_score : Q;
  f_product : ProductView
}.

Record Feed := mkFeed {
  items : list FeedItem;
  cursor : option string
}.

Definition diversityOpts : Opts := mkOpts 1 0.25 0.4.

(** Step 10: the rows of the page, in the order of the page. *)
Definition toFeedItem (db : Store.t) (it : Item) : FeedItem :=
  mkFeedItem (score it)
    (match Store.products db !! id it with
     | Some row => Row (id it) row
     | None => Stub (id it) (default EmptyString (v_title (meta it))) EmptyString
     end).

(** [getFeed(params)]: the feed and the cache afterwards; [None] when the
    call does not return. *)
Definition getFeed (env : Env) (p : FeedParams) (w : World) : option (Feed * Redis.t) :=
  let limit := limitOf p in
  let '(res, r) := results env p w in
  let finalSorted := JS.sort_by (fun y x => JS.Qltb (score x) (score y)) res in
  match ensureDiversity finalSorted diversityOpts with
  | None => None
  | Some reRanked =>
      let page := JS.slice_to (Qmax limit 50) reRanked in
      let pageToReturn := JS.slice_to limit page in
      let ordered := List.map (toFeedItem (store w)) pageToReturn in
      let nextCursor := product_id <$> (f_product <$> last ordered) in
      Some (mkFeed ordered nextCursor, r)
  end.

End Recommender.

(** ** pages/api/events.ts and the loop of workers/event_consumer.ts *)

Module EventQueue.

Import EventConsumer.

(** The list the producer pushes on and the consumer pops from. *)
Definition QUEUE : string := "events".

(** [JSON.stringify] and [JSON.parse] on event objects, which the code
    takes from the runtime.  [parse] is [None] when the text is not the
    JSON of an event. *)
Record Codec := mkCodec {
  stringify : Event -> string;
  parse : string -> option Event
}.

(** BRPOP key timeout: the last element of the list, [None] (nil) when the
    list is still empty at the timeout. *)
Definition brpop (key : string) (r : Redis.t) : option (string * Redis.t) :=
  match rev (Redis.list_at key r) with
  | [] => None
  | msg :: rest => Some (msg, Redis.with_lists (Redis.store_list key (rev rest)) r)
  end.

Inductive Status : Type := Ok200 | BadRequest400 | MethodNotAllowed405.

(** A key of the request body: absent, a string, or a value of another
    type (null, a number, an object, ...). *)
Inductive Field : Type :=
| Absent
| Str (s : string)
| NotString.

(** [req.body]: not an object, or an object of which the schema looks at
    four keys; zod strips the others. *)
Inductive Body : Type :=
| NotObject
| Object (userId sessionId productId type : Field).

(** [z.enum(['VIEW', 'CLICK', 'CART', 'PURCHASE'])] *)
Definition parseType (s : string) : option InteractionType :=
  if String.eqb s "VIEW" then Some VIEW
  else if String.eqb s "CLICK" then Some CLICK
  else if String.eqb s "CART" then Some CART
  else if String.eqb s "PURCHASE" then Some PURCHASE
  else None.

(** [schema.safeParse(req.body)]: [userId] is optional, [sessionId],
    [productId] and [type] are required; [None] for [success: false]. *)
Definition safeParse (body : Body) : option Event :=
  match body with
  | Object userId (Str sessionId) (Str productId) (Str type) =>
      match userId, parseType type with
      | Absent, Some t => Some (mkEvent None (Some sessionId) productId t)
      | Str u, Some t => Some (mkEvent (Some u) (Some sessionId) productId t)
      | _, _ => None
      end
  | _ => None
  end.

(** The handler of POST /events. *)
Definition handler (codec : Codec) (method : string) (body : Body)
    (r : Redis.t) : Status * Redis.t :=
  if negb (String.eqb method "POST") then (MethodNotAllowed405, r)
  else
    match safeParse body with
    | None => (BadRequest400, r)
    | Some data => (Ok200, Redis.lpush QUEUE (stringify codec data) r)
    end.

(** One turn of the [while (true)] of [runLoop], started at time [now]: pop,
    parse and handle; a message that does not parse is caught, logged and
    gone; an empty queue leaves the world as it is. *)
Definition iteration (codec : Codec) (now : Z) (w : World) : World :=
  match brpop QUEUE (redis w) with
  | Some (raw, r) =>
      match parse codec raw with
      | Some msg => handleEvent now msg (mkWorld r (store w))
      | None => mkWorld r (store w)
      end
  | None => w
  end.

(** The first turns of [runLoop], one per entry of [times]. *)
Definition runLoop (codec : Codec) (times : list Z) (w : World) : World :=
  fold_left (fun w now => iteration codec now w) times w.

End EventQueue.

(** ** workers/feature_worker.ts: merchant popularity *)

Module MerchantWorker.

Import Store.

(** The Merchant table: popularity by merchant id. *)
Definition Merchants : Type := gmap string Q.

(** LIMIT of the merchant query. *)
Definition LIMIT : nat := Z.to_nat 10000.

(** The inner query: interactions of the window joined with their product
    (an interaction without product row drops out of the JOIN), the type
    weights summed by merchant.  The value column is not used here. *)
Definition joined (since : Z) (db : Store.t) : list (string * Q) :=
  omap (fun i =>
          if FeatureWorker.in_window since i then
            match products db !! i_productId i with
            | Some p => Some (p_merchantId p, FeatureWorker.typeWeight (i_type i))
            | None => None
            end
          else None)
       (interactions db).

Definition scoresByMerchant (since : Z) (db : Store.t) : list (string * Q) :=
  fold_left (fun rows x => FeatureWorker.add_to_group (fst x) (snd x) rows)
            (joined since db) [].

(** [COALESCE(SUM(i_score), 0)] for merchant [mid] after the LEFT JOIN. *)
Definition merchantScore (since : Z) (db : Store.t) (mid : string) : Q :=
  match List.find (fun row => String.eqb (fst row) mid) (scoresByMerchant since db) with
  | Some row => snd row
  | None => 0%Q
  end.

(** The rows of the query: one per merchant, ORDER BY score DESC,
    LIMIT 10000. *)
Definition merchantRows (now : Z) (db : Store.t) (merchants : Merchants)
  : list (string * Q) :=
  take LIMIT
    (JS.sort_by (fun y x => JS.Qltb (snd x) (snd y))
       (List.map (fun m => (fst m, merchantScore (now - FeatureWorker.window) db (fst m)))
                 (map_to_list merchants))).

(** [prisma.merchant.update({ where: { id }, data: { popularity } })]:
    [None] when no such row exists. *)
Definition merchant_update (id : string) (pop : Q) (merchants : Merchants)
  : option Merchants :=
  match merchants !! id with
  | Some _ => Some (<[id := pop]> merchants)
  | None => None
  end.

(** The loop over the rows; [r.score || 0] keeps every number.  [inl] when
    an update throws, with the table as written so far. *)
Fixpoint updateAll (rows : list (string * Q)) (merchants : Merchants)
  : Merchants + Merchants :=
  match rows with
  | [] => inr merchants
  | row :: rows' =>
      match merchant_update (fst row) (snd row) merchants with
      | Some merchants' => updateAll rows' merchants'
      | None => inl merchants
      end
  end.

(** [computeMerchantPopularity()], run at time [now]. *)
Definition computeMerchantPopularity (now : Z) (db : Store.t) (merchants : Merchants)
  : Merchants + Merchants :=
  updateAll (merchantRows now db merchants) merchants.

(** [runOnce()]: the product pass, then the merchant pass; a throw of the
    first pass ends the run. *)
Definition runOnce (now : Z) (w : World) (merchants : Merchants)
  : FeatureWorker.outcome * Merchants :=
  match FeatureWorker.computeProductPopularity now w with
  | FeatureWorker.Returned w' =>
      match computeMerchantPopularity now (store w') merchants with
      | inr merchants' => (FeatureWorker.Returned w', merchants')
      | inl merchants' => (FeatureWorker.Threw w', merchants')
      end
  | FeatureWorker.Threw w' => (FeatureWorker.Threw w', merchants)
  end.

End MerchantWorker.

(* ================================================================== *)
(** * Part II.  Vocabulary of the properties and sample inputs          *)
(* ================================================================== *)

Section RedisFactsTerms.

Implicit Types (r : Redis.t) (key field : string).

(** What HGET would reply. *)
Definition hfield key field r : option Z :=
  Redis.hashes r !! key ≫= (fun h => h !! field).

End RedisFactsTerms.

Section BanditPosteriorTerms.

Import Bandit.

(** The number k of successes and the number m of failures in a run of
    outcomes. *)
Definition successes (outcomes : list bool) : nat :=
  length (List.filter (fun s => s) outcomes).

Definition failures (outcomes : list bool) : nat :=
  length (List.filter negb outcomes).

End BanditPosteriorTerms.

Section BetaSamplerTerms.

Import Bandit.

(** What ECMAScript fixes of [Math.log]. *)
Definition es_log (log : jsnum -> jsnum) : Prop :=
  log S754_nan = S754_nan
  /\ (forall s, log (S754_zero s) = S754_infinity true)
  /\ (forall m e, log (S754_finite true m e) = S754_nan)
  /\ log (S754_infinity true) = S754_nan
  /\ log (S754_infinity false) = S754_infinity false
  /\ log (Num.of_Z 1) = S754_zero false.

(** A number above zero, +Infinity included. *)
Definition positive (x : jsnum) : Prop :=
  match x with
  | S754_finite false _ _ | S754_infinity false => True
  | _ => False
  end.

Definition is_zero (x : jsnum) : Prop :=
  match x with
  | S754_zero _ => True
  | _ => False
  end.

(** Neither an infinity nor NaN. *)
Definition finite (x : jsnum) : Prop :=
  match x with
  | S754_zero _ | S754_finite _ _ _ => True
  | _ => False
  end.

(** A value [Math.random] may return: a number in [0, 1). *)
Definition unit_draw (x : jsnum) : Prop :=
  SFleb (S754_zero false) x = true /\ SFltb x (Num.of_Z 1) = true.

(** A number strictly between 0 and 1. *)
Definition in_open_unit (x : jsnum) : Prop :=
  SFltb (S754_zero false) x = true /\ SFltb x (Num.of_Z 1) = true.

(** The doubles 1/2 and 1 - 2^-52, and the doubles nearest to their
    logarithms, -0.6931471805599453 and -2.2204460492503136e-16. *)
Definition half : jsnum := S754_finite false 4503599627370496 (-53).
Definition near_one : jsnum := S754_finite false 9007199254740990 (-53).
Definition ln_half : jsnum := S754_finite true 6243314768165359 (-53).
Definition ln_near_one : jsnum := S754_finite true 4503599627370497 (-104).

(** A [Math.log] for the sample runs: the values ECMAScript fixes and the
    values at 1/2 and at 1 - 2^-52; the runs read it nowhere else. *)
Definition table_log (x : jsnum) : jsnum :=
  match x with
  | S754_nan => S754_nan
  | S754_zero _ => S754_infinity true
  | S754_infinity s => if s then S754_nan else S754_infinity false
  | S754_finite true _ _ => S754_nan
  | S754_finite false _ _ =>
      if SFeqb x half then ln_half
      else if SFeqb x near_one then ln_near_one
      else if SFeqb x (Num.of_Z 1) then S754_zero false
      else S754_nan
  end.

(** A tape whose first draw is 0, a value [Math.random] may return,
    followed by draws of 1/2. *)
Definition zero_first_tape : nat -> jsnum :=
  fun n => match n with O => S754_zero false | S _ => half end.

(** A tape with the draw 1/2 followed by draws of 1 - 2^-52. *)
Definition near_one_tape : nat -> jsnum :=
  fun n => match n with O => half | S _ => near_one end.

End BetaSamplerTerms.

Section SessionTrailTerms.

Import EventConsumer.
Implicit Types (w : World) (e : Event) (sid : string).
Local Open Scope nat_scope.

(** The product ids the events push on the trail of [sid], oldest first. *)
Definition pushed sid (events : list (Z * Event)) : list string :=
  omap (fun te =>
          if JS.truthy (sessionId (snd te))
             && String.eqb (default EmptyString (sessionId (snd te))) sid
          then Some (productId (snd te)) else None) events.

(** Whether [handleEvent] pushes on the trail of [sid] for event [e]. *)
Definition pushes_on sid e : bool :=
  JS.truthy (sessionId e) && String.eqb (default EmptyString (sessionId e)) sid.

(** No product id stands twice in consecutive positions. *)
Definition no_adjacent_dup (l : list string) : Prop :=
  forall i x y, l !! i = Some x -> l !! S i = Some y -> x ≠ y.

(** An anonymous click on [pid] in session [sid]. *)
Definition click (sid pid : string) : Event :=
  mkEvent None (Some sid) pid CLICK.

(** Empty cache, empty store. *)
Definition fresh_world : World := mkWorld Redis.empty Store.empty.

End SessionTrailTerms.

Section EventBanditTerms.

Import EventConsumer.
Implicit Types (w : World) (e : Event).

(** One outcome recorded on the merchant key and then on the category
    key: on both keys the counter [hit] goes up by one (from 0 when it is
    missing) and the counter [other] keeps its value; no other hash
    changes. *)
Definition both_recorded (hit other : string) (mKey cKey : string)
    (before after : Redis.t) : Prop :=
  hfield mKey hit after = Some (default 0 (hfield mKey hit before) + 1)
  /\ hfield cKey hit after = Some (default 0 (hfield cKey hit before) + 1)
  /\ hfield mKey other after = hfield mKey other before
  /\ hfield cKey other after = hfield cKey other before
  /\ (forall key field, key ≠ mKey -> key ≠ cKey ->
        hfield key field after = hfield key field before).

(** A store with the single product P1 of merchant M in category C. *)
Definition shoe : Store.Product :=
  Store.mkProduct "red shoe" "" "M" "C" 0.

Definition shoe_world : World :=
  mkWorld Redis.empty (Store.mk {[ "P1"%string := shoe ]} []).

End EventBanditTerms.

Section PopularityTerms.

Import Store FeatureWorker.
Local Open Scope Q_scope.

(** The SUM of a column. *)
Definition sumQ (l : list Q) : Q := fold_right Qplus 0 l.

(** The interactions on [pid] inside the window. *)
Definition hits (since : Z) (pid : string) (log : list Interaction)
  : list Interaction :=
  List.filter (fun i => in_window since i && String.eqb (i_productId i) pid) log.




(** The score of the row of [pid], if there is one. *)
Definition assoc (pid : string) (rows : list (string * Q)) : option Q :=
  snd <$> List.find (fun row => String.eqb (fst row) pid) rows.

(** One product, viewed once and bought once. *)
Definition busy_world : World :=
  mkWorld Redis.empty
    (Store.mk {[ "P1"%string := mkProduct "red shoe" "" "M" "C" 0 ]}
       [ mkInteraction None "P1" VIEW 1 10; mkInteraction None "P1" PURCHASE 1 20 ]).



(** What ZSCORE key member would reply. *)
Definition zscore (key member : string) (r : Redis.t) : option Q :=
  Redis.zsets r !! key ≫= (fun z => z !! member).

(** The world a run ends with, returned or thrown. *)
Definition final (o : outcome) : World :=
  match o with
  | Returned w => w
  | Threw w => w
  end.

(** The product with its popularity replaced. *)
Definition with_popularity (pop : Q) (p : Product) : Product :=
  mkProduct (p_title p) (p_description p) (p_merchantId p) (p_productCategoryId p) pop.

(** The rows the loop gets through: those before the first row whose
    product is not in the table. *)
Fixpoint reached (prods : gmap string Product) (rows : list (string * Q))
  : list (string * Q) :=
  match rows with
  | [] => []
  | row :: rows' =>
      match prods !! fst row with
      | Some _ => row :: reached prods rows'
      | None => []
      end
  end.

End PopularityTerms.

Section TopKReplacementTerms.

Import CFWorker Recommender.

(** What a reader of the user's top-K gets from a store. *)
Definition reads (uid : string) (r : Redis.t) : list (string * Q) :=
  getPrecomputedUserTop (Some uid) CANDIDATE_K r.

(** The arguments of ZADD for a top-K list: score first, member second. *)
Definition zargs (top : list (string * Q)) : list (Q * string) :=
  List.map (fun ps => (snd ps, fst ps)) top.

(** A store in which user U has the top-K { P1 : 1 }. *)
Definition old_top_store : Redis.t :=
  Redis.zadd (KEYS.userTopK "U") [(1%Q, "P1"%string)] Redis.empty.

End TopKReplacementTerms.

Section DiversityPermutationTerms.

Import Diversity.
Local Open Scope nat_scope.

(** An item with id [i], merchant [m], category [c] and score [s]. *)
Definition item_of (i m c : string) (s : Q) : Item :=
  mkItem i s (MetaObj (mkMeta i m c (Some 0%Q))).

End DiversityPermutationTerms.

Section CandidateMapTerms.

Import Recommender.
Local Open Scope Q_scope.
Implicit Types (cm : Candidates) (id : string).

(** The two properties every step of the candidate generation keeps:
    keys are distinct, and base scores satisfy [P]. *)
Definition cm_ok (P : Q -> Prop) cm : Prop :=
  NoDup (List.map fst cm) /\ Forall (fun c => P (snd c)) cm.

End CandidateMapTerms.

Section ScoringTerms.

Import Diversity Recommender.
Local Open Scope Q_scope.

(** The ids, the metas and the cache of a request after step 5. *)
Definition idsOf env p w : list string := candidateIds (candidates env p w).
Definition metasOf env p w : Obj := fst (loadProductMeta (idsOf env p w) w).
Definition cacheOf env p w : Redis.t := snd (loadProductMeta (idsOf env p w) w).

(** The meta that becomes the prototype of the object while the cached
    metas of [ids] are assigned: the one cached under [__proto__], when
    that is one of the ids. *)
Definition proto_of (ids : list string) (r : Redis.t) : option Meta :=
  if bool_decide ("__proto__"%string ∈ ids) then Redis.metaHash r !! "__proto__"%string
  else None.

(** An id whose lookup in the object is truthy without a meta of its own:
    it names [__proto__], a function of [Object.prototype], or a truthy
    field of the meta that has become the prototype. *)
Definition shadowed (ids : list string) (r : Redis.t) (id : string) : bool :=
  String.eqb id "__proto__" || builtin id
  || match proto_of ids r with
     | Some m => field_truthy id m
     | None => false
     end.

(** The fused score as the specification writes it. *)
Definition fused (searchText : option string)
    (base popularity sample textScore sessionAffinity : Q) : Q :=
  0.45 * base + 0.18 * popularity + 0.12 * sample
  + (if JS.truthy searchText then 0.20 else 0.05) * textScore
  + 0.10 * sessionAffinity.

(** The score the specification gives candidate [id] with meta [meta] and
    base score [base]: popularity from the meta (0 when it is not a
    number), the bandit sample or 0.5 when sampling failed. *)
Definition expected env p w (i : string) (meta : metaval) (base : Q) : Q :=
  fused (fp_searchText p) base
    (match meta with
     | MetaObj m => match popularity m with Some x => x | None => 0 end
     | NotMeta => 0
     end)
    (match merchantBoost env i with Some x => x | None => 0.5 end)
    (textScoreOf (textMatchesOf env p) i)
    (sessionAffinity (fp_sessionId p) i (cacheOf env p w)).

End ScoringTerms.

Section FeedTerms.

Import Diversity Recommender.
Local Open Scope Q_scope.

(** Step 9: the two slices. *)
Definition pageOf (limit : Q) (reRanked : list Item) : list Item :=
  JS.slice_to limit (JS.slice_to (Qmax limit 50) reRanked).

(** Every number the request reads or is handed is non-negative: the
    cached scores, the similarities, the popularities in the store and in
    the cached metas, and the bandit samples. *)
Definition nonneg_inputs (env : Env) (w : World) : Prop :=
  (forall key z m s,
      Redis.zsets (redis w) !! key = Some z -> z !! m = Some s -> 0 <= s)
  /\ (forall q n i s, In (i, Some s) (trgmRows env q n) -> 0 <= s)
  /\ (forall i row, Store.products (store w) !! i = Some row ->
                    0 <= Store.p_popularity row)
  /\ (forall i m x, Redis.metaHash (redis w) !! i = Some m ->
                    popularity m = Some x -> 0 <= x)
  /\ (forall i x, merchantBoost env i = Some x -> 0 <= x).

(** No text matches, and every bandit sample fails. *)
Definition quiet_env : Env := mkEnv (fun _ _ => []) (fun _ => None).

(** A request of user [uid] with every other parameter left out. *)
Definition for_user (uid : string) : FeedParams :=
  mkParams (Some uid) None None None None None.

Definition shoe_meta : Meta := mkMeta "red shoe" "M" "C" (Some 0).

(** The CF worker has left the score -1 for product P1 in the top-K of
    user U; the product is in the store and in the meta cache. *)
Definition negative_topk_world : World :=
  mkWorld
    (Redis.zadd (KEYS.userTopK "U") [(-1, "P1"%string)]
       (Redis.hset_meta "P1" shoe_meta Redis.empty))
    (Store.mk {[ "P1"%string := Store.mkProduct "red shoe" "" "M" "C" 0 ]} []).

(** The CF worker has left the id [constructor] in the top-K of user U;
    the meta cache is empty and the store has no product. *)
Definition constructor_world : World :=
  mkWorld (Redis.zadd (KEYS.userTopK "U") [(1, "constructor"%string)] Redis.empty)
          Store.empty.

(** Two products with the same global score from different merchants; the
    session S has visited P7 and P4. *)
Definition session_world : World :=
  mkWorld
    (Redis.lpush (KEYS.sessionRecent "S") "P7"
       (Redis.lpush (KEYS.sessionRecent "S") "P4"
          (Redis.zadd KEYS.globalTop [(1, "P5"%string); (1, "P7"%string)]
             (Redis.hset_meta "P5" (mkMeta "blue shirt" "M1" "C" (Some 0))
                (Redis.hset_meta "P7" (mkMeta "red shirt" "M2" "C" (Some 0))
                   Redis.empty)))))
    Store.empty.

(** An anonymous request in session [sid]. *)
Definition in_session (sid : string) : FeedParams :=
  mkParams None None None None None (Some sid).

(** Six products of six merchants and six categories, cached with the
    global scores 1 to 6. *)
Definition six_products_world : World :=
  mkWorld
    (fold_right
       (fun ps r =>
          Redis.zadd KEYS.globalTop [(snd ps, fst ps)]
            (Redis.hset_meta (fst ps)
               (mkMeta (fst ps) ("M" +:+ fst ps) ("C" +:+ fst ps) (Some 0)) r))
       Redis.empty
       [("P1", 1); ("P2", 2); ("P3", 3); ("P4", 4); ("P5", 5); ("P6", 6)]%string)
    Store.empty.

(** An anonymous request for a page of [n] items. *)
Definition page_of (n : Q) : FeedParams :=
  mkParams None None None None (Some n) None.

(** The trigram query finds three products for the text "red shirt". *)
Definition shirt_env : Env :=
  mkEnv (fun q _ => if String.eqb q "red shirt"
                    then [("P3", Some 1); ("P1", Some 0.5); ("P2", Some 0.4)]%string
                    else [])
        (fun _ => None).

(** The three products, of three merchants, in the meta cache. *)
Definition shirt_world : World :=
  mkWorld
    (Redis.hset_meta "P1" (mkMeta "red shoe" "M1" "C1" (Some 0))
       (Redis.hset_meta "P2" (mkMeta "blue shirt" "M2" "C2" (Some 0))
          (Redis.hset_meta "P3" (mkMeta "red shirt" "M3" "C3" (Some 0)) Redis.empty)))
    Store.empty.

(** An anonymous search for [text]. *)
Definition search_for (text : string) : FeedParams :=
  mkParams None (Some text) None None (Some 10) None.

End FeedTerms.

Section SessionAffinityTerms.

Import Recommender.
Local Open Scope Q_scope.

(** A session whose trail holds 21 products: P0 was pushed first and 20
    others after it. *)
Definition trail21 : list string :=
  ["T20"; "T19"; "T18"; "T17"; "T16"; "T15"; "T14"; "T13"; "T12"; "T11";
   "T10"; "T9"; "T8"; "T7"; "T6"; "T5"; "T4"; "T3"; "T2"; "T1"; "P0"]%string.

(** The cache holding that trail for session S. *)
Definition trail21_store : Redis.t :=
  Redis.mk {[ KEYS.sessionRecent "S" := trail21 ]} ∅ ∅ ∅.

End SessionAffinityTerms.

Section KeySpaceTerms.

(** The logical names the code keeps in the cache. *)
Inductive KeyName : Type :=
| UserTopK (userId : string)
| ProductFactors (productId : string)
| UserFactors (userId : string)
| MerchantBeta (merchantId : string)
| CategoryBeta (catId : string)
| SessionRecent (sessionId : string)
| GlobalTop
| ProductMetaHash
| EventQueueKey.

(** The Redis key of a logical name. *)
Definition render (k : KeyName) : string :=
  match k with
  | UserTopK u => KEYS.userTopK u
  | ProductFactors p => KEYS.productFactors p
  | UserFactors u => KEYS.userFactors u
  | MerchantBeta m => KEYS.merchantBeta m
  | CategoryBeta c => KEYS.categoryBeta c
  | SessionRecent s => KEYS.sessionRecent s
  | GlobalTop => KEYS.globalTop
  | ProductMetaHash => KEYS.productMetaHash
  | EventQueueKey => EventQueue.QUEUE
  end.

End KeySpaceTerms.

Section BanditCountsTerms.

(** Every stored counter is at least 1. *)
Definition positive_counters (r : Redis.t) : Prop :=
  forall key field z, hfield key field r = Some z -> 1 <= z.

(** A cache in which merchant M has 3 successes and 2 failures on record. *)
Definition seasoned_store : Redis.t :=
  Bandit.record_all (KEYS.merchantBeta "M") [true; false; true; true; false] Redis.empty.

End BanditCountsTerms.

Section EventLogTerms.

Import EventConsumer.

(** The interaction row [handleEvent] writes for an event handled at a
    given time. *)
Definition logged (te : Z * Event) : Store.Interaction :=
  Store.mkInteraction (userId (snd te)) (productId (snd te)) (type (snd te)) 1 (fst te).

(** Whether the event counts as a success (CLICK, PURCHASE) or as a failure
    (VIEW) for the bandit; a CART counts as neither. *)
Definition outcome_is (success : bool) (t : InteractionType) : bool :=
  match t, success with
  | (CLICK | PURCHASE), true => true
  | VIEW, false => true
  | _, _ => false
  end.

(** The counter a success or a failure is recorded in. *)
Definition counterOf (success : bool) : string := if success then "a" else "b".

(** The events with the given outcome whose product is in the store and
    belongs to merchant [mid]. *)
Definition merchant_events (success : bool) (mid : string) (db : Store.t)
    (events : list (Z * Event)) : list (Z * Event) :=
  List.filter
    (fun te =>
       match Store.findUnique (productId (snd te)) db with
       | Some p => String.eqb (Store.p_merchantId p) mid && outcome_is success (type (snd te))
       | None => false
       end)
    events.

(** The same for the products of category [cid]. *)
Definition category_events (success : bool) (cid : string) (db : Store.t)
    (events : list (Z * Event)) : list (Z * Event) :=
  List.filter
    (fun te =>
       match Store.findUnique (productId (snd te)) db with
       | Some p => String.eqb (Store.p_productCategoryId p) cid
                   && outcome_is success (type (snd te))
       | None => false
       end)
    events.

(** Two products of merchant M, one of merchant N. *)
Definition three_products_world : World :=
  mkWorld Redis.empty
    (Store.mk
       (<[ "P1"%string := Store.mkProduct "red shoe" "" "M" "C1" 0 ]>
          (<[ "P2"%string := Store.mkProduct "blue shirt" "" "M" "C2" 0 ]>
             {[ "P3"%string := Store.mkProduct "red shirt" "" "N" "C2" 0 ]}))
       []).

(** A view and two clicks on products of M, a purchase at N, a cart at M
    and a click on a product that is not in the store. *)
Definition busy_session : list (Z * Event) :=
  [ (1, mkEvent None (Some "S") "P1" VIEW);
    (2, mkEvent None (Some "S") "P1" CLICK);
    (3, mkEvent (Some "U") (Some "S") "P2" CLICK);
    (4, mkEvent (Some "U") (Some "S") "P3" PURCHASE);
    (5, mkEvent (Some "U") None "P2" CART);
    (6, mkEvent None (Some "S") "P9" CLICK) ]%string.

End EventLogTerms.

Section EventQueueTerms.

Import EventConsumer EventQueue.

(** The cache after one POST per body, in order. *)
Definition post_all (codec : Codec) (bodies : list Body) (r : Redis.t) : Redis.t :=
  fold_left (fun r body => snd (handler codec "POST" body r)) bodies r.

(** The events of the bodies that pass the schema, in order. *)
Definition accepted (bodies : list Body) : list Event := omap safeParse bodies.

(** The cache with the queue replaced by [q]. *)
Definition with_queue (q : list string) (r : Redis.t) : Redis.t :=
  Redis.with_lists (Redis.store_list QUEUE q) r.

(** A codec for the anonymous clicks of session S, written as their
    product id. *)
Definition click_codec : Codec :=
  mkCodec productId (fun s => Some (mkEvent None (Some "S"%string) s CLICK)).

(** A click on P1 in session S, a click without session id, which the
    schema refuses, and a click on P2 in session S. *)
Definition three_posts : list Body :=
  [Object Absent (Str "S") (Str "P1") (Str "CLICK");
   Object Absent Absent (Str "P9") (Str "CLICK");
   Object Absent (Str "S") (Str "P2") (Str "CLICK")]%string.

End EventQueueTerms.

Section PopularityMirrorTerms.

Import Store FeatureWorker.

(** The columns of a product that the aggregator has no business with. *)
Definition identity_of (p : Product) : string * string * string * string :=
  (p_title p, p_description p, p_merchantId p, p_productCategoryId p).

(** Three rows, of which the second refers to a product that is not in
    the table. *)
Definition late_orphan_world : World :=
  mkWorld Redis.empty
    (Store.mk {[ "P1"%string := mkProduct "red shoe" "" "M" "C" 0;
                 "P2"%string := mkProduct "blue shoe" "" "M" "C" 0 ]}
       [ mkInteraction None "P1" PURCHASE 1 10; mkInteraction None "P9" CART 1 20;
         mkInteraction None "P2" VIEW 1 30 ]).

End PopularityMirrorTerms.

Section MerchantPopularityTerms.

Import Store FeatureWorker.

(** The interactions of the window on products of merchant [mid]. *)
Definition merchant_hits (since : Z) (db : Store.t) (mid : string) : list Interaction :=
  List.filter
    (fun i => in_window since i
              && match products db !! i_productId i with
                 | Some p => String.eqb (p_merchantId p) mid
                 | None => false
                 end)
    (interactions db).

(** The sum of their type weights. *)
Definition merchant_weight (since : Z) (db : Store.t) (mid : string) : Q :=
  sumQ (List.map (fun i => typeWeight (i_type i)) (merchant_hits since db mid)).

(** The entries of a key in a list of keyed numbers. *)
Definition entries_of (k : string) (xs : list (string * Q)) : list Q :=
  List.map snd (List.filter (fun x => String.eqb (fst x) k) xs).

(** A Merchant table with the merchant of [busy_world] and one without
    products. *)
Definition two_merchants : MerchantWorker.Merchants :=
  {[ "M"%string := 0%Q; "N"%string := 7%Q ]}.

End MerchantPopularityTerms.

Section TopScoresTerms.

Import CFWorker.

(** A list in which no element has a higher [key] than an earlier one. *)
Definition descending_by {A} (key : A -> Q) (l : list A) : Prop :=
  StronglySorted (fun a b => (key b <= key a)%Q) l.


(** The sorted set ZADD builds from nothing. *)
Definition zset_of (top : list (string * Q)) : gmap string Q :=
  fold_left (fun z a => <[snd a := fst a]> z) (zargs top) ∅.

(** Three product vectors and two user vectors of dimension 2. *)
Definition three_factors : list (string * Vec) :=
  [("P1", [1; 0]); ("P2", [0; 1]); ("P3", [1; 1])]%string%Q.

Definition two_users : list (string * Vec) :=
  [("U", [2; 1]); ("V", [0; 3])]%string%Q.

End TopScoresTerms.

Section DiversityOrderTerms.

Import Diversity.

Definition merchantOf (it : Item) : option string := v_merchantId (meta it).
Definition categoryOf (it : Item) : option string := v_productCategoryId (meta it).

(** Three items of three merchants and three categories, best first. *)
Definition diverse_three : list Item :=
  [item_of "A" "M1" "C1" 3; item_of "B" "M2" "C2" 2; item_of "C" "M3" "C3" 1].

End DiversityOrderTerms.

Section MetaCacheTerms.

Import Recommender.

(** The store has repriced the shoe, the cache still holds the old meta;
    a second product is in the store only. *)
Definition stale_cache_world : World :=
  mkWorld (Redis.hset_meta "P1" shoe_meta Redis.empty)
    (Store.mk {[ "P1"%string := Store.mkProduct "red shoe" "" "M" "C" 5;
                 "P2"%string := Store.mkProduct "blue shoe" "" "M" "C" 2 ]} []).

(** A product whose id is [toString], in the store only. *)
Definition toString_world : World :=
  mkWorld Redis.empty
    (Store.mk {[ "toString"%string := Store.mkProduct "red shoe" "" "M" "C" 5 ]} []).

End MetaCacheTerms.

Section CandidatePriorityTerms.

Import Recommender.
Local Open Scope Q_scope.

(** The base score a text match with similarity score [ts] brings. *)
Definition boosted (ts : Q) : Q := 0.05 + ts * 0.8.

(** User U has the CF scores { P3 : 0.9, P2 : 0.1 } and searches among
    the products of [shirt_world]; P2 is also in the global top. *)
Definition shirt_fan_world : World :=
  mkWorld
    (Redis.zadd (KEYS.userTopK "U") [(0.9, "P3"%string); (0.1, "P2"%string)]
       (Redis.zadd KEYS.globalTop [(7, "P2"%string)] (redis shirt_world)))
    Store.empty.

Definition shirt_fan : FeedParams :=
  mkParams (Some "U"%string) (Some "red shirt"%string) None None (Some 10) None.

(** A text of a no-break space (U+00A0), an ideographic space (U+3000), a
    line separator (U+2028) and a space, in UTF-8. *)
Definition wide_blank_text : string :=
  String (ascii_of_nat 194) (String (ascii_of_nat 160)
    (String (ascii_of_nat 227) (String (ascii_of_nat 128) (String (ascii_of_nat 128)
      (String (ascii_of_nat 226) (String (ascii_of_nat 128) (String (ascii_of_nat 168)
        " "))))))).

(** The trigram query finds P3 whatever the text. *)
Definition any_text_env : Env :=
  mkEnv (fun _ _ => [("P3"%string, Some 1)]) (fun _ => None).

End CandidatePriorityTerms.

(* ================================================================== *)
(** * Part III.  Properties                                             *)
(* ================================================================== *)

(** ** The Redis commands *)

Section RedisFacts.

Implicit Types (r : Redis.t) (key field : string).

Lemma hfield_hincrby_same key field n r :
  hfield key field (Redis.hincrby key field n r)
  = Some (default 0 (hfield key field r) + n).
Proof.
  unfold hfield, Redis.hincrby; simpl.
  rewrite lookup_insert_eq; simpl.
  rewrite lookup_insert_eq.
  destruct (Redis.hashes r !! key) as [h|]; simpl; reflexivity.
Qed.

Lemma hfield_hincrby_other key field key' field' n r :
  key ≠ key' \/ field ≠ field' ->
  hfield key' field' (Redis.hincrby key field n r) = hfield key' field' r.
Proof.
  intros Hne. unfold hfield, Redis.hincrby; simpl.
  destruct (decide (key = key')) as [<-|Hk].
  - rewrite lookup_insert_eq; simpl.
    destruct Hne as [Hne|Hne]; [congruence|].
    rewrite lookup_insert_ne by assumption.
    destruct (Redis.hashes r !! key); simpl; [reflexivity|apply lookup_empty].
  - rewrite lookup_insert_ne by assumption. reflexivity.
Qed.

Lemma hmget_fields key fields r :
  Redis.hmget key fields r = (fun f => hfield key f r) <$> fields.
Proof. reflexivity. Qed.

End RedisFacts.

(** ** The bandit posterior *)

Section BanditPosterior.

Import Bandit.

Lemma getAB_fields key r :
  getAB key r = (default 1 (hfield key "a" r), default 1 (hfield key "b" r)).
Proof.
  unfold getAB. rewrite hmget_fields. simpl.
  destruct (hfield key "a" r), (hfield key "b" r); reflexivity.
Qed.

(** The counter of successes after a run of outcomes: untouched while no
    success is recorded, and otherwise the old count (0 when the field
    is missing) plus the number of successes. *)
Lemma record_all_a key outcomes : forall r,
  hfield key "a" (record_all key outcomes r)
  = match successes outcomes with
    | O => hfield key "a" r
    | S _ => Some (default 0 (hfield key "a" r) + Z.of_nat (successes outcomes))
    end.
Proof.
  induction outcomes as [|s outcomes IH]; intros r; [reflexivity|].
  unfold record_all in *; simpl fold_left. rewrite IH.
  destruct s; unfold recordBanditOutcome, successes; simpl.
  - rewrite hfield_hincrby_same. fold (successes outcomes).
    destruct (successes outcomes); simpl default; f_equal; lia.
  - rewrite hfield_hincrby_other by (right; discriminate). reflexivity.
Qed.

Lemma record_all_b key outcomes : forall r,
  hfield key "b" (record_all key outcomes r)
  = match failures outcomes with
    | O => hfield key "b" r
    | S _ => Some (default 0 (hfield key "b" r) + Z.of_nat (failures outcomes))
    end.
Proof.
  induction outcomes as [|s outcomes IH]; intros r; [reflexivity|].
  unfold record_all in *; simpl fold_left. rewrite IH.
  destruct s; unfold recordBanditOutcome, failures; simpl.
  - rewrite hfield_hincrby_other by (right; discriminate). reflexivity.
  - rewrite hfield_hincrby_same. fold (failures outcomes).
    destruct (failures outcomes); simpl default; f_equal; lia.
Qed.

(** Read-back on a fresh key: HINCRBY starts from 0 while [getAB] reads a
    missing field as 1, so the first success and the first failure leave
    no trace in the posterior. *)
Lemma getAB_record_all_fresh key outcomes r :
  Redis.hashes r !! key = None ->
  getAB key (record_all key outcomes r)
  = (Z.max 1 (Z.of_nat (successes outcomes)),
     Z.max 1 (Z.of_nat (failures outcomes))).
Proof.
  intros Hfresh.
  rewrite getAB_fields, record_all_a, record_all_b.
  unfold hfield. rewrite Hfresh. simpl.
  destruct (successes outcomes), (failures outcomes); simpl default; f_equal; lia.
Qed.

(** C4, at the failing input: on a key without posterior one recorded
    success is read back as (1, 1), the prior itself, where the
    specification asks for (2, 1). *)
Theorem getAB_first_success_lost :
  getAB "bandit:merchant:M" (recordBanditOutcome "bandit:merchant:M" true Redis.empty)
  = (1, 1).
Proof. reflexivity. Qed.

End BanditPosterior.

(** ** The Beta sampler *)

Section BetaSampler.

Import Bandit.

Lemma table_log_es : es_log table_log.
Proof.
  repeat split; try reflexivity; intros; reflexivity.
Qed.

Lemma mul_inf_positive (a : jsnum) :
  positive a -> Num.mul (S754_infinity false) a = S754_infinity false.
Proof. destruct a as [s|s| |s m e]; try destruct s; cbn; tauto. Qed.

(** C6, as amended: the sampler reads exactly two draws and returns
    ga / (ga + gb) as the doubles give it; nothing is drawn again and
    nothing is clamped.  For positive shapes a first draw of 0 gives NaN,
    a second draw of 0 gives a zero when the first gamma is finite, and
    two zero gammas give NaN. *)
Theorem sampleBeta_edge_draws (a b : jsnum) (g : runtime) :
  es_log (log g) -> positive a -> positive b ->
  snd (sampleBeta a b g) = mkRuntime (log g) (tape g) (S (S (pos g)))
  /\ (is_zero (tape g (pos g)) -> fst (sampleBeta a b g) = S754_nan)
  /\ (is_zero (tape g (S (pos g))) ->
      finite (Num.mul (Num.neg (log g (tape g (pos g)))) a) ->
      is_zero (fst (sampleBeta a b g)))
  /\ (is_zero (log g (tape g (pos g))) ->
      is_zero (log g (tape g (S (pos g)))) ->
      fst (sampleBeta a b g) = S754_nan).
Proof.
  intros (_ & Hzero & _) Ha Hb.
  unfold sampleBeta, random. cbn [fst snd log tape pos].
  split; [reflexivity|]. split; [|split].
  - intros Hu1. destruct (tape g (pos g)) as [s| | |]; try contradiction.
    rewrite Hzero. cbn [Num.neg SFopp negb]. rewrite (mul_inf_positive a Ha).
    destruct (Num.mul _ b) as [s'|s'| |s' m e]; try destruct s'; reflexivity.
  - intros Hu2 Hga. destruct (tape g (S (pos g))) as [s| | |]; try contradiction.
    rewrite Hzero. cbn [Num.neg SFopp negb]. rewrite (mul_inf_positive b Hb).
    destruct (Num.mul _ a) as [s'|s'| |s' m e]; try contradiction; exact I.
  - intros Hl1 Hl2.
    destruct (log g (tape g (pos g))) as [s1| | |]; try contradiction.
    destruct (log g (tape g (S (pos g)))) as [s2| | |]; try contradiction.
    destruct a as [sa|sa| |sa ma ea]; try contradiction;
      destruct b as [sb|sb| |sb mb eb]; try contradiction;
      destruct s1, s2, sa, sb; try contradiction; reflexivity.
Qed.

Lemma sampleBeta_edge_draws_witness :
  snd (sampleBeta (Num.of_Z 1) (Num.of_Z 1) (mkRuntime table_log zero_first_tape 0))
  = mkRuntime table_log zero_first_tape 2
  /\ fst (sampleBeta (Num.of_Z 1) (Num.of_Z 1) (mkRuntime table_log zero_first_tape 0))
     = S754_nan.
Proof.
  destruct (sampleBeta_edge_draws (Num.of_Z 1) (Num.of_Z 1)
              (mkRuntime table_log zero_first_tape 0))
    as (Hpos & Hnan & _).
  - exact table_log_es.
  - exact I.
  - exact I.
  - split; [exact Hpos|]. apply Hnan. exact I.
Defined.

(** C6, counterexample: with shapes (1,1) and the draws 0 and 1/2, both in
    [0,1), the first gamma is +Infinity and the sampler returns NaN; and
    with shapes (50,1) and the draws 1/2 and 1 - 2^-52, both strictly
    inside (0,1), the second gamma is lost in the rounding of the sum and
    the sampler returns exactly 1.  Neither result is inside (0,1). *)
Lemma sampleBeta_leaves_open_unit :
  (unit_draw (zero_first_tape 0) /\ unit_draw (zero_first_tape 1)
   /\ fst (sampleBeta (Num.of_Z 1) (Num.of_Z 1) (mkRuntime table_log zero_first_tape 0))
      = S754_nan
   /\ ~ in_open_unit
         (fst (sampleBeta (Num.of_Z 1) (Num.of_Z 1)
                 (mkRuntime table_log zero_first_tape 0))))
  /\ (in_open_unit (near_one_tape 0) /\ in_open_unit (near_one_tape 1)
      /\ fst (sampleBeta (Num.of_Z 50) (Num.of_Z 1) (mkRuntime table_log near_one_tape 0))
         = Num.of_Z 1
      /\ ~ in_open_unit
            (fst (sampleBeta (Num.of_Z 50) (Num.of_Z 1)
                    (mkRuntime table_log near_one_tape 0)))).
Proof.
  split.
  - split; [split; reflexivity|]. split; [split; reflexivity|].
    split; [vm_compute; reflexivity|].
    intros [H _]. vm_compute in H. discriminate H.
  - split; [split; reflexivity|]. split; [split; reflexivity|].
    split; [vm_compute; reflexivity|].
    intros [_ H]. vm_compute in H. discriminate H.
Qed.

End BetaSampler.

(** ** Keys *)

Section KeyFacts.

Lemma length_append (s t : string) :
  String.length (s +:+ t) = (String.length s + String.length t)%nat.
Proof. induction s as [|c s IH]; simpl; [reflexivity|now rewrite IH]. Qed.

Lemma append_inj_r (t s1 s2 : string) : s1 +:+ t = s2 +:+ t -> s1 = s2.
Proof.
  revert s2. induction s1 as [|c s1 IH]; intros [|d s2] H; simpl in H.
  - reflexivity.
  - apply (f_equal String.length) in H.
    rewrite ?length_append in H. simpl in H. rewrite ?length_append in H. lia.
  - apply (f_equal String.length) in H.
    rewrite ?length_append in H. simpl in H. rewrite ?length_append in H. lia.
  - injection H as -> H. f_equal. now apply IH.
Qed.

Lemma sessionRecent_inj (s1 s2 : string) :
  KEYS.sessionRecent s1 = KEYS.sessionRecent s2 -> s1 = s2.
Proof.
  unfold KEYS.sessionRecent. intros H.
  apply String.app_inj in H. now apply append_inj_r in H.
Qed.

Lemma merchantBeta_categoryBeta (m c : string) :
  KEYS.merchantBeta m ≠ KEYS.categoryBeta c.
Proof. unfold KEYS.merchantBeta, KEYS.categoryBeta. simpl. discriminate. Qed.

End KeyFacts.

(** ** The session trail *)

Section SessionTrail.

Import EventConsumer.
Implicit Types (w : World) (e : Event) (sid : string).
Local Open Scope nat_scope.

Lemma list_at_store_same key l r :
  Redis.list_at key (Redis.with_lists (Redis.store_list key l) r) = l.
Proof.
  unfold Redis.list_at, Redis.with_lists, Redis.store_list; simpl.
  destruct l; [rewrite lookup_delete_eq|rewrite lookup_insert_eq]; reflexivity.
Qed.

Lemma list_at_store_other key key' l r :
  key ≠ key' ->
  Redis.list_at key' (Redis.with_lists (Redis.store_list key l) r)
  = Redis.list_at key' r.
Proof.
  intros Hne. unfold Redis.list_at, Redis.with_lists, Redis.store_list; simpl.
  destruct l; [rewrite lookup_delete_ne|rewrite lookup_insert_ne]; done.
Qed.

Lemma list_at_pushTrail sid e r :
  Redis.list_at (KEYS.sessionRecent sid) (pushTrail e r)
  = if pushes_on sid e
    then take 50 (productId e :: Redis.list_at (KEYS.sessionRecent sid) r)
    else Redis.list_at (KEYS.sessionRecent sid) r.
Proof.
  unfold pushTrail, pushes_on.
  destruct (JS.truthy (sessionId e)); simpl; [|reflexivity].
  unfold Redis.expire, Redis.ltrim, Redis.lpush.
  destruct (String.eqb_spec (default EmptyString (sessionId e)) sid) as [->|Hne].
  - rewrite !list_at_store_same. reflexivity.
  - assert (KEYS.sessionRecent (default EmptyString (sessionId e))
            ≠ KEYS.sessionRecent sid)
      by (intros H; apply sessionRecent_inj in H; contradiction).
    rewrite !list_at_store_other by assumption. reflexivity.
Qed.

Lemma lists_updateBandit e db r :
  Redis.lists (updateBandit e db r) = Redis.lists r.
Proof.
  unfold updateBandit.
  destruct (Store.findUnique (productId e) db); [|reflexivity].
  destruct (type e); reflexivity.
Qed.

Lemma trail_handleEvent now sid e w :
  trail sid (handleEvent now e w)
  = if pushes_on sid e then take 50 (productId e :: trail sid w) else trail sid w.
Proof.
  unfold trail, handleEvent; cbn [redis].
  rewrite <- list_at_pushTrail.
  unfold Redis.list_at. now rewrite lists_updateBandit.
Qed.

Lemma pushed_snoc sid events te :
  pushed sid (events ++ [te])
  = pushed sid events ++ (if pushes_on sid (snd te) then [productId (snd te)] else []).
Proof.
  unfold pushed, pushes_on. rewrite omap_app. simpl.
  destruct (JS.truthy _ && _)%bool; reflexivity.
Qed.

Lemma handleAll_snoc events te w :
  handleAll (events ++ [te]) w = handleEvent (fst te) (snd te) (handleAll events w).
Proof. unfold handleAll. now rewrite fold_left_app. Qed.

(** The trail is the last 50 pushes, newest first, followed by what the
    trail held before, cut at 50 entries. *)
Lemma trail_handleAll sid events w :
  length (trail sid w) <= 50 ->
  trail sid (handleAll events w) = take 50 (rev (pushed sid events) ++ trail sid w).
Proof.
  intros Hlen. induction events as [|te events IH] using rev_ind.
  - simpl. now rewrite take_ge.
  - rewrite handleAll_snoc, trail_handleEvent, pushed_snoc, IH.
    destruct (pushes_on sid (snd te)).
    + rewrite rev_unit, <- app_comm_cons, !firstn_cons, take_take.
      reflexivity.
    + now rewrite app_nil_r.
Qed.

(** C3, as amended: from a store whose trails hold at most 50 entries,
    after any sequence of events every trail holds at most 50 entries; an
    event with a session id leaves its product id at the head of that
    session's trail; and 60 pushes into a fresh session leave exactly 50
    ids, the newest at the head.  A product id pushed twice in a row stays
    twice in the trail. *)
Theorem session_trail_invariant (events : list (Z * Event)) w :
  (forall sid, length (trail sid w) <= 50) ->
  (forall sid, length (trail sid (handleAll events w)) <= 50)
  /\ (forall now e sid,
        sessionId e = Some sid -> sid ≠ EmptyString ->
        head (trail sid (handleAll (events ++ [(now, e)]) w)) = Some (productId e))
  /\ (forall sid,
        trail sid w = [] -> length (pushed sid events) = 60 ->
        length (trail sid (handleAll events w)) = 50
        /\ head (trail sid (handleAll events w)) = last (pushed sid events))
  /\ (forall now e sid,
        sessionId e = Some sid -> sid ≠ EmptyString ->
        take 2 (trail sid (handleAll (events ++ [(now, e); (now, e)]) w))
        = [productId e; productId e]).
Proof.
  intros Hw.
  assert (Hon : forall e sid, sessionId e = Some sid -> sid ≠ EmptyString ->
                              pushes_on sid e = true).
  { intros e sid He Hne. unfold pushes_on, JS.truthy. rewrite He. simpl.
    rewrite String.eqb_refl.
    destruct (String.eqb_spec sid EmptyString); [contradiction|reflexivity]. }
  split; [|split; [|split]].
  - intros sid. rewrite trail_handleAll by apply Hw.
    rewrite length_take. lia.
  - intros now e sid He Hne.
    rewrite handleAll_snoc, trail_handleEvent. cbn [snd].
    now rewrite (Hon e sid He Hne).
  - intros sid Hfresh Hlen.
    rewrite trail_handleAll by apply Hw.
    rewrite Hfresh, app_nil_r. split.
    + rewrite length_take, length_rev, Hlen. reflexivity.
    + destruct (pushed sid events) as [|p l] using rev_ind; [discriminate|].
      rewrite rev_app_distr, last_snoc. reflexivity.
  - intros now e sid He Hne.
    change (events ++ [(now, e); (now, e)])
      with (events ++ [(now, e)] ++ [(now, e)]).
    rewrite app_assoc, !handleAll_snoc, !trail_handleEvent. cbn [snd].
    rewrite (Hon e sid He Hne). reflexivity.
Qed.

Lemma fresh_world_trails sid : length (trail sid fresh_world) <= 50.
Proof.
  unfold trail, fresh_world, Redis.list_at. simpl.
  rewrite lookup_empty. simpl. lia.
Qed.

Lemma session_trail_invariant_witness :
  length (trail "S" (handleAll [(0%Z, click "S" "P1")] fresh_world)) <= 50
  /\ head (trail "S" (handleAll ([(0%Z, click "S" "P1")] ++ [(1%Z, click "S" "P2")])
                        fresh_world)) = Some "P2"%string.
Proof.
  destruct (session_trail_invariant [(0%Z, click "S" "P1")] fresh_world
              fresh_world_trails) as (Hlen & Hhead & _).
  split; [apply Hlen|].
  apply (Hhead 1%Z (click "S" "P2") "S"%string); [reflexivity|discriminate].
Defined.

(** C3, counterexample: two events for the same product in one session
    leave that product twice in a row at the head of the trail. *)
Lemma session_trail_repeats :
  trail "S" (handleAll [(0%Z, click "S" "P1"); (1%Z, click "S" "P1")] fresh_world)
  = ["P1"; "P1"]%string
  /\ ~ no_adjacent_dup
       (trail "S" (handleAll [(0%Z, click "S" "P1"); (1%Z, click "S" "P1")] fresh_world)).
Proof.
  assert (E : trail "S" (handleAll [(0%Z, click "S" "P1"); (1%Z, click "S" "P1")] fresh_world)
              = ["P1"; "P1"]%string) by (vm_compute; reflexivity).
  split; [exact E|].
  rewrite E. intros H. now apply (H 0 "P1"%string "P1"%string).
Qed.

End SessionTrail.

(** ** Bandit updates of the event consumer *)

Section EventBandit.

Import EventConsumer.
Implicit Types (w : World) (e : Event).

Lemma hashes_pushTrail e r :
  Redis.hashes (pushTrail e r) = Redis.hashes r.
Proof. unfold pushTrail. destruct (JS.truthy (sessionId e)); reflexivity. Qed.

Lemma hfield_pushTrail key field e r :
  hfield key field (pushTrail e r) = hfield key field r.
Proof. unfold hfield. now rewrite hashes_pushTrail. Qed.

Lemma record_both (success : bool) mId cId r :
  let mKey := KEYS.merchantBeta mId in
  let cKey := KEYS.categoryBeta cId in
  both_recorded (if success then "a" else "b") (if success then "b" else "a")
    mKey cKey r
    (Bandit.recordBanditOutcome cKey success
       (Bandit.recordBanditOutcome mKey success r)).
Proof.
  intros mKey cKey.
  pose proof (merchantBeta_categoryBeta mId cId) as Hne.
  assert (Hne' : cKey ≠ mKey) by (intros H; now apply Hne).
  unfold both_recorded, Bandit.recordBanditOutcome.
  destruct success; repeat split; intros;
    repeat first
      [ rewrite hfield_hincrby_same
      | rewrite hfield_hincrby_other
          by (first [left; assumption | left; congruence | right; discriminate]) ];
    reflexivity.
Qed.

Lemma both_recorded_pushTrail hit other mKey cKey e r after :
  both_recorded hit other mKey cKey (pushTrail e r) after ->
  both_recorded hit other mKey cKey r after.
Proof.
  unfold both_recorded. rewrite !hfield_pushTrail.
  intros (H1 & H2 & H3 & H4 & H5). repeat split; try assumption.
  intros key field Hm Hc. rewrite H5 by assumption. apply hfield_pushTrail.
Qed.

(** C7: when the product of the event is found in the store, a CLICK or
    a PURCHASE records a success, and a VIEW a failure, on both the
    merchant key and the category key of the product, and on no other key;
    a CART leaves every posterior as it was. *)
Theorem handleEvent_bandit now e w p :
  Store.findUnique (productId e) (store w) = Some p ->
  let mKey := KEYS.merchantBeta (Store.p_merchantId p) in
  let cKey := KEYS.categoryBeta (Store.p_productCategoryId p) in
  let after := redis (handleEvent now e w) in
  match type e with
  | CLICK | PURCHASE => both_recorded "a" "b" mKey cKey (redis w) after
  | VIEW => both_recorded "b" "a" mKey cKey (redis w) after
  | CART => Redis.hashes after = Redis.hashes (redis w)
  end.
Proof.
  intros Hp mKey cKey after.
  subst after. unfold handleEvent; cbn [redis].
  unfold updateBandit. rewrite Hp. fold mKey cKey.
  pose proof (record_both true (Store.p_merchantId p) (Store.p_productCategoryId p)
                (pushTrail e (redis w))) as Hs.
  pose proof (record_both false (Store.p_merchantId p) (Store.p_productCategoryId p)
                (pushTrail e (redis w))) as Hf.
  cbv zeta in Hs, Hf. fold mKey cKey in Hs, Hf.
  apply both_recorded_pushTrail in Hs, Hf.
  destruct (type e); try assumption.
  apply hashes_pushTrail.
Qed.

Lemma handleEvent_bandit_witness :
  both_recorded "a" "b" "bandit:merchant:M" "bandit:category:C"
    (redis shoe_world) (redis (handleEvent 0 (click "S" "P1") shoe_world)).
Proof.
  apply (handleEvent_bandit 0 (click "S" "P1") shoe_world shoe).
  reflexivity.
Defined.

(** After the first click on a product of merchant M the posterior of M
    still reads (1, 1): the success is stored as a = 1, which is also what
    a missing field reads as. *)
Example click_posterior_reads_prior :
  Bandit.getAB (KEYS.merchantBeta "M") (redis shoe_world) = (1, 1)
  /\ Bandit.getAB (KEYS.merchantBeta "M")
       (redis (handleEvent 0 (click "S" "P1") shoe_world)) = (1, 1)
  /\ Bandit.getAB (KEYS.merchantBeta "M")
       (redis (handleAll [(0, click "S" "P1"); (1, click "S" "P1")] shoe_world)) = (2, 1).
Proof. repeat split; vm_compute; reflexivity. Qed.

End EventBandit.

(** ** Stable sorting and slicing *)

Section Sorting.

Context {A : Type} (ahead : A -> A -> bool).

Lemma insert_by_perm (x : A) (l : list A) :
  Permutation (JS.insert_by ahead x l) (x :: l).
Proof.
  induction l as [|y l IH]; simpl; [reflexivity|].
  destruct (ahead y x); [|reflexivity].
  rewrite IH. apply perm_swap.
Qed.

Lemma sort_by_perm (l : list A) : Permutation (JS.sort_by ahead l) l.
Proof.
  induction l as [|x l IH]; simpl; [reflexivity|].
  rewrite insert_by_perm. now constructor.
Qed.

End Sorting.

Section Taking.

Context {A : Type}.

Lemma In_take (n : nat) (x : A) (l : list A) : In x (take n l) -> In x l.
Proof.
  revert l; induction n as [|n IH]; intros [|y l]; simpl; try tauto.
  intros [->|H]; [now left|right; now apply IH].
Qed.

Lemma NoDup_take (n : nat) (l : list A) : NoDup l -> NoDup (take n l).
Proof. intros H. eapply sublist_NoDup; [exact H|apply sublist_take]. Qed.

Lemma In_drop (n : nat) (x : A) (l : list A) : In x (drop n l) -> In x l.
Proof.
  revert l; induction n as [|n IH]; intros [|y l]; simpl; try tauto.
  intros H. right. now apply IH.
Qed.

Lemma fold_left_invariant {B} (I : B -> Prop) (f : B -> A -> B) (l : list A) :
  (forall acc a, In a l -> I acc -> I (f acc a)) ->
  forall init, I init -> I (fold_left f l init).
Proof.
  induction l as [|a l IH]; intros Hf init Hinit; simpl; [exact Hinit|].
  apply IH.
  - intros acc a' Ha'. apply Hf. now right.
  - apply Hf; [now left|exact Hinit].
Qed.

End Taking.

(** ** The popularity aggregate *)

Section Popularity.

Import Store FeatureWorker.
Local Open Scope Q_scope.

Lemma sumQ_app (l1 l2 : list Q) : sumQ (l1 ++ l2) == sumQ l1 + sumQ l2.
Proof.
  induction l1 as [|x l1 IH]; simpl; [ring|]. rewrite IH. ring.
Qed.



Lemma assoc_add_same pid x rows :
  assoc pid (add_to_group pid x rows)
  = Some (match assoc pid rows with Some s => s + x | None => x end).
Proof.
  unfold assoc. induction rows as [|[p s] rows IH]; simpl.
  - now rewrite String.eqb_refl.
  - destruct (String.eqb p pid) eqn:E; simpl; rewrite E; [reflexivity|exact IH].
Qed.

Lemma assoc_add_other pid pid' x rows :
  pid ≠ pid' -> assoc pid' (add_to_group pid x rows) = assoc pid' rows.
Proof.
  intros Hne. unfold assoc. induction rows as [|[p s] rows IH]; simpl.
  - destruct (String.eqb_spec pid pid'); [contradiction|reflexivity].
  - destruct (String.eqb_spec p pid) as [->|Hp]; simpl.
    + destruct (String.eqb_spec pid pid'); [contradiction|reflexivity].
    + destruct (String.eqb p pid'); [reflexivity|exact IH].
Qed.

Lemma keys_add_to_group k pid x rows :
  In k (map fst (add_to_group pid x rows)) -> k = pid \/ In k (map fst rows).
Proof.
  induction rows as [|[p s] rows IH]; simpl.
  - intros [<-|[]]; now left.
  - destruct (String.eqb p pid); simpl; intros [<-|H]; auto.
    destruct (IH H); auto.
Qed.

Lemma NoDup_add_to_group pid x rows :
  NoDup (map fst rows) -> NoDup (map fst (add_to_group pid x rows)).
Proof.
  induction rows as [|[p s] rows IH]; simpl; intros Hnd.
  - repeat constructor. apply not_elem_of_nil.
  - apply NoDup_cons in Hnd as [Hp Hnd].
    destruct (String.eqb_spec p pid) as [->|Hne]; simpl.
    + apply NoDup_cons. now split.
    + apply NoDup_cons. split; [|now apply IH].
      rewrite list_elem_of_In. intros Hin.
      apply keys_add_to_group in Hin as [->|Hin]; [contradiction|].
      apply Hp. now rewrite list_elem_of_In.
Qed.

Lemma assoc_In pid s rows :
  NoDup (map fst rows) -> In (pid, s) rows -> assoc pid rows = Some s.
Proof.
  unfold assoc. induction rows as [|[p s'] rows IH]; simpl; [tauto|].
  intros Hnd Hin. apply NoDup_cons in Hnd as [Hp Hnd].
  destruct (String.eqb_spec p pid) as [->|Hne]; simpl.
  - destruct Hin as [[= ->]|Hin]; [reflexivity|].
    exfalso. apply Hp. rewrite list_elem_of_In.
    change pid with (fst (pid, s)). now apply in_map.
  - destruct Hin as [[= -> _]|Hin]; [contradiction|]. now apply IH.
Qed.

Lemma aggregate_snoc since log i :
  aggregate since (log ++ [i])
  = if in_window since i
    then add_to_group (i_productId i) (weighted i) (aggregate since log)
    else aggregate since log.
Proof. unfold aggregate. now rewrite fold_left_app. Qed.

Lemma hits_snoc since pid log i :
  hits since pid (log ++ [i])
  = hits since pid log
    ++ (if in_window since i && String.eqb (i_productId i) pid then [i] else []).
Proof. unfold hits. rewrite List.filter_app. simpl. now destruct (_ && _)%bool. Qed.

(** The grouped rows: one row per product with an interaction in the
    window, carrying the sum of its weighted interactions. *)
Lemma aggregate_spec since log :
  NoDup (map fst (aggregate since log))
  /\ forall pid,
      match assoc pid (aggregate since log) with
      | Some s => s == sumQ (map weighted (hits since pid log))
                  /\ hits since pid log ≠ []
      | None => hits since pid log = []
      end.
Proof.
  induction log as [|i log [IHnd IH]] using rev_ind.
  - split; [constructor|]. intros pid. reflexivity.
  - rewrite aggregate_snoc. split.
    + destruct (in_window since i); [now apply NoDup_add_to_group|assumption].
    + intros pid. rewrite hits_snoc. specialize (IH pid).
      destruct (in_window since i); simpl andb.
      * destruct (String.eqb_spec (i_productId i) pid) as [->|Hne].
        -- rewrite assoc_add_same.
           destruct (assoc pid (aggregate since log)) as [s|].
           ++ destruct IH as [IH _]. split.
              ** rewrite map_app, sumQ_app, IH. simpl. ring.
              ** intros H. now apply app_eq_nil in H as [_ H].
           ++ rewrite IH. split; [simpl; ring|discriminate].
        -- rewrite assoc_add_other by assumption.
           rewrite app_nil_r. exact IH.
      * rewrite app_nil_r. exact IH.
Qed.

Lemma assoc_Some_of_key (pid : string) (rows : list (string * Q)) :
  In pid (map fst rows) -> exists s, In (pid, s) rows.
Proof.
  intros Hin. apply in_map_iff in Hin as ([p s] & <- & Hin). now exists s.
Qed.

Lemma popularityRows_sound now db pid s :
  In (pid, s) (popularityRows now db) ->
  In (pid, s) (aggregate (now - window) (interactions db)).
Proof.
  unfold popularityRows. intros Hin. apply In_take in Hin.
  exact (Permutation_in _ (sort_by_perm _ _) Hin).
Qed.

Lemma popularityRows_NoDup now db : NoDup (map fst (popularityRows now db)).
Proof.
  unfold popularityRows. rewrite <- firstn_map. apply NoDup_take.
  apply (NoDup_Permutation_proper _ _ (Permutation_map fst (sort_by_perm _ _))).
  apply aggregate_spec.
Qed.

Lemma writeRow_effect pid s w p :
  products (store w) !! pid = Some p ->
  writeRow (pid, s) w
  = Some (mkWorld
            (Redis.hset_meta pid
               (mkMeta (p_title p) (p_merchantId p) (p_productCategoryId p) (Some s))
               (Redis.zadd KEYS.globalTop [(s, pid)] (redis w)))
            (Store.mk (<[pid := with_popularity s p]> (products (store w)))
                      (interactions (store w)))).
Proof.
  intros Hp. unfold writeRow, product_update, findUnique. rewrite Hp.
  cbn [products]. now rewrite lookup_insert_eq.
Qed.

Lemma writeRow_missing pid s w :
  products (store w) !! pid = None -> writeRow (pid, s) w = None.
Proof. intros Hp. unfold writeRow, product_update. now rewrite Hp. Qed.

Lemma zscore_zadd_same key member s r :
  zscore key member (Redis.zadd key [(s, member)] r) = Some s.
Proof.
  unfold zscore, Redis.zadd. cbn. rewrite lookup_insert_eq. cbn.
  apply lookup_insert_eq.
Qed.

Lemma zscore_zadd_other key member key' member' s r :
  key ≠ key' \/ member ≠ member' ->
  zscore key' member' (Redis.zadd key [(s, member)] r) = zscore key' member' r.
Proof.
  intros Hne. unfold zscore, Redis.zadd. cbn.
  destruct (decide (key = key')) as [<-|Hk].
  - rewrite lookup_insert_eq. cbn.
    destruct Hne as [Hne|Hne]; [congruence|].
    rewrite lookup_insert_ne by assumption.
    destruct (Redis.zsets r !! key); cbn; [reflexivity|apply lookup_empty].
  - now rewrite lookup_insert_ne.
Qed.

Lemma reached_same_keys (m1 m2 : gmap string Product) rows :
  (forall k, is_Some (m1 !! k) <-> is_Some (m2 !! k)) ->
  reached m1 rows = reached m2 rows.
Proof.
  intros H. induction rows as [|row rows IH]; [reflexivity|]. cbn [reached].
  destruct (m1 !! fst row) as [p1|] eqn:E1, (m2 !! fst row) as [p2|] eqn:E2.
  - now rewrite IH.
  - assert (Hs : is_Some (m2 !! fst row)) by (apply H; rewrite E1; eauto).
    rewrite E2 in Hs. now apply is_Some_None in Hs.
  - assert (Hs : is_Some (m1 !! fst row)) by (apply H; rewrite E2; eauto).
    rewrite E1 in Hs. now apply is_Some_None in Hs.
  - reflexivity.
Qed.

Lemma reached_In (m : gmap string Product) rows row :
  In row (reached m rows) -> In row rows.
Proof.
  induction rows as [|row' rows IH]; cbn [reached]; [tauto|].
  destruct (m !! fst row'); [|intros []].
  intros [->|H]; [now left|right; now apply IH].
Qed.

Lemma reached_exist (m : gmap string Product) rows row :
  In row (reached m rows) -> is_Some (m !! fst row).
Proof.
  induction rows as [|row' rows IH]; cbn [reached]; [intros []|].
  destruct (m !! fst row') as [p|] eqn:E; [|intros []].
  intros [<-|H]; [rewrite E; eauto|now apply IH].
Qed.


(** The rows split at the first row without product. *)
Lemma reached_split (m : gmap string Product) rows pid s :
  In (pid, s) rows -> m !! pid = None ->
  exists k sk after,
    rows = reached m rows ++ (k, sk) :: after /\ m !! k = None.
Proof.
  induction rows as [|[k sk] rows IH]; intros Hin Hnone; [destruct Hin|].
  cbn [reached fst]. destruct (m !! k) as [p|] eqn:E.
  - destruct Hin as [[= -> ->]|Hin]; [congruence|].
    destruct (IH Hin Hnone) as (k' & sk' & after & Hrows & Hk').
    exists k', sk', after. split; [|exact Hk'].
    cbn [app]. now rewrite <- Hrows.
  - exists k, sk, rows. now split.
Qed.

(** The loop over rows with distinct products: every row reached leaves
    its score on the product, in the global sorted set and in the cached
    meta; nothing else is touched; and the loop returns when it has
    reached every row and throws otherwise. *)
Lemma writeRows_reached rows : forall w,
  NoDup (map fst rows) ->
  exists w',
    (reached (products (store w)) rows = rows /\ writeRows rows w = Returned w'
     \/ reached (products (store w)) rows <> rows /\ writeRows rows w = Threw w')
    /\ (forall pid s, In (pid, s) (reached (products (store w)) rows) ->
          exists p, products (store w) !! pid = Some p
            /\ products (store w') !! pid = Some (with_popularity s p)
            /\ zscore KEYS.globalTop pid (redis w') = Some s
            /\ Redis.metaHash (redis w') !! pid
               = Some (mkMeta (p_title p) (p_merchantId p) (p_productCategoryId p) (Some s)))
    /\ (forall pid, ~ In pid (map fst (reached (products (store w)) rows)) ->
          products (store w') !! pid = products (store w) !! pid
          /\ zscore KEYS.globalTop pid (redis w') = zscore KEYS.globalTop pid (redis w)
          /\ Redis.metaHash (redis w') !! pid = Redis.metaHash (redis w) !! pid).
Proof.
  induction rows as [|[pid s] rows IH]; intros w Hnd.
  - exists w. cbn. split; [left; now split|]. split; [intros ? ? []|now intros].
  - cbn [map fst] in Hnd. apply NoDup_cons in Hnd as [Hpid Hnd].
    cbn [reached writeRows fst].
    destruct (products (store w) !! pid) as [p|] eqn:Hp.
    + rewrite (writeRow_effect pid s w p Hp). set (w1 := mkWorld _ _).
      destruct (IH w1 Hnd) as (w' & Hrun & Hin & Hout).
      assert (Hsame : reached (products (store w1)) rows
                      = reached (products (store w)) rows).
      { apply reached_same_keys. intros k. subst w1. cbn [store products].
        destruct (decide (pid = k)) as [<-|Hne].
        - rewrite lookup_insert_eq, Hp. split; eauto.
        - now rewrite lookup_insert_ne. }
      rewrite Hsame in Hrun, Hin, Hout.
      assert (Hfresh : ~ In pid (map fst (reached (products (store w)) rows))).
      { intros H. apply Hpid. apply list_elem_of_In.
        apply in_map_iff in H as (row & <- & Hrow).
        apply in_map. now apply reached_In in Hrow. }
      exists w'. split; [|split].
      * destruct Hrun as [[E R]|[E R]]; [left|right]; (split; [congruence|exact R]).
      * intros k s' [[= -> ->]|Hk].
        -- destruct (Hout k Hfresh) as (H1 & H2 & H3).
           exists p. rewrite H1, H2, H3. subst w1. cbn [store redis products].
           split; [exact Hp|]. split; [apply lookup_insert_eq|]. split.
           ++ unfold zscore, Redis.hset_meta. cbn [Redis.zsets].
              apply zscore_zadd_same.
           ++ unfold Redis.hset_meta. cbn [Redis.metaHash]. apply lookup_insert_eq.
        -- destruct (Hin k s' Hk) as (p' & Hp' & H1 & H2 & H3).
           assert (Hne : pid ≠ k).
           { intros ->. apply Hfresh. change k with (fst (k, s')). now apply in_map. }
           subst w1. cbn [store products] in Hp'.
           rewrite lookup_insert_ne in Hp' by assumption.
           exists p'. repeat split; assumption.
      * intros k Hk.
        assert (Hne : pid ≠ k) by (intros ->; apply Hk; now left).
        destruct (Hout k) as (H1 & H2 & H3); [intros H; apply Hk; now right|].
        rewrite H1, H2, H3. subst w1. cbn [store redis products].
        split; [now apply lookup_insert_ne|]. split.
        -- unfold zscore, Redis.hset_meta. cbn [Redis.zsets].
           apply zscore_zadd_other. now right.
        -- unfold Redis.hset_meta. cbn [Redis.metaHash]. now apply lookup_insert_ne.
    + rewrite (writeRow_missing pid s w Hp). exists w.
      split; [right; split; [discriminate|reflexivity]|].
      split; [intros ? ? []|now intros].
Qed.

Lemma hits_In since pid log i : In i (hits since pid log) -> In i log /\ i_productId i = pid.
Proof.
  unfold hits. rewrite filter_In. intros [Hin Hb].
  apply andb_prop in Hb as [_ Hb]. split; [exact Hin|].
  now apply String.eqb_eq.
Qed.

Lemma row_has_hit now db pid :
  In pid (map fst (popularityRows now db)) ->
  exists i, In i (interactions db) /\ i_productId i = pid.
Proof.
  intros Hin. apply assoc_Some_of_key in Hin as [s Hin].
  apply popularityRows_sound in Hin.
  destruct (aggregate_spec (now - window) (interactions db)) as [Hnd Hspec].
  specialize (Hspec pid). rewrite (assoc_In _ _ _ Hnd Hin) in Hspec.
  destruct Hspec as [_ Hne].
  destruct (hits (now - window) pid (interactions db)) as [|i l] eqn:E; [congruence|].
  exists i. apply (hits_In (now - window)). rewrite E. now left.
Qed.

(** A product with an interaction in the window has a row, unless the
    LIMIT cuts the rows. *)
Lemma popularityRows_complete now db pid :
  (length (aggregate (now - window) (interactions db)) <= LIMIT)%nat ->
  hits (now - window) pid (interactions db) ≠ [] ->
  In pid (map fst (popularityRows now db)).
Proof.
  intros Hlen Hhit.
  destruct (aggregate_spec (now - window) (interactions db)) as [_ Hspec].
  specialize (Hspec pid). unfold assoc in Hspec.
  destruct (List.find _ _) as [[p s]|] eqn:E; simpl in Hspec; [|contradiction].
  apply find_some in E as [Hin Hp]. apply String.eqb_eq in Hp. simpl in Hp. subst p.
  unfold popularityRows. rewrite take_ge.
  - apply in_map_iff. exists (pid, s). split; [reflexivity|].
    eapply Permutation_in; [apply Permutation_sym, sort_by_perm|exact Hin].
  - now rewrite (Permutation_length (sort_by_perm _ _)).
Qed.





End Popularity.

(** ** Replacing a user's top-K *)

Section TopKReplacement.

Import CFWorker Recommender.

Lemma reads_zset uid r1 r2 :
  Redis.zsets r1 !! KEYS.userTopK uid = Redis.zsets r2 !! KEYS.userTopK uid ->
  reads uid r1 = reads uid r2.
Proof.
  intros H. unfold reads, getPrecomputedUserTop, Redis.zrevrange.
  simpl default. now rewrite H.
Qed.

Lemma reads_del uid r : reads uid (Redis.del (KEYS.userTopK uid) r) = [].
Proof.
  unfold reads, getPrecomputedUserTop, Redis.zrevrange, Redis.del.
  destruct (JS.truthy (Some uid)); [|reflexivity].
  simpl. rewrite lookup_delete_eq. simpl. rewrite map_to_list_empty. reflexivity.
Qed.

Lemma writeTop_cons uid ps top :
  writeTop uid (ps :: top)
  = [ Redis.del (KEYS.userTopK uid);
      Redis.zadd (KEYS.userTopK uid) (zargs (ps :: top));
      Redis.expire (KEYS.userTopK uid) (24 * 3600) ].
Proof. reflexivity. Qed.

Lemma writeTop_nil uid :
  writeTop uid [] = [ Redis.expire (KEYS.userTopK uid) (24 * 3600) ].
Proof. reflexivity. Qed.

(** C9, as amended: the replacement is DEL followed by ZADD, two commands
    with a store in between that readers can see.  A reader gets the old
    set, the empty set or the new set, and never a part of the new set:
    with a non-empty top-K the store after DEL, where the set is empty, is
    observable, and the store after ZADD holds exactly the new pairs. *)
Theorem writeTop_observations (uid : string) (top : list (string * Q)) (r : Redis.t) :
  let key := KEYS.userTopK uid in
  let final := run_cmds (writeTop uid top) r in
  Forall (fun r' => reads uid r' = reads uid r
                    \/ reads uid r' = []
                    \/ reads uid r' = reads uid final)
         (observable (writeTop uid top) r)
  /\ (top ≠ [] ->
      In (Redis.del key r) (observable (writeTop uid top) r)
      /\ reads uid (Redis.del key r) = []
      /\ Redis.zsets final !! key
         = Some (fold_left (fun z a => <[snd a := fst a]> z) (zargs top) ∅)).
Proof.
  intros key final. subst final. destruct top as [|ps top].
  - split; [|congruence].
    rewrite writeTop_nil. simpl. repeat constructor.
  - rewrite writeTop_cons. cbn [observable run_cmds fold_left]. fold key.
    unfold Redis.expire. split.
    + constructor; [now left|].
      constructor; [right; left; apply reads_del|].
      constructor; [right; now right|].
      constructor; [right; now right|constructor].
    + intros _. split; [right; now left|]. split; [apply reads_del|].
      unfold Redis.zadd. cbn [zargs List.map].
      cbn [Redis.with_zsets Redis.zsets Redis.del].
      rewrite lookup_insert_eq, lookup_delete_eq. reflexivity.
Qed.

(** C9, counterexample: while { P1 : 1 } is replaced by { P2 : 2 } the
    store after the first command is observable, and a reader gets from it
    the empty list, neither the old nor the new set. *)
Lemma writeTop_shows_empty :
  let cmds := writeTop "U" [("P2"%string, 2%Q)] in
  reads "U" old_top_store = [("P1"%string, 1%Q)]
  /\ reads "U" (run_cmds cmds old_top_store) = [("P2"%string, 2%Q)]
  /\ exists r', observable cmds old_top_store !! 1%nat = Some r'
                /\ reads "U" r' = []
                /\ reads "U" r' ≠ reads "U" old_top_store
                /\ reads "U" r' ≠ reads "U" (run_cmds cmds old_top_store).
Proof.
  intros cmds.
  assert (Eold : reads "U" old_top_store = [("P1"%string, 1%Q)])
    by (vm_compute; reflexivity).
  assert (Enew : reads "U" (run_cmds cmds old_top_store) = [("P2"%string, 2%Q)])
    by (vm_compute; reflexivity).
  split; [exact Eold|]. split; [exact Enew|].
  eexists. split; [reflexivity|].
  assert (Emid : reads "U" (Redis.del (KEYS.userTopK "U") old_top_store) = [])
    by apply reads_del.
  split; [exact Emid|].
  rewrite Emid, Eold, Enew. split; discriminate.
Qed.

End TopKReplacement.

(** ** The diversity re-ranker *)

Section DiversityPermutation.

Import Diversity.
Local Open Scope nat_scope.

Lemma pickFrom_range ok (pool : list Item) : forall i j,
  pickFrom ok i pool = Some j -> i <= j < i + length pool.
Proof.
  induction pool as [|cand pool IH]; intros i j; simpl; [discriminate|].
  destruct (ok cand).
  - intros [= <-]. lia.
  - intros H. apply IH in H. lia.
Qed.

(** An iteration on a non-empty pool does not throw: it moves exactly one
    item from the pool to the end of the output. *)
Lemma step_moves_one opts mMax cMax st :
  pool st ≠ [] ->
  exists st',
    step opts mMax cMax st = Some st'
    /\ Permutation (out st' ++ pool st') (out st ++ pool st)
    /\ S (length (pool st')) = length (pool st)
    /\ length (out st') = S (length (out st)).
Proof.
  intros Hne. unfold step.
  destruct (pickFrom _ 0 (pool st)) as [j|] eqn:Hpick.
  - apply pickFrom_range in Hpick.
    destruct (lookup_lt_is_Some_2 (pool st) j) as [picked Hj]; [lia|].
    rewrite Hj. eexists. split; [reflexivity|]. cbn [out pool].
    split; [|split].
    + rewrite <- app_assoc. apply Permutation_app_head. simpl.
      symmetry. now apply delete_Permutation.
    + rewrite length_delete by eauto. lia.
    + rewrite length_app. simpl. lia.
  - destruct (pool st) as [|top rest]; [contradiction|].
    eexists. split; [reflexivity|]. cbn [out pool].
    split; [|split].
    + now rewrite <- app_assoc.
    + reflexivity.
    + rewrite length_app. simpl. lia.
Qed.

(** The while loop returns within as many iterations as the pool has
    items, with the output extended by a rearrangement of the pool. *)
Lemma loop_returns opts N mMax cMax : forall fuel st,
  length (pool st) <= fuel ->
  length (out st) + length (pool st) = N ->
  exists res,
    loop fuel opts N mMax cMax st = Some res
    /\ Permutation res (out st ++ pool st).
Proof.
  induction fuel as [|fuel IH]; intros st Hfuel HN.
  - destruct (pool st) as [|x l] eqn:Hpool; [|simpl in Hfuel; lia].
    exists (out st). simpl. rewrite Hpool. simpl.
    split; [reflexivity|now rewrite app_nil_r].
  - cbn [loop].
    destruct (pool st) as [|x l] eqn:Hpool.
    + exists (out st). simpl. split; [reflexivity|now rewrite app_nil_r].
    + assert (Hlt : Nat.ltb (length (out st)) N = true)
        by (apply Nat.ltb_lt; simpl in HN; lia).
      rewrite Hlt. cbn [length Nat.eqb negb andb].
      destruct (step_moves_one opts mMax cMax st) as (st' & Hstep & Hperm & Hpl & Hol).
      { rewrite Hpool. discriminate. }
      rewrite Hstep.
      destruct (IH st') as (res & Hres & Hp).
      { rewrite Hpool in Hpl. simpl in *. lia. }
      { rewrite Hpool in Hpl. simpl in *. lia. }
      exists res. split; [exact Hres|].
      rewrite Hp, Hperm, Hpool. reflexivity.
Qed.

(** More fuel does not change the list returned. *)
Lemma loop_more_fuel opts N mMax cMax res : forall fuel fuel' st,
  fuel <= fuel' ->
  loop fuel opts N mMax cMax st = Some res ->
  loop fuel' opts N mMax cMax st = Some res.
Proof.
  induction fuel as [|fuel IH]; intros fuel' st Hle; cbn [loop].
  - destruct (negb _ && _)%bool eqn:Hcond; [discriminate|].
    intros H. destruct fuel'; cbn [loop]; rewrite Hcond; exact H.
  - destruct fuel' as [|fuel']; [lia|]. cbn [loop].
    destruct (negb _ && _)%bool; [|tauto].
    destruct (step opts mMax cMax st); [|discriminate].
    apply IH. lia.
Qed.

Lemma ensureDiversity_fuel_returns items opts fuel :
  length items <= fuel ->
  exists res, ensureDiversity_fuel fuel items opts = Some res
              /\ Permutation res items.
Proof.
  intros Hfuel. unfold ensureDiversity_fuel.
  destruct items as [|x items]; [now exists []|].
  apply (loop_returns _ _ _ _ fuel (mkState ∅ ∅ [] (x :: items))).
  - exact Hfuel.
  - reflexivity.
Qed.

(** C10: for every list of items and every setting of the options the
    re-ranker returns, and what it returns is a rearrangement of its
    input: same length, same items with the same multiplicities.  Any
    number of iterations not below the length of the input is enough and
    gives the same list. *)
Theorem ensureDiversity_permutation (items : list Item) (opts : Opts) :
  exists res,
    ensureDiversity items opts = Some res
    /\ Permutation res items
    /\ length res = length items
    /\ forall extra, ensureDiversity_fuel (length items + extra) items opts = Some res.
Proof.
  destruct (ensureDiversity_fuel_returns items opts (length items)) as (res & Hres & Hperm);
    [lia|].
  exists res. split; [exact Hres|]. split; [exact Hperm|].
  split; [now apply Permutation_length|].
  intros extra. unfold ensureDiversity, ensureDiversity_fuel in *.
  destruct items as [|x items]; [exact Hres|].
  eapply loop_more_fuel; [|exact Hres]. lia.
Qed.

(** Ten items of one merchant: after the first pick every candidate extends
    the run of that merchant, and the pool is emptied from its head, in the
    original order. *)
Example ensureDiversity_one_merchant :
  List.map id
    (default []
       (ensureDiversity
          (List.map (fun i => item_of i "M" "C" 1)
             ["P0"; "P1"; "P2"; "P3"; "P4"; "P5"; "P6"; "P7"; "P8"; "P9"]%string)
          (mkOpts 1 0.25 0.4)))
  = ["P0"; "P1"; "P2"; "P3"; "P4"; "P5"; "P6"; "P7"; "P8"; "P9"]%string.
Proof. vm_compute. reflexivity. Qed.

(** Two items of one merchant followed by one of another: the second
    merchant is moved between them. *)
Example ensureDiversity_interleaves :
  List.map id
    (default []
       (ensureDiversity
          [item_of "A" "M1" "C1" 3; item_of "B" "M1" "C2" 2; item_of "C" "M2" "C3" 1]
          (mkOpts 1 1 1)))
  = ["A"; "C"; "B"]%string.
Proof. vm_compute. reflexivity. Qed.

End DiversityPermutation.

(** ** The candidate map *)

Section CandidateMap.

Import Recommender.
Local Open Scope Q_scope.
Implicit Types (cm : Candidates) (id : string).

Lemma cm_set_keys_in id v cm k :
  In k (List.map fst (cm_set id v cm)) -> k = id \/ In k (List.map fst cm).
Proof.
  induction cm as [|[k' v'] cm IH]; simpl.
  - intros [<-|[]]; now left.
  - destruct (String.eqb k' id); simpl; intros [<-|H]; auto.
    destruct (IH H); auto.
Qed.

Lemma cm_set_NoDup id v cm :
  NoDup (List.map fst cm) -> NoDup (List.map fst (cm_set id v cm)).
Proof.
  induction cm as [|[k' v'] cm IH]; simpl; intros Hnd.
  - repeat constructor. apply not_elem_of_nil.
  - apply NoDup_cons in Hnd as [Hk Hnd].
    destruct (String.eqb_spec k' id) as [->|Hne]; simpl.
    + apply NoDup_cons. now split.
    + apply NoDup_cons. split; [|now apply IH].
      rewrite list_elem_of_In. intros Hin.
      apply cm_set_keys_in in Hin as [->|Hin]; [contradiction|].
      apply Hk. now rewrite list_elem_of_In.
Qed.

Lemma cm_set_values (P : Q -> Prop) id v cm :
  P v -> Forall (fun c => P (snd c)) cm -> Forall (fun c => P (snd c)) (cm_set id v cm).
Proof.
  intros Hv. induction cm as [|[k' v'] cm IH]; simpl; intros Hall.
  - repeat constructor. exact Hv.
  - apply Forall_cons in Hall as [Hc Hall].
    destruct (String.eqb k' id); constructor; auto.
Qed.

Lemma cm_get_In id v cm : cm_get id cm = Some v -> In (id, v) cm.
Proof.
  unfold cm_get. destruct (List.find _ cm) as [[k v']|] eqn:E; [|discriminate].
  intros [= <-]. apply find_some in E as [Hin Hk].
  apply String.eqb_eq in Hk. simpl in Hk. now subst k.
Qed.

Lemma cm_get_of_key id cm :
  In id (List.map fst cm) -> exists v, cm_get id cm = Some v.
Proof.
  unfold cm_get. induction cm as [|[k v] cm IH]; simpl; [tauto|].
  intros [->|Hin].
  - rewrite String.eqb_refl. now exists v.
  - destruct (String.eqb k id); [now exists v|now apply IH].
Qed.

Lemma cm_ok_set P id v cm : P v -> cm_ok P cm -> cm_ok P (cm_set id v cm).
Proof.
  intros Hv [Hnd Hall]. split; [now apply cm_set_NoDup|now apply cm_set_values].
Qed.

Lemma cm_ok_add_if_absent P id v cm :
  P v -> cm_ok P cm -> cm_ok P (cm_add_if_absent id v cm).
Proof.
  intros Hv Hok. unfold cm_add_if_absent.
  destruct (cm_has id cm); [exact Hok|now apply cm_ok_set].
Qed.

Lemma cm_ok_get P id v cm : cm_ok P cm -> cm_get id cm = Some v -> P v.
Proof.
  intros [_ Hall] Hget. apply cm_get_In in Hget.
  rewrite Forall_forall in Hall. apply list_elem_of_In in Hget.
  exact (Hall _ Hget).
Qed.

End CandidateMap.

(** ** Candidate generation *)

Section CandidateGeneration.

Import Recommender.
Local Open Scope Q_scope.

Lemma zrevrange_In key start stop r m s :
  In (m, s) (Redis.zrevrange key start stop r) ->
  exists z, Redis.zsets r !! key = Some z /\ z !! m = Some s.
Proof.
  unfold Redis.zrevrange. intros Hin.
  apply In_take, In_drop in Hin.
  apply (Permutation_in _ (sort_by_perm _ _)) in Hin.
  apply list_elem_of_In, elem_of_map_to_list in Hin.
  destruct (Redis.zsets r !! key) as [z|]; simpl in Hin.
  - now exists z.
  - rewrite lookup_empty in Hin. discriminate.
Qed.

Lemma findByCategory_In cat db id row :
  In (id, row) (findByCategory cat db) -> Store.products db !! id = Some row.
Proof.
  unfold findByCategory. intros Hin.
  apply In_take in Hin.
  apply (Permutation_in _ (sort_by_perm _ _)) in Hin.
  apply filter_In in Hin as [Hin _].
  now apply list_elem_of_In, elem_of_map_to_list in Hin.
Qed.

Lemma findManyIn_In ids db id row :
  In (id, row) (findManyIn ids db) ->
  Store.products db !! id = Some row /\ In id ids.
Proof.
  unfold findManyIn. intros Hin.
  apply filter_In in Hin as [Hin Hids]. split.
  - now apply list_elem_of_In, elem_of_map_to_list in Hin.
  - apply existsb_exists in Hids as (k & Hk & E).
    apply String.eqb_eq in E. simpl in E. now subst k.
Qed.

(** Every step of the candidate generation keeps the candidates distinct
    and keeps a property [P] of the base scores that holds of the scores
    read and is closed under the maximum. *)
Lemma candidates_ok (P : Q -> Prop) env p w :
  (forall a b, P b -> P (Qmax a b)) ->
  (forall key z m s,
      Redis.zsets (redis w) !! key = Some z -> z !! m = Some s ->
      P s /\ P (s * 0.6)) ->
  (forall id ts, In (id, ts) (textMatchesOf env p) -> P (0.05 + ts * 0.8)) ->
  (forall id row, Store.products (store w) !! id = Some row ->
                  P (Store.p_popularity row * 0.5)) ->
  cm_ok P (candidates env p w).
Proof.
  intros Hmax Hz Htext Hpop. unfold candidates.
  assert (H1 : cm_ok P (addUserTop
                 (getPrecomputedUserTop (fp_userId p) CANDIDATE_K (redis w)) [])).
  { unfold addUserTop. apply fold_left_invariant.
    - intros cm [m s] Hin Hok. apply cm_ok_set; [|exact Hok].
      unfold getPrecomputedUserTop in Hin.
      destruct (JS.truthy (fp_userId p)); [|destruct Hin].
      apply zrevrange_In in Hin as (z & Hkey & Hm).
      now apply (Hz _ _ _ _ Hkey Hm).
    - split; constructor. }
  assert (H2 : cm_ok P (addTextMatches (textMatchesOf env p)
                 (addUserTop (getPrecomputedUserTop (fp_userId p) CANDIDATE_K (redis w)) []))).
  { unfold addTextMatches. apply fold_left_invariant; [|exact H1].
    intros cm [m ts] Hin Hok. cbn [fst snd].
    destruct (cm_get m cm); apply cm_ok_set; try exact Hok.
    - apply Hmax. now apply (Htext m).
    - now apply (Htext m). }
  set (cm2 := addTextMatches _ _) in *.
  assert (H3 : cm_ok P (addGlobal (limitOf p) (redis w) cm2)).
  { unfold addGlobal. destruct (JS.Qltb _ _); [|exact H2].
    apply fold_left_invariant; [|exact H2].
    intros cm [m s] Hin Hok. apply cm_ok_add_if_absent; [|exact Hok].
    apply zrevrange_In in Hin as (z & Hkey & Hm).
    now apply (Hz _ _ _ _ Hkey Hm). }
  set (cm3 := addGlobal _ _ _) in *.
  unfold addCategory.
  destruct (JS.truthy (fp_productCategoryId p)); [|exact H3].
  destruct (JS.Qltb _ _); [|exact H3].
  apply fold_left_invariant; [|exact H3].
  intros cm [id row] Hin Hok. apply cm_ok_add_if_absent; [|exact Hok].
  apply findByCategory_In in Hin. now apply (Hpop id).
Qed.

Lemma candidates_NoDup env p w : NoDup (List.map fst (candidates env p w)).
Proof.
  apply (candidates_ok (fun _ => True)); auto.
Qed.

Lemma candidateIds_NoDup env p w : NoDup (candidateIds (candidates env p w)).
Proof. unfold candidateIds. apply NoDup_take, candidates_NoDup. Qed.

Lemma candidateIds_get env p w id :
  In id (candidateIds (candidates env p w)) ->
  exists base, cm_get id (candidates env p w) = Some base.
Proof.
  unfold candidateIds. intros Hin. apply In_take in Hin.
  now apply cm_get_of_key.
Qed.

End CandidateGeneration.

(** ** Meta hydration and scoring *)

Section Scoring.

Import Diversity Recommender.
Local Open Scope Q_scope.

Lemma obj_set_own k m o :
  String.eqb k "__proto__" = false ->
  obj_set k m o = mkObj (<[k := m]> (own o)) (proto o).
Proof. intros H. unfold obj_set. now rewrite H. Qed.

Lemma obj_get_own k o :
  String.eqb k "__proto__" = false ->
  obj_get k o
  = match own o !! k with
    | Some m => Some (MetaObj m)
    | None =>
        if match proto o with
           | Some m => field_truthy k m
           | None => false
           end
        then Some NotMeta
        else if builtin k then Some NotMeta
        else None
    end.
Proof. intros H. unfold obj_get. now rewrite H. Qed.

Lemma bool_decide_cons_ne (id k : string) (ids : list string) :
  id ≠ k -> bool_decide (id ∈ k :: ids) = bool_decide (id ∈ ids).
Proof. intros Hne. apply bool_decide_ext. rewrite elem_of_cons. tauto. Qed.

Lemma bool_decide_cons_eq (k : string) (ids : list string) :
  bool_decide (k ∈ k :: ids) = true.
Proof. apply bool_decide_eq_true_2. left. Qed.

(** The first loop of [loadProductMeta]: the metas that are cached under
    the ids become own properties, the one cached under [__proto__]
    becomes the prototype. *)
Lemma cached_fold (f : string -> option Meta) (ids : list string) : forall acc,
  let o :=
    fold_left (fun out im => match snd im with
                             | Some m => obj_set (fst im) m out
                             | None => out
                             end)
              (zip ids (f <$> ids)) acc in
  proto o
  = match (if bool_decide ("__proto__"%string ∈ ids) then f "__proto__"%string else None) with
    | Some m => Some m
    | None => proto acc
    end
  /\ forall id,
       own o !! id
       = match (if bool_decide (id ∈ ids) && negb (String.eqb id "__proto__")
                then f id else None) with
         | Some m => Some m
         | None => own acc !! id
         end.
Proof.
  induction ids as [|k ids IH]; intros acc; cbv zeta.
  - split; [reflexivity|]. intros id.
    now rewrite (bool_decide_eq_false_2 (id ∈ [])) by apply not_elem_of_nil.
  - cbn [fmap list_fmap zip_with fold_left fst snd].
    destruct (IH (match f k with Some m => obj_set k m acc | None => acc end))
      as [Hp Ho]. cbv zeta in Hp, Ho. split.
    + rewrite Hp. destruct (String.eqb_spec k "__proto__") as [->|Hk].
      * rewrite bool_decide_cons_eq.
        destruct (bool_decide ("__proto__"%string ∈ ids)),
                 (f "__proto__"%string) as [m|]; reflexivity.
      * rewrite (bool_decide_cons_ne "__proto__" k ids) by congruence.
        destruct (if bool_decide ("__proto__"%string ∈ ids) then f "__proto__"%string else None);
          [reflexivity|].
        destruct (f k); [|reflexivity].
        rewrite obj_set_own by (now apply String.eqb_neq). reflexivity.
    + intros id. rewrite Ho. destruct (decide (id = k)) as [->|Hne].
      * rewrite bool_decide_cons_eq. cbn [andb].
        destruct (String.eqb_spec k "__proto__") as [->|Hk]; cbn [negb].
        -- rewrite andb_false_r.
           destruct (f "__proto__"%string); reflexivity.
        -- rewrite andb_true_r.
           destruct (bool_decide (k ∈ ids)), (f k) as [m|]; try reflexivity.
           rewrite obj_set_own by (now apply String.eqb_neq). cbn [own].
           apply lookup_insert_eq.
      * rewrite (bool_decide_cons_ne id k ids Hne).
        destruct (if bool_decide (id ∈ ids) && negb (String.eqb id "__proto__")
                  then f id else None); [reflexivity|].
        destruct (f k) as [m|]; [|reflexivity].
        unfold obj_set. destruct (String.eqb k "__proto__"); cbn [own]; [reflexivity|].
        now apply lookup_insert_ne.
Qed.

(** The second loop, over rows of the store whose ids are not
    [__proto__]: every row becomes an own property and a cache entry. *)
Lemma backfill_fold db (rows : list (string * Store.Product)) :
  (forall k row, In (k, row) rows ->
     Store.products db !! k = Some row /\ String.eqb k "__proto__" = false) ->
  forall (acc : Obj * Redis.t) id,
    let res :=
      fold_left
        (fun acc row =>
           let out := obj_set (fst row) (metaOfRow (snd row)) (fst acc) in
           (out,
            match obj_get (fst row) out with
            | Some (MetaObj m) => Redis.hset_meta (fst row) m (snd acc)
            | _ => snd acc
            end))
        rows acc in
    proto (fst res) = proto (fst acc)
    /\ own (fst res) !! id
       = (if bool_decide (id ∈ List.map fst rows)
          then metaOfRow <$> Store.products db !! id else own (fst acc) !! id)
    /\ Redis.metaHash (snd res) !! id
       = (if bool_decide (id ∈ List.map fst rows)
          then metaOfRow <$> Store.products db !! id
          else Redis.metaHash (snd acc) !! id)
    /\ Redis.lists (snd res) = Redis.lists (snd acc)
    /\ Redis.hashes (snd res) = Redis.hashes (snd acc)
    /\ Redis.zsets (snd res) = Redis.zsets (snd acc).
Proof.
  induction rows as [|[k row] rows IH]; intros Hrows acc id; cbv zeta.
  - cbn [fold_left List.map].
    rewrite (bool_decide_eq_false_2 (id ∈ [])) by apply not_elem_of_nil.
    repeat split; reflexivity.
  - cbn [fold_left fst snd List.map].
    destruct (Hrows k row) as [Hrow Hk]; [now left|].
    rewrite (obj_set_own k _ _ Hk), (obj_get_own k _ Hk). cbn [own].
    rewrite lookup_insert_eq.
    destruct (IH (fun k' row' H => Hrows k' row' (or_intror H))
                 (mkObj (<[k := metaOfRow row]> (own (fst acc))) (proto (fst acc)),
                  Redis.hset_meta k (metaOfRow row) (snd acc)) id)
      as (H0 & H1 & H2 & H3 & H4 & H5).
    cbv zeta in H0, H1, H2, H3, H4, H5. rewrite H0, H1, H2, H3, H4, H5.
    cbn [fst snd own proto Redis.hset_meta Redis.lists Redis.hashes Redis.zsets
         Redis.metaHash].
    split; [reflexivity|]. split; [|split; [|now repeat split]].
    + destruct (decide (id = k)) as [->|Hne].
      * rewrite bool_decide_cons_eq, lookup_insert_eq, Hrow.
        now destruct (bool_decide _).
      * rewrite (bool_decide_cons_ne id k _ Hne), lookup_insert_ne by congruence.
        reflexivity.
    + destruct (decide (id = k)) as [->|Hne].
      * rewrite bool_decide_cons_eq, lookup_insert_eq, Hrow.
        now destruct (bool_decide _).
      * rewrite (bool_decide_cons_ne id k _ Hne), lookup_insert_ne by congruence.
        reflexivity.
Qed.

Lemma findManyIn_keys ids db id :
  id ∈ List.map fst (findManyIn ids db)
  <-> id ∈ ids /\ is_Some (Store.products db !! id).
Proof.
  rewrite !list_elem_of_In. split.
  - intros Hin. apply in_map_iff in Hin as ([k row] & <- & Hin).
    apply findManyIn_In in Hin as [Hrow Hids]. cbn [fst]. eauto.
  - intros [Hids [row Hrow]]. apply in_map_iff. exists (id, row).
    split; [reflexivity|]. unfold findManyIn. apply filter_In. split.
    + now apply list_elem_of_In, elem_of_map_to_list.
    + apply existsb_exists. exists id. split; [exact Hids|].
      cbn [fst]. apply String.eqb_refl.
Qed.

(** [loadProductMeta] in one formula.  The meta cached under [__proto__]
    becomes the prototype.  Any other id asked for gets as own property
    its cached meta, or, when it has none and its lookup is not truthy
    already, the meta of its store row, which is then cached. *)
Lemma loadProductMeta_spec ids w :
  proto (fst (loadProductMeta ids w)) = proto_of ids (redis w)
  /\ (forall id,
        own (fst (loadProductMeta ids w)) !! id
        = if bool_decide (id ∈ ids) && negb (String.eqb id "__proto__") then
            match Redis.metaHash (redis w) !! id with
            | Some m => Some m
            | None => if shadowed ids (redis w) id then None
                      else metaOfRow <$> Store.products (store w) !! id
            end
          else None)
  /\ (forall id,
        Redis.metaHash (snd (loadProductMeta ids w)) !! id
        = match Redis.metaHash (redis w) !! id with
          | Some m => Some m
          | None => if bool_decide (id ∈ ids) && negb (shadowed ids (redis w) id)
                    then metaOfRow <$> Store.products (store w) !! id
                    else None
          end)
  /\ Redis.lists (snd (loadProductMeta ids w)) = Redis.lists (redis w)
  /\ Redis.hashes (snd (loadProductMeta ids w)) = Redis.hashes (redis w)
  /\ Redis.zsets (snd (loadProductMeta ids w)) = Redis.zsets (redis w).
Proof.
  unfold loadProductMeta.
  destruct ids as [|k0 ids0].
  { cbn [fst snd obj_empty own proto]. unfold proto_of.
    rewrite (bool_decide_eq_false_2 ("__proto__"%string ∈ [])) by apply not_elem_of_nil.
    split; [reflexivity|]. split; [|split; [|now repeat split]].
    - intros id. rewrite lookup_empty.
      now rewrite (bool_decide_eq_false_2 (id ∈ [])) by apply not_elem_of_nil.
    - intros id.
      rewrite (bool_decide_eq_false_2 (id ∈ [])) by apply not_elem_of_nil.
      now destruct (Redis.metaHash (redis w) !! id). }
  set (ids := k0 :: ids0).
  unfold Redis.hmget_meta.
  destruct (cached_fold (fun id => Redis.metaHash (redis w) !! id) ids obj_empty)
    as [Hproto Hown]. cbv zeta in Hproto, Hown.
  set (out := fold_left _ (zip ids _) obj_empty) in *.
  assert (Hp : proto out = proto_of ids (redis w)).
  { rewrite Hproto. unfold proto_of. cbn [obj_empty proto].
    now destruct (if bool_decide _ then _ else _). }
  assert (Ho : forall id, own out !! id
               = if bool_decide (id ∈ ids) && negb (String.eqb id "__proto__")
                 then Redis.metaHash (redis w) !! id else None).
  { intros id. rewrite Hown. cbn [obj_empty own]. rewrite lookup_empty.
    now destruct (if _ && _ then _ else _). }
  assert (Hget : forall id, id ∈ ids ->
            falsy (obj_get id out) = true
            <-> Redis.metaHash (redis w) !! id = None /\ shadowed ids (redis w) id = false).
  { intros id Hin. unfold shadowed, obj_get. rewrite Ho, Hp.
    rewrite (bool_decide_eq_true_2 _ Hin). cbn [andb].
    destruct (String.eqb id "__proto__"); cbn [negb orb falsy].
    - split; [discriminate|intros [_ H]; discriminate H].
    - destruct (Redis.metaHash (redis w) !! id); cbn [falsy].
      + split; [discriminate|intros [H _]; discriminate H].
      + destruct (match proto_of ids (redis w) with
                  | Some m => field_truthy id m
                  | None => false
                  end), (builtin id); cbn [falsy orb]; split; try tauto; try discriminate;
          intros [_ H]; discriminate H. }
  set (missing := List.filter _ ids).
  assert (Hmissing : forall id, id ∈ missing
            <-> id ∈ ids /\ Redis.metaHash (redis w) !! id = None
                /\ shadowed ids (redis w) id = false).
  { intros id. subst missing. rewrite list_elem_of_In, filter_In, <- list_elem_of_In.
    split.
    - intros [Hin H]. split; [exact Hin|]. now apply Hget.
    - intros [Hin H]. split; [exact Hin|]. now apply Hget. }
  assert (Hkeys : forall id, id ∈ List.map fst (findManyIn missing (store w))
            <-> id ∈ ids /\ Redis.metaHash (redis w) !! id = None
                /\ shadowed ids (redis w) id = false
                /\ is_Some (Store.products (store w) !! id)).
  { intros id. rewrite findManyIn_keys, Hmissing. tauto. }
  destruct (JS.nonempty missing) eqn:Hne.
  - pose proof (backfill_fold (store w) (findManyIn missing (store w))) as Hfold.
    cbv zeta in Hfold.
    assert (Hrows : forall k row, In (k, row) (findManyIn missing (store w)) ->
                      Store.products (store w) !! k = Some row
                      /\ String.eqb k "__proto__" = false).
    { intros k row H. pose proof H as H'. apply findManyIn_In in H as [Hrow Hin].
      split; [exact Hrow|].
      assert (Hk : k ∈ List.map fst (findManyIn missing (store w))).
      { apply list_elem_of_In. change k with (fst (k, row)). now apply in_map. }
      apply Hkeys in Hk as (_ & _ & Hsh & _). unfold shadowed in Hsh.
      destruct (String.eqb k "__proto__"); [discriminate Hsh|reflexivity]. }
    specialize (Hfold Hrows (out, redis w)).
    split; [|split; [|split]].
    + destruct (Hfold k0) as (-> & _). exact Hp.
    + intros id. destruct (Hfold id) as (_ & -> & _). cbn [fst].
      rewrite Ho.
      destruct (bool_decide (id ∈ List.map fst (findManyIn missing (store w)))) eqn:Hk;
        [apply bool_decide_eq_true in Hk|apply bool_decide_eq_false in Hk].
      * apply Hkeys in Hk as (Hin & Hnone & Hsh & [row Hrow]).
        rewrite (bool_decide_eq_true_2 _ Hin), Hnone, Hsh, Hrow. cbn [andb].
        unfold shadowed in Hsh. destruct (String.eqb id "__proto__"); [discriminate Hsh|].
        reflexivity.
      * destruct (bool_decide (id ∈ ids) && negb (String.eqb id "__proto__")) eqn:E;
          [|reflexivity].
        destruct (Redis.metaHash (redis w) !! id) eqn:Hc; [reflexivity|].
        destruct (shadowed ids (redis w) id) eqn:Hsh; [reflexivity|].
        destruct (Store.products (store w) !! id) eqn:Hprod; [|reflexivity].
        exfalso. apply Hk. apply Hkeys. apply andb_prop in E as [E _].
        apply bool_decide_eq_true in E. repeat split; eauto.
    + intros id. destruct (Hfold id) as (_ & _ & -> & _). cbn [snd].
      destruct (bool_decide (id ∈ List.map fst (findManyIn missing (store w)))) eqn:Hk;
        [apply bool_decide_eq_true in Hk|apply bool_decide_eq_false in Hk].
      * apply Hkeys in Hk as (Hin & Hnone & Hsh & [row Hrow]).
        now rewrite (bool_decide_eq_true_2 _ Hin), Hnone, Hsh, Hrow.
      * destruct (Redis.metaHash (redis w) !! id) eqn:Hc; [reflexivity|].
        destruct (bool_decide (id ∈ ids) && negb (shadowed ids (redis w) id)) eqn:E;
          [|reflexivity].
        destruct (Store.products (store w) !! id) eqn:Hprod; [|reflexivity].
        exfalso. apply Hk. apply Hkeys. apply andb_prop in E as [E1 E2].
        apply bool_decide_eq_true in E1. apply negb_true_iff in E2.
        repeat split; eauto.
    + destruct (Hfold k0) as (_ & _ & _ & H3 & H4 & H5). now rewrite H3, H4, H5.
  - assert (Hnil : missing = []) by (destruct missing; [reflexivity|discriminate]).
    assert (Hnone : forall id, id ∈ ids -> Redis.metaHash (redis w) !! id = None ->
                      shadowed ids (redis w) id = true).
    { intros id Hin Hc. destruct (shadowed ids (redis w) id) eqn:Hsh; [reflexivity|].
      exfalso. assert (Hm : id ∈ missing) by (apply Hmissing; now repeat split).
      rewrite Hnil in Hm. now apply elem_of_nil in Hm. }
    cbn [fst snd]. split; [exact Hp|]. split; [|split; [|now repeat split]].
    + intros id. rewrite Ho.
      destruct (bool_decide (id ∈ ids) && negb (String.eqb id "__proto__")) eqn:E;
        [|reflexivity].
      destruct (Redis.metaHash (redis w) !! id) eqn:Hc; [reflexivity|].
      apply andb_prop in E as [E _]. apply bool_decide_eq_true in E.
      now rewrite (Hnone id E Hc).
    + intros id. destruct (Redis.metaHash (redis w) !! id) eqn:Hc; [reflexivity|].
      destruct (bool_decide (id ∈ ids)) eqn:Hin; [|reflexivity].
      apply bool_decide_eq_true in Hin.
      now rewrite (Hnone id Hin Hc).
Qed.

(** What a lookup in the object returned gives for an id that was asked
    for. *)
Lemma obj_get_loaded ids w id :
  id ∈ ids ->
  obj_get id (fst (loadProductMeta ids w))
  = if String.eqb id "__proto__" then
      Some (match Redis.metaHash (redis w) !! id with
            | Some m => MetaObj m
            | None => NotMeta
            end)
    else
      match Redis.metaHash (redis w) !! id with
      | Some m => Some (MetaObj m)
      | None =>
          if shadowed ids (redis w) id then Some NotMeta
          else MetaObj <$> (metaOfRow <$> Store.products (store w) !! id)
      end.
Proof.
  intros Hin. destruct (loadProductMeta_spec ids w) as (Hp & Ho & _).
  unfold obj_get. rewrite Hp, Ho, (bool_decide_eq_true_2 _ Hin). cbn [andb].
  destruct (String.eqb_spec id "__proto__") as [->|Hne]; cbn [negb].
  - unfold proto_of. now rewrite (bool_decide_eq_true_2 _ Hin).
  - destruct (Redis.metaHash (redis w) !! id); [reflexivity|].
    unfold shadowed. apply String.eqb_neq in Hne. rewrite Hne. cbn [orb].
    destruct (builtin id); cbn [orb].
    + now destruct (match proto_of ids (redis w) with
                    | Some m => field_truthy id m
                    | None => false
                    end).
    + destruct (match proto_of ids (redis w) with
                | Some m => field_truthy id m
                | None => false
                end); [reflexivity|].
      now destruct (Store.products (store w) !! id).
Qed.

(** A meta handed out by [loadProductMeta] is the cached blob or is built
    from the row of the store. *)
Lemma loadProductMeta_source ids w id meta :
  id ∈ ids ->
  obj_get id (fst (loadProductMeta ids w)) = Some (MetaObj meta) ->
  Redis.metaHash (redis w) !! id = Some meta
  \/ exists row, Store.products (store w) !! id = Some row /\ meta = metaOfRow row.
Proof.
  intros Hin. rewrite (obj_get_loaded ids w id Hin).
  destruct (String.eqb id "__proto__").
  - destruct (Redis.metaHash (redis w) !! id); [|discriminate].
    intros [= <-]. now left.
  - destruct (Redis.metaHash (redis w) !! id); [intros [= <-]; now left|].
    destruct (shadowed ids (redis w) id); [discriminate|].
    destruct (Store.products (store w) !! id) as [row|]; [|discriminate].
    intros [= <-]. right. now exists row.
Qed.

Lemma scoreCandidate_id env p r cm tm metas i it :
  scoreCandidate env p r cm tm metas i = Some it -> id it = i.
Proof.
  unfold scoreCandidate. destruct (obj_get i metas); [|discriminate].
  now intros [= <-].
Qed.

Lemma In_omap {A B} (f : A -> option B) (l : list A) (b : B) :
  In b (omap f l) <-> exists a, In a l /\ f a = Some b.
Proof.
  rewrite <- list_elem_of_In, list_elem_of_omap.
  split; intros (a & Ha & Hf); exists a; split; auto; now apply list_elem_of_In.
Qed.

Lemma omap_ids_sublist env p r cm tm metas ids :
  List.map id (omap (scoreCandidate env p r cm tm metas) ids) `sublist_of` ids.
Proof.
  induction ids as [|i ids IH]; simpl; [constructor|].
  destruct (scoreCandidate env p r cm tm metas i) as [it|] eqn:E.
  - simpl. rewrite (scoreCandidate_id _ _ _ _ _ _ _ _ E). now constructor.
  - now constructor.
Qed.

Lemma results_unfold env p w :
  results env p w
  = (omap (scoreCandidate env p (cacheOf env p w) (candidates env p w)
             (textMatchesOf env p) (metasOf env p w)) (idsOf env p w),
     cacheOf env p w).
Proof.
  unfold results, cacheOf, metasOf, idsOf.
  now destruct (loadProductMeta _ w).
Qed.

Lemma results_NoDup env p w : NoDup (List.map id (fst (results env p w))).
Proof.
  rewrite results_unfold. cbn [fst].
  eapply sublist_NoDup; [apply candidateIds_NoDup|apply omap_ids_sublist].
Qed.

Lemma scoreCandidate_expected env p w i it :
  scoreCandidate env p (cacheOf env p w) (candidates env p w)
    (textMatchesOf env p) (metasOf env p w) i = Some it ->
  In i (idsOf env p w) ->
  exists meta base,
    obj_get i (metasOf env p w) = Some meta
    /\ cm_get i (candidates env p w) = Some base
    /\ id it = i /\ Diversity.meta it = meta
    /\ score it == expected env p w i meta base.
Proof.
  intros Hs Hin. unfold scoreCandidate in Hs.
  destruct (obj_get i (metasOf env p w)) as [meta|]; [|discriminate].
  destruct (candidateIds_get env p w i Hin) as [base Hbase].
  rewrite Hbase in Hs. injection Hs as <-.
  exists meta, base. repeat split; try reflexivity; [assumption|].
  cbn [score default]. unfold expected, fused, v_popularity.
  destruct meta as [m|]; [destruct (popularity m)|];
    destruct (merchantBoost env i), (JS.truthy (fp_searchText p));
    simpl default; ring.
Qed.

End Scoring.

(** ** The feed *)

Section Feed.

Import Diversity Recommender.
Local Open Scope Q_scope.

Lemma slice_to_sublist {A} (q : Q) (l : list A) : JS.slice_to q l `sublist_of` l.
Proof. apply sublist_take. Qed.

Lemma pageOf_sublist limit l : pageOf limit l `sublist_of` l.
Proof.
  unfold pageOf. etransitivity; apply slice_to_sublist.
Qed.

Lemma pageOf_In limit l it : In it (pageOf limit l) -> In it l.
Proof. unfold pageOf, JS.slice_to. intros H. now apply In_take, In_take in H. Qed.

Lemma length_slice_to {A} (q : Q) (l : list A) :
  0 <= q -> inject_Z (Z.of_nat (length (JS.slice_to q l))) <= q.
Proof.
  intros Hq. unfold JS.slice_to, JS.trunc, JS.rel_index.
  assert (Hb : Qle_bool 0 q = true) by now apply Qle_bool_iff.
  rewrite Hb.
  assert (Hf : (0 <= Qfloor q)%Z).
  { rewrite <- (Qfloor_Z 0). now apply Qfloor_resp_le. }
  destruct (Z.ltb_spec (Qfloor q) 0) as [Hneg|_]; [lia|].
  rewrite length_take.
  apply Qle_trans with (inject_Z (Qfloor q)); [|apply Qfloor_le].
  rewrite <- Zle_Qle. lia.
Qed.

(** [getFeed] returns: the diversity loop ends, and the feed is the page
    cut from a rearrangement of the scored candidates. *)
Lemma getFeed_returns env p w :
  exists reRanked,
    Permutation reRanked (fst (results env p w))
    /\ getFeed env p w
       = Some (mkFeed
                 (List.map (toFeedItem (store w)) (pageOf (limitOf p) reRanked))
                 (product_id <$> (f_product <$>
                    last (List.map (toFeedItem (store w)) (pageOf (limitOf p) reRanked)))),
               cacheOf env p w).
Proof.
  unfold getFeed. rewrite results_unfold. cbn [fst].
  set (res := omap _ _).
  destruct (ensureDiversity_fuel_returns
              (JS.sort_by (fun y x => JS.Qltb (score x) (score y)) res) diversityOpts
              (length (JS.sort_by (fun y x => JS.Qltb (score x) (score y)) res)))
    as (reRanked & Hre & Hperm); [lia|].
  fold (ensureDiversity (JS.sort_by (fun y x => JS.Qltb (score x) (score y)) res)
          diversityOpts) in Hre.
  exists reRanked. rewrite Hre. split; [|reflexivity].
  rewrite Hperm. apply sort_by_perm.
Qed.

Lemma toFeedItem_id db it : product_id (f_product (toFeedItem db it)) = id it.
Proof. unfold toFeedItem. cbn [f_product]. now destruct (Store.products db !! id it). Qed.

(** The items of the feed carry the scores of their candidates. *)
Lemma getFeed_items_scored env p w :
  exists feed,
    getFeed env p w = Some (feed, cacheOf env p w)
    /\ Forall (fun fi =>
                 let i := product_id (f_product fi) in
                 exists meta base,
                   In i (idsOf env p w)
                   /\ obj_get i (metasOf env p w) = Some meta
                   /\ cm_get i (candidates env p w) = Some base
                   /\ f_score fi == expected env p w i meta base)
              (items feed).
Proof.
  destruct (getFeed_returns env p w) as (reRanked & Hperm & Hfeed).
  eexists. split; [exact Hfeed|]. cbn [items].
  apply Forall_forall. intros fi Hfi.
  apply list_elem_of_In, in_map_iff in Hfi as (it & <- & Hit).
  apply pageOf_In in Hit.
  apply (Permutation_in _ Hperm) in Hit.
  rewrite results_unfold in Hit. cbn [fst] in Hit.
  apply In_omap in Hit as (i & Hi & Hs).
  destruct (scoreCandidate_expected env p w i it Hs Hi)
    as (meta & base & Hm & Hb & Hid & _ & Hsc).
  cbv zeta. rewrite toFeedItem_id, Hid.
  exists meta, base. repeat split; assumption.
Qed.

(** Every candidate is scored by the formula or dropped, as its lookup in
    the object of metas decides. *)
Lemma results_scored env p w i :
  In i (idsOf env p w) ->
  match obj_get i (metasOf env p w) with
  | Some meta =>
      exists base it,
        cm_get i (candidates env p w) = Some base
        /\ In it (fst (results env p w))
        /\ id it = i /\ Diversity.meta it = meta
        /\ score it == expected env p w i meta base
  | None => ~ In i (List.map id (fst (results env p w)))
  end.
Proof.
  intros Hin. rewrite results_unfold. cbn [fst].
  destruct (obj_get i (metasOf env p w)) as [meta|] eqn:Hmeta.
  - destruct (scoreCandidate env p (cacheOf env p w) (candidates env p w)
                (textMatchesOf env p) (metasOf env p w) i) as [it|] eqn:Hs.
    + destruct (scoreCandidate_expected env p w i it Hs Hin)
        as (meta' & base & Hm & Hb & Hid & Hmt & Hsc).
      assert (Hmm : meta' = meta) by congruence.
      exists base, it.
      split; [exact Hb|]. split; [apply In_omap; now exists i|].
      split; [exact Hid|]. split; [congruence|].
      rewrite <- Hmm. exact Hsc.
    + unfold scoreCandidate in Hs. rewrite Hmeta in Hs. discriminate.
  - intros Hi. apply in_map_iff in Hi as (it & Hid & Hit).
    apply In_omap in Hit as (j & Hj & Hs).
    pose proof (scoreCandidate_id _ _ _ _ _ _ _ _ Hs) as Hj'.
    rewrite Hid in Hj'. rewrite <- Hj' in Hs.
    unfold scoreCandidate in Hs. rewrite Hmeta in Hs. discriminate.
Qed.

(** C1, the divergence: user U's top-K holds the id [constructor] with the
    score 1; no meta is cached under that id and the store has no such
    product.  The candidate is not dropped: [getFeed] returns it, with the
    score 0.45 * 1 + 0.12 * 0.5 = 0.51 and an empty title, and still no
    meta is cached for it afterwards.  The lookup [out[id]] of
    [loadProductMeta] and [metas[id]] of the scoring loop find the function
    [Object.prototype.constructor], which is truthy. *)
Theorem getFeed_scores_constructor :
  Redis.metaHash (redis constructor_world) !! "constructor"%string = None
  /\ Store.products (store constructor_world) !! "constructor"%string = None
  /\ idsOf quiet_env (for_user "U") constructor_world = ["constructor"%string]
  /\ obj_get "constructor" (metasOf quiet_env (for_user "U") constructor_world)
     = Some NotMeta
  /\ exists feed r,
       getFeed quiet_env (for_user "U") constructor_world = Some (feed, r)
       /\ List.map f_product (items feed) = [Stub "constructor" EmptyString EmptyString]
       /\ Forall (fun fi => f_score fi == 0.51) (items feed)
       /\ Redis.metaHash r !! "constructor"%string = None.
Proof.
  split; [reflexivity|]. split; [reflexivity|].
  split; [vm_compute; reflexivity|]. split; [vm_compute; reflexivity|].
  eexists _, _. split; [vm_compute; reflexivity|].
  split; [reflexivity|]. split; [|reflexivity].
  repeat constructor.
Qed.

(** The fused score: every candidate whose lookup in the object of metas
    gives a value is scored with
    0.45 base + 0.18 popularity + 0.12 sample + wText textScore + 0.10
    sessionAffinity, where wText is 0.20 with a search text and 0.05
    without, the sample is 0.5 when sampling failed, and the popularity is
    0 when the value found has no numeric popularity; a candidate whose
    lookup gives nothing is not scored; the items [getFeed] returns carry
    these scores unchanged. *)
Theorem getFeed_fused_scores env p w :
  (forall i, In i (idsOf env p w) ->
     match obj_get i (metasOf env p w) with
     | Some meta =>
         exists base it,
           cm_get i (candidates env p w) = Some base
           /\ In it (fst (results env p w))
           /\ id it = i /\ Diversity.meta it = meta
           /\ score it == expected env p w i meta base
     | None => ~ In i (List.map id (fst (results env p w)))
     end)
  /\ exists feed,
       getFeed env p w = Some (feed, cacheOf env p w)
       /\ Forall (fun fi =>
                    let i := product_id (f_product fi) in
                    exists meta base,
                      In i (idsOf env p w)
                      /\ obj_get i (metasOf env p w) = Some meta
                      /\ cm_get i (candidates env p w) = Some base
                      /\ f_score fi == expected env p w i meta base)
                 (items feed).
Proof.
  split; [intros i; apply results_scored|apply getFeed_items_scored].
Qed.

(** Which candidates are dropped: those that have no cached meta and no
    row in the store and whose id is no property the object inherits; a
    candidate that has one of the three is scored. *)
Theorem candidate_dropped_iff env p w i :
  In i (idsOf env p w) ->
  (In i (List.map id (fst (results env p w)))
   <-> Redis.metaHash (redis w) !! i <> None
       \/ Store.products (store w) !! i <> None
       \/ shadowed (idsOf env p w) (redis w) i = true).
Proof.
  intros Hin. pose proof (results_scored env p w i Hin) as Hs.
  unfold metasOf in Hs.
  rewrite (obj_get_loaded _ w i (proj2 (list_elem_of_In _ _) Hin)) in Hs.
  assert (Hsh : String.eqb i "__proto__" = true -> shadowed (idsOf env p w) (redis w) i = true).
  { intros H. unfold shadowed. now rewrite H. }
  destruct (String.eqb i "__proto__").
  - destruct Hs as (base & it & _ & Hit & Hid & _). split.
    + intros _. right. right. now apply Hsh.
    + intros _. apply in_map_iff. now exists it.
  - clear Hsh. destruct (Redis.metaHash (redis w) !! i) as [m|].
    + destruct Hs as (base & it & _ & Hit & Hid & _). split.
      * intros _. now left.
      * intros _. apply in_map_iff. now exists it.
    + destruct (shadowed (idsOf env p w) (redis w) i).
      * destruct Hs as (base & it & _ & Hit & Hid & _). split.
        -- intros _. now right; right.
        -- intros _. apply in_map_iff. now exists it.
      * destruct (Store.products (store w) !! i) as [row|]; cbn [fmap option_fmap option_map] in Hs.
        -- destruct Hs as (base & it & _ & Hit & Hid & _). split.
           ++ intros _. now right; left.
           ++ intros _. apply in_map_iff. now exists it.
        -- split; [intros H; now apply Hs in H|].
           intros [H|[H|H]]; congruence.
Qed.

Lemma candidate_dropped_iff_witness :
  In "constructor"%string (List.map id (fst (results quiet_env (for_user "U") constructor_world)))
  <-> Redis.metaHash (redis constructor_world) !! "constructor"%string <> None
      \/ Store.products (store constructor_world) !! "constructor"%string <> None
      \/ shadowed (idsOf quiet_env (for_user "U") constructor_world)
           (redis constructor_world) "constructor" = true.
Proof.
  apply (candidate_dropped_iff quiet_env (for_user "U") constructor_world "constructor").
  vm_compute. now left.
Defined.

Lemma textMatches_nonneg env p w i ts :
  nonneg_inputs env w -> In (i, ts) (textMatchesOf env p) -> 0 <= ts.
Proof.
  intros (_ & Hsim & _) Hin. unfold textMatchesOf in Hin.
  destruct (_ && _)%bool; [|destruct Hin].
  unfold fuzzySearchProductIds in Hin.
  destruct (JS.blank _); [destruct Hin|].
  apply in_map_iff in Hin as ([k sim] & [= <- <-] & Hin). cbn [snd].
  apply Q.min_glb; [discriminate|].
  destruct sim as [s|]; simpl; [now apply (Hsim _ _ _ _ Hin)|apply Qle_refl].
Qed.

Lemma textScoreOf_nonneg env p w i :
  nonneg_inputs env w -> 0 <= textScoreOf (textMatchesOf env p) i.
Proof.
  intros Hnn. unfold textScoreOf.
  destruct (List.find _ _) as [[k ts]|] eqn:E; simpl; [|apply Qle_refl].
  apply find_some in E as [Hin _]. now apply (textMatches_nonneg env p w k).
Qed.

Lemma sessionAffinity_nonneg sid i r : 0 <= sessionAffinity sid i r.
Proof.
  unfold sessionAffinity. destruct (JS.truthy sid); [|apply Qle_refl].
  destruct (existsb _ _); discriminate.
Qed.

Lemma candidates_nonneg env p w i base :
  nonneg_inputs env w -> cm_get i (candidates env p w) = Some base -> 0 <= base.
Proof.
  intros Hnn Hget.
  apply (cm_ok_get (Qle 0) i base (candidates env p w)); [|exact Hget].
  pose proof Hnn as (Hz & _ & Hpop & _).
  apply candidates_ok.
  - intros a b Hb. apply Qle_trans with b; [exact Hb|apply Q.le_max_r].
  - intros key z m s Hkey Hm. pose proof (Hz _ _ _ _ Hkey Hm). split; [assumption|Lqa.lra].
  - intros k ts Hin. pose proof (textMatches_nonneg env p w k ts Hnn Hin). Lqa.lra.
  - intros k row Hrow. pose proof (Hpop _ _ Hrow). Lqa.lra.
Qed.

Lemma meta_popularity_nonneg env p w i meta :
  nonneg_inputs env w -> In i (idsOf env p w) ->
  obj_get i (metasOf env p w) = Some meta ->
  0 <= match meta with
       | MetaObj m => match popularity m with Some x => x | None => 0 end
       | NotMeta => 0
       end.
Proof.
  intros (_ & _ & Hpop & Hmeta & _) Hin Hm.
  destruct meta as [m|]; [|apply Qle_refl].
  apply loadProductMeta_source in Hm as [Hc|(row & Hrow & ->)];
    [| |now apply list_elem_of_In].
  - destruct (popularity m) as [x|] eqn:E; [|apply Qle_refl].
    now apply (Hmeta _ _ _ Hc E).
  - simpl. now apply (Hpop _ _ Hrow).
Qed.

Lemma expected_nonneg env p w i meta base :
  nonneg_inputs env w ->
  In i (idsOf env p w) ->
  obj_get i (metasOf env p w) = Some meta ->
  cm_get i (candidates env p w) = Some base ->
  0 <= expected env p w i meta base.
Proof.
  intros Hnn Hin Hm Hb.
  pose proof (candidates_nonneg env p w i base Hnn Hb) as H1.
  pose proof (meta_popularity_nonneg env p w i meta Hnn Hin Hm) as H2.
  pose proof (textScoreOf_nonneg env p w i Hnn) as H3.
  pose proof (sessionAffinity_nonneg (fp_sessionId p) i (cacheOf env p w)) as H4.
  assert (H5 : 0 <= match merchantBoost env i with Some x => x | None => 0.5 end).
  { destruct Hnn as (_ & _ & _ & _ & Hboost).
    destruct (merchantBoost env i) as [x|] eqn:E; [now apply (Hboost i)|discriminate]. }
  unfold expected, fused.
  destruct (JS.truthy (fp_searchText p)); Lqa.lra.
Qed.

(** C2, as amended: for a limit that is not negative [getFeed] returns at
    most [limit] items with pairwise distinct product ids; and when every
    number that feeds the fused score (cached top-K and global scores,
    similarities, popularities, bandit samples) is non-negative, every
    returned score is non-negative.  A negative cached score makes the
    returned score negative. *)
Theorem getFeed_page env p w :
  0 <= limitOf p ->
  exists feed r,
    getFeed env p w = Some (feed, r)
    /\ inject_Z (Z.of_nat (length (items feed))) <= limitOf p
    /\ NoDup (List.map (fun fi => product_id (f_product fi)) (items feed))
    /\ (nonneg_inputs env w -> Forall (fun fi => 0 <= f_score fi) (items feed)).
Proof.
  intros Hlimit.
  destruct (getFeed_returns env p w) as (reRanked & Hperm & Hfeed).
  eexists _, _. split; [exact Hfeed|]. cbn [items]. split; [|split].
  - rewrite length_map. unfold pageOf. now apply length_slice_to.
  - rewrite map_map.
    rewrite (map_ext _ id) by (intros it; apply toFeedItem_id).
    eapply sublist_NoDup; [|apply (fmap_sublist id), pageOf_sublist].
    apply (NoDup_Permutation_proper _ _ (Permutation_map id Hperm)).
    apply results_NoDup.
  - intros Hnn.
    destruct (getFeed_items_scored env p w) as (feed' & Hfeed' & Hall).
    rewrite Hfeed in Hfeed'. injection Hfeed' as <-. cbn [items] in Hall.
    eapply Forall_impl; [exact Hall|].
    intros fi (meta & base & Hin & Hm & Hb & Hsc). cbv beta.
    rewrite Hsc. now apply expected_nonneg.
Qed.

Lemma getFeed_page_witness :
  exists feed r,
    getFeed quiet_env (for_user "U") negative_topk_world = Some (feed, r)
    /\ inject_Z (Z.of_nat (length (items feed))) <= limitOf (for_user "U")
    /\ NoDup (List.map (fun fi => product_id (f_product fi)) (items feed))
    /\ (nonneg_inputs quiet_env negative_topk_world ->
        Forall (fun fi => 0 <= f_score fi) (items feed)).
Proof.
  apply (getFeed_page quiet_env (for_user "U") negative_topk_world).
  vm_compute. discriminate.
Defined.

(** C2, counterexample: with the cached top-K score -1 the feed of user U
    is the single item P1 with the score 0.45 * (-1) + 0.12 * 0.5 = -0.39,
    which is negative. *)
Lemma getFeed_negative_score :
  exists feed r,
    getFeed quiet_env (for_user "U") negative_topk_world = Some (feed, r)
    /\ List.map (fun fi => product_id (f_product fi)) (items feed) = ["P1"%string]
    /\ Forall (fun fi => f_score fi == - 0.39) (items feed)
    /\ ~ Forall (fun fi => 0 <= f_score fi) (items feed).
Proof.
  eexists _, _. split; [vm_compute; reflexivity|].
  split; [reflexivity|]. split.
  - repeat constructor.
  - intros H. apply Forall_cons in H as [H _]. vm_compute in H. now apply H.
Qed.

(** With equal base scores the product of the session trail gains 0.10
    and ranks first; the cursor is the last id of the page. *)
Example getFeed_session_first :
  (fun out => (List.map (fun fi => product_id (f_product fi)) (items (fst out)),
               cursor (fst out)))
    <$> getFeed quiet_env (in_session "S") session_world
  = Some (["P7"; "P5"]%string, Some "P5"%string).
Proof. vm_compute. reflexivity. Qed.

(** A page of 5 out of 6 candidates: the five best, and the cursor is the id
    of the fifth. *)
Example getFeed_page_of_five :
  (fun out => (List.map (fun fi => product_id (f_product fi)) (items (fst out)),
               cursor (fst out)))
    <$> getFeed quiet_env (page_of 5) six_products_world
  = Some (["P6"; "P5"; "P4"; "P3"; "P2"]%string, Some "P2"%string).
Proof. vm_compute. reflexivity. Qed.

(** A text search ranks the best match first. *)
Example getFeed_text_first :
  (fun out => List.map (fun fi => product_id (f_product fi)) (items (fst out)))
    <$> getFeed shirt_env (search_for "red shirt") shirt_world
  = Some ["P3"; "P1"; "P2"]%string.
Proof. vm_compute. reflexivity. Qed.

End Feed.

(** ** Session affinity *)

Section SessionAffinity.

Import Recommender.
Local Open Scope Q_scope.

(** The affinity is 1 exactly when a session id is given and the product
    is among the first 21 entries of the trail: LRANGE 0 20 is inclusive
    at both ends. *)
Lemma sessionAffinity_spec (sid : string) (i : string) (r : Redis.t) :
  sid ≠ EmptyString ->
  sessionAffinity (Some sid) i r
  = if bool_decide (i ∈ take 21 (Redis.list_at (KEYS.sessionRecent sid) r))
    then 1 else 0.
Proof.
  intros Hsid. unfold sessionAffinity, JS.truthy, Redis.lrange.
  destruct (String.eqb_spec sid EmptyString) as [|_]; [contradiction|].
  cbn [negb default drop]. change (21 - 0)%nat with 21%nat.
  set (l := take 21 _).
  destruct (existsb (String.eqb i) l) eqn:E.
  - apply existsb_exists in E as (k & Hk & Hik). apply String.eqb_eq in Hik. subst k.
    rewrite bool_decide_eq_true_2; [reflexivity|now apply list_elem_of_In].
  - rewrite bool_decide_eq_false_2; [reflexivity|].
    intros Hin. assert (existsb (String.eqb i) l = true); [|congruence].
    apply existsb_exists. exists i.
    split; [now apply list_elem_of_In|apply String.eqb_refl].
Qed.

(** C5, at the failing input: P0 is the 21st most recent entry of the
    trail, outside the 20 most recent ones, and still gets affinity 1. *)
Theorem sessionAffinity_21st_entry :
  trail21 !! 20%nat = Some "P0"%string
  /\ ~ In "P0"%string (take 20 trail21)
  /\ sessionAffinity (Some "S"%string) "P0" trail21_store = 1.
Proof.
  split; [reflexivity|]. split; [|vm_compute; reflexivity].
  intros H. vm_compute in H. intuition discriminate.
Qed.

End SessionAffinity.

(** ** The key space *)

Section KeySpace.

(** No two logical names share a Redis key: the key builders are injective
    and their ranges, the global keys and the event queue are pairwise
    apart. *)
Theorem render_injective (k1 k2 : KeyName) : render k1 = render k2 -> k1 = k2.
Proof.
  destruct k1, k2; cbn [render]; intros H;
    try reflexivity;
    try (apply sessionRecent_inj in H; now subst);
    unfold KEYS.userTopK, KEYS.productFactors, KEYS.userFactors, KEYS.merchantBeta,
      KEYS.categoryBeta, KEYS.sessionRecent, KEYS.globalTop, KEYS.productMetaHash,
      EventQueue.QUEUE in H;
    try (apply String.app_inj in H; now subst);
    simpl in H; discriminate.
Qed.

Lemma render_injective_witness : SessionRecent "S" = SessionRecent "S".
Proof. apply (render_injective (SessionRecent "S") (SessionRecent "S")). reflexivity. Defined.

End KeySpace.

(** ** Laws of the posterior *)

Section BanditLaws.

Import Bandit.

Lemma record_all_other_key key key' field outcomes : forall r,
  key ≠ key' ->
  hfield key' field (record_all key outcomes r) = hfield key' field r.
Proof.
  induction outcomes as [|s outcomes IH]; intros r Hne; [reflexivity|].
  unfold record_all in *. simpl fold_left. rewrite IH by assumption.
  unfold recordBanditOutcome. destruct s; now rewrite hfield_hincrby_other by now left.
Qed.

(** Once both counters of a key are stored, recording k successes and m
    failures, in any order, adds exactly (k, m) to the posterior read back,
    and the posterior of every other key reads as before. *)
Theorem getAB_record_all_stored key outcomes r a b :
  hfield key "a" r = Some a ->
  hfield key "b" r = Some b ->
  getAB key (record_all key outcomes r)
  = (a + Z.of_nat (successes outcomes), b + Z.of_nat (failures outcomes))
  /\ forall key', key ≠ key' ->
       getAB key' (record_all key outcomes r) = getAB key' r.
Proof.
  intros Ha Hb. split.
  - rewrite getAB_fields, record_all_a, record_all_b, Ha, Hb.
    destruct (successes outcomes), (failures outcomes); simpl default; f_equal; lia.
  - intros key' Hne. rewrite !getAB_fields.
    now rewrite !record_all_other_key by assumption.
Qed.

Lemma getAB_record_all_stored_witness :
  getAB (KEYS.merchantBeta "M") (record_all (KEYS.merchantBeta "M") [true; false] seasoned_store)
  = (3 + Z.of_nat (successes [true; false]), 2 + Z.of_nat (failures [true; false])).
Proof.
  apply (getAB_record_all_stored (KEYS.merchantBeta "M") [true; false] seasoned_store 3 2);
    reflexivity.
Defined.

Lemma positive_counters_hincrby key field r :
  positive_counters r -> positive_counters (Redis.hincrby key field 1 r).
Proof.
  intros Hpos key' field' z.
  destruct (decide (key = key')) as [<-|Hk].
  - destruct (decide (field = field')) as [<-|Hf].
    + rewrite hfield_hincrby_same. intros [= <-].
      destruct (hfield key field r) as [z0|] eqn:E; simpl.
      * pose proof (Hpos _ _ _ E). lia.
      * lia.
    + rewrite hfield_hincrby_other by now right. apply Hpos.
  - rewrite hfield_hincrby_other by now left. apply Hpos.
Qed.

Lemma positive_counters_record key success r :
  positive_counters r -> positive_counters (recordBanditOutcome key success r).
Proof.
  intros Hpos. unfold recordBanditOutcome.
  destruct success; now apply positive_counters_hincrby.
Qed.

Lemma positive_counters_getAB key r :
  positive_counters r -> 1 <= fst (getAB key r) /\ 1 <= snd (getAB key r).
Proof.
  intros Hpos. rewrite getAB_fields. cbn [fst snd].
  split.
  - destruct (hfield key "a" r) as [z|] eqn:E; simpl; [now apply (Hpos _ _ _ E)|lia].
  - destruct (hfield key "b" r) as [z|] eqn:E; simpl; [now apply (Hpos _ _ _ E)|lia].
Qed.

End BanditLaws.

(** ** What the event consumer writes and what it leaves alone *)

Section EventFrame.

Import EventConsumer.
Implicit Types (w : World) (e : Event).

Lemma zsets_pushTrail e r :
  Redis.zsets (pushTrail e r) = Redis.zsets r
  /\ Redis.metaHash (pushTrail e r) = Redis.metaHash r.
Proof. unfold pushTrail. destruct (JS.truthy (sessionId e)); split; reflexivity. Qed.

Lemma zsets_updateBandit e db r :
  Redis.zsets (updateBandit e db r) = Redis.zsets r
  /\ Redis.metaHash (updateBandit e db r) = Redis.metaHash r.
Proof.
  unfold updateBandit. destruct (Store.findUnique (productId e) db); [|now split].
  destruct (type e); split; reflexivity.
Qed.

Lemma handleEvent_store now e w :
  store (handleEvent now e w)
  = Store.mk (Store.products (store w)) (Store.interactions (store w) ++ [logged (now, e)]).
Proof. reflexivity. Qed.

(** The interaction log is append-only and complete: handling events adds
    one row per event, in order, with value 1 and the time of handling, also
    for events without session and for products the store does not know;
    the product table, the sorted sets and the meta cache stay as they
    were. *)
Theorem handleAll_appends (events : list (Z * Event)) w :
  Store.interactions (store (handleAll events w))
  = Store.interactions (store w) ++ List.map logged events
  /\ Store.products (store (handleAll events w)) = Store.products (store w)
  /\ Redis.zsets (redis (handleAll events w)) = Redis.zsets (redis w)
  /\ Redis.metaHash (redis (handleAll events w)) = Redis.metaHash (redis w).
Proof.
  induction events as [|te events IH] using rev_ind.
  - simpl. now rewrite app_nil_r.
  - destruct IH as (Hlog & Hprod & Hz & Hm).
    rewrite handleAll_snoc, handleEvent_store. cbn [Store.interactions Store.products].
    rewrite Hlog, Hprod, map_app, <- app_assoc. destruct te as [now e].
    split; [reflexivity|]. split; [reflexivity|].
    unfold handleEvent. cbn [redis fst snd].
    destruct (zsets_updateBandit e (store (handleAll events w))
                (pushTrail e (redis (handleAll events w)))) as [-> ->].
    destruct (zsets_pushTrail e (redis (handleAll events w))) as [-> ->].
    now split.
Qed.

(** An event with a product the store does not know updates no posterior,
    and an event without session id (or with the empty one) touches no
    list; either way the interaction is logged. *)
Theorem handleEvent_missing_parts now e w :
  (Store.findUnique (productId e) (store w) = None ->
   Redis.hashes (redis (handleEvent now e w)) = Redis.hashes (redis w))
  /\ (JS.truthy (sessionId e) = false ->
      Redis.lists (redis (handleEvent now e w)) = Redis.lists (redis w))
  /\ last (Store.interactions (store (handleEvent now e w))) = Some (logged (now, e)).
Proof.
  split; [|split].
  - intros Hnone. unfold handleEvent, updateBandit. cbn [redis].
    rewrite Hnone. apply hashes_pushTrail.
  - intros Hs. unfold handleEvent. cbn [redis].
    rewrite lists_updateBandit. unfold pushTrail. now rewrite Hs.
  - rewrite handleEvent_store. cbn [Store.interactions]. apply last_snoc.
Qed.

Lemma positive_counters_handleEvent now e w :
  positive_counters (redis w) -> positive_counters (redis (handleEvent now e w)).
Proof.
  intros Hpos. unfold handleEvent. cbn [redis].
  assert (Hp : positive_counters (pushTrail e (redis w))).
  { intros key field z. rewrite hfield_pushTrail. apply Hpos. }
  unfold updateBandit.
  destruct (Store.findUnique (productId e) (store w)); [|exact Hp].
  destruct (type e); try exact Hp; now repeat apply positive_counters_record.
Qed.

(** The bandit counts stay at least 1: from a cache whose stored counters
    are at least 1 (the empty cache is one), after any sequence of events
    every stored counter is at least 1 and every posterior read back has
    both components at least 1. *)
Theorem handleAll_counts_positive (events : list (Z * Event)) w :
  positive_counters (redis w) ->
  positive_counters (redis (handleAll events w))
  /\ forall key, 1 <= fst (Bandit.getAB key (redis (handleAll events w)))
                 /\ 1 <= snd (Bandit.getAB key (redis (handleAll events w))).
Proof.
  intros Hpos.
  assert (H : positive_counters (redis (handleAll events w))).
  { induction events as [|te events IH] using rev_ind; [exact Hpos|].
    rewrite handleAll_snoc. now apply positive_counters_handleEvent. }
  split; [exact H|]. intros key. now apply positive_counters_getAB.
Qed.

Lemma positive_counters_empty : positive_counters Redis.empty.
Proof.
  intros key field z H. unfold hfield, Redis.empty in H. cbn [Redis.hashes] in H.
  rewrite lookup_empty in H. cbn in H. discriminate H.
Qed.

Lemma handleAll_counts_positive_witness :
  positive_counters (redis (handleAll busy_session three_products_world)).
Proof.
  apply (handleAll_counts_positive busy_session three_products_world).
  exact positive_counters_empty.
Defined.

End EventFrame.

(** ** The posteriors after a run of events *)

Section EventPosterior.

Import EventConsumer.
Implicit Types (w : World) (e : Event).

Lemma merchantBeta_inj (m1 m2 : string) :
  KEYS.merchantBeta m1 = KEYS.merchantBeta m2 -> m1 = m2.
Proof. unfold KEYS.merchantBeta. apply String.app_inj. Qed.

Lemma categoryBeta_inj (c1 c2 : string) :
  KEYS.categoryBeta c1 = KEYS.categoryBeta c2 -> c1 = c2.
Proof. unfold KEYS.categoryBeta. apply String.app_inj. Qed.

Lemma handleAll_products (events : list (Z * Event)) w :
  Store.products (store (handleAll events w)) = Store.products (store w).
Proof.
  induction events as [|te events IH] using rev_ind; [reflexivity|].
  now rewrite handleAll_snoc, handleEvent_store.
Qed.

Ltac hincr :=
  repeat first
    [ rewrite hfield_hincrby_same
    | rewrite hfield_hincrby_other
        by (first [ left; assumption
                  | left; apply merchantBeta_categoryBeta
                  | left; intros Heq; symmetry in Heq;
                    revert Heq; apply merchantBeta_categoryBeta
                  | left; congruence
                  | right; discriminate ]) ].

(** One event seen from the counter of a merchant. *)
Lemma hfield_updateBandit_merchant success mid e db r :
  hfield (KEYS.merchantBeta mid) (counterOf success) (updateBandit e db r)
  = if match Store.findUnique (productId e) db with
       | Some p => String.eqb (Store.p_merchantId p) mid && outcome_is success (type e)
       | None => false
       end
    then Some (default 0 (hfield (KEYS.merchantBeta mid) (counterOf success) r) + 1)
    else hfield (KEYS.merchantBeta mid) (counterOf success) r.
Proof.
  unfold updateBandit.
  destruct (Store.findUnique (productId e) db) as [p|]; [|reflexivity].
  destruct (String.eqb_spec (Store.p_merchantId p) mid) as [->|Hne].
  - destruct (type e), success; cbn [andb outcome_is counterOf];
      unfold Bandit.recordBanditOutcome; hincr; reflexivity.
  - assert (KEYS.merchantBeta (Store.p_merchantId p) ≠ KEYS.merchantBeta mid)
      by (intros H; now apply merchantBeta_inj in H).
    destruct (type e), success; cbn [andb outcome_is counterOf];
      unfold Bandit.recordBanditOutcome; hincr; reflexivity.
Qed.

(** One event seen from the counter of a category. *)
Lemma hfield_updateBandit_category success cid e db r :
  hfield (KEYS.categoryBeta cid) (counterOf success) (updateBandit e db r)
  = if match Store.findUnique (productId e) db with
       | Some p => String.eqb (Store.p_productCategoryId p) cid
                   && outcome_is success (type e)
       | None => false
       end
    then Some (default 0 (hfield (KEYS.categoryBeta cid) (counterOf success) r) + 1)
    else hfield (KEYS.categoryBeta cid) (counterOf success) r.
Proof.
  unfold updateBandit.
  destruct (Store.findUnique (productId e) db) as [p|]; [|reflexivity].
  destruct (String.eqb_spec (Store.p_productCategoryId p) cid) as [->|Hne].
  - destruct (type e), success; cbn [andb outcome_is counterOf];
      unfold Bandit.recordBanditOutcome; hincr; reflexivity.
  - assert (KEYS.categoryBeta (Store.p_productCategoryId p) ≠ KEYS.categoryBeta cid)
      by (intros H; now apply categoryBeta_inj in H).
    destruct (type e), success; cbn [andb outcome_is counterOf];
      unfold Bandit.recordBanditOutcome; hincr; reflexivity.
Qed.

(** A counter after a run of events: untouched while no event counts for
    it, otherwise its old value (0 when missing) plus the number of events
    that count. *)
Lemma counter_after_events (key : string) (success : bool)
    (counts : Store.t -> Z * Event -> bool) (events : list (Z * Event)) w :
  (forall e db r,
      hfield key (counterOf success) (updateBandit e db r)
      = if counts db (0, e)
        then Some (default 0 (hfield key (counterOf success) r) + 1)
        else hfield key (counterOf success) r) ->
  (forall db db' t t' e, Store.products db = Store.products db' ->
                         counts db (t, e) = counts db' (t', e)) ->
  hfield key (counterOf success) (redis (handleAll events w))
  = match length (List.filter (counts (store w)) events) with
    | O => hfield key (counterOf success) (redis w)
    | S n => Some (default 0 (hfield key (counterOf success) (redis w)) + Z.of_nat (S n))
    end.
Proof.
  intros Hstep Hdb.
  induction events as [|[t e] events IH] using rev_ind; [reflexivity|].
  rewrite handleAll_snoc. unfold handleEvent. cbn [redis fst snd].
  rewrite Hstep, hfield_pushTrail, IH.
  rewrite List.filter_app, length_app. cbn [List.filter].
  rewrite (Hdb (store (handleAll events w)) (store w) 0 t e)
    by apply handleAll_products.
  destruct (counts (store w) (t, e)); cbn [length].
  - destruct (length (List.filter (counts (store w)) events)) as [|n];
      cbn [default Nat.add]; unfold Datatypes.id; f_equal; lia.
  - now rewrite Nat.add_0_r.
Qed.

Lemma merchant_counter success mid (events : list (Z * Event)) w :
  hfield (KEYS.merchantBeta mid) (counterOf success) (redis (handleAll events w))
  = match length (merchant_events success mid (store w) events) with
    | O => hfield (KEYS.merchantBeta mid) (counterOf success) (redis w)
    | S n => Some (default 0 (hfield (KEYS.merchantBeta mid) (counterOf success) (redis w))
                   + Z.of_nat (S n))
    end.
Proof.
  unfold merchant_events.
  apply (counter_after_events (KEYS.merchantBeta mid) success
           (fun db te => match Store.findUnique (productId (snd te)) db with
                         | Some p => String.eqb (Store.p_merchantId p) mid
                                     && outcome_is success (type (snd te))
                         | None => false
                         end)).
  - intros. apply hfield_updateBandit_merchant.
  - intros db db' t t' e Hp. unfold Store.findUnique. cbn [snd]. now rewrite Hp.
Qed.

Lemma category_counter success cid (events : list (Z * Event)) w :
  hfield (KEYS.categoryBeta cid) (counterOf success) (redis (handleAll events w))
  = match length (category_events success cid (store w) events) with
    | O => hfield (KEYS.categoryBeta cid) (counterOf success) (redis w)
    | S n => Some (default 0 (hfield (KEYS.categoryBeta cid) (counterOf success) (redis w))
                   + Z.of_nat (S n))
    end.
Proof.
  unfold category_events.
  apply (counter_after_events (KEYS.categoryBeta cid) success
           (fun db te => match Store.findUnique (productId (snd te)) db with
                         | Some p => String.eqb (Store.p_productCategoryId p) cid
                                     && outcome_is success (type (snd te))
                         | None => false
                         end)).
  - intros. apply hfield_updateBandit_category.
  - intros db db' t t' e Hp. unfold Store.findUnique. cbn [snd]. now rewrite Hp.
Qed.

(** From a cache without posteriors, after any sequence of events the
    posterior of a merchant reads (max(1, s), max(1, f)), where s counts the
    CLICK and PURCHASE events and f the VIEW events on the merchant's
    products in the store; the same holds per category.  CART events and
    events on unknown products count for nothing. *)
Theorem posterior_counts_events (events : list (Z * Event)) w (mid cid : string) :
  Redis.hashes (redis w) = ∅ ->
  Bandit.getAB (KEYS.merchantBeta mid) (redis (handleAll events w))
  = (Z.max 1 (Z.of_nat (length (merchant_events true mid (store w) events))),
     Z.max 1 (Z.of_nat (length (merchant_events false mid (store w) events))))
  /\ Bandit.getAB (KEYS.categoryBeta cid) (redis (handleAll events w))
     = (Z.max 1 (Z.of_nat (length (category_events true cid (store w) events))),
        Z.max 1 (Z.of_nat (length (category_events false cid (store w) events)))).
Proof.
  intros Hfresh.
  assert (Hnone : forall key field, hfield key field (redis w) = None).
  { intros key field. unfold hfield. now rewrite Hfresh, lookup_empty. }
  split.
  - pose proof (merchant_counter true mid events w) as Ha.
    pose proof (merchant_counter false mid events w) as Hb.
    cbn [counterOf] in Ha, Hb.
    rewrite getAB_fields, Ha, Hb, !Hnone.
    destruct (length (merchant_events true mid (store w) events)),
             (length (merchant_events false mid (store w) events));
      cbn [default]; unfold Datatypes.id; f_equal; lia.
  - pose proof (category_counter true cid events w) as Ha.
    pose proof (category_counter false cid events w) as Hb.
    cbn [counterOf] in Ha, Hb.
    rewrite getAB_fields, Ha, Hb, !Hnone.
    destruct (length (category_events true cid (store w) events)),
             (length (category_events false cid (store w) events));
      cbn [default]; unfold Datatypes.id; f_equal; lia.
Qed.

Lemma posterior_counts_events_witness :
  Bandit.getAB (KEYS.merchantBeta "M") (redis (handleAll busy_session three_products_world))
  = (Z.max 1 (Z.of_nat (length (merchant_events true "M" (store three_products_world)
                                   busy_session))),
     Z.max 1 (Z.of_nat (length (merchant_events false "M" (store three_products_world)
                                   busy_session)))).
Proof.
  apply (posterior_counts_events busy_session three_products_world "M" "C1").
  reflexivity.
Defined.

(** In the sample run merchant M has two clicks and one view on record and
    reads (2, 1). *)
Example posterior_of_M :
  Bandit.getAB (KEYS.merchantBeta "M") (redis (handleAll busy_session three_products_world))
  = (2, 1).
Proof. vm_compute. reflexivity. Qed.

End EventPosterior.

(** ** The event queue *)

Section QueueOrder.

Import EventConsumer EventQueue.
Implicit Types (w : World) (e : Event) (r : Redis.t).

Lemma store_list_twice key (l l' : list string) (m : gmap string (list string)) :
  Redis.store_list key l' (Redis.store_list key l m) = Redis.store_list key l' m.
Proof.
  unfold Redis.store_list. destruct l, l';
    rewrite ?delete_delete_eq, ?delete_insert_eq, ?insert_delete_eq, ?insert_insert_eq;
    reflexivity.
Qed.

Lemma store_list_commute key key' (l l' : list string) (m : gmap string (list string)) :
  key ≠ key' ->
  Redis.store_list key l (Redis.store_list key' l' m)
  = Redis.store_list key' l' (Redis.store_list key l m).
Proof.
  intros Hne. unfold Redis.store_list. destruct l, l'.
  - apply delete_delete.
  - now rewrite delete_insert_ne.
  - now rewrite insert_delete_ne.
  - now apply insert_insert_ne.
Qed.

Lemma with_queue_twice q q' r : with_queue q' (with_queue q r) = with_queue q' r.
Proof.
  unfold with_queue, Redis.with_lists. cbn. now rewrite store_list_twice.
Qed.

Lemma lpush_queue v r :
  Redis.lpush QUEUE v r = with_queue (v :: Redis.list_at QUEUE r) r.
Proof. reflexivity. Qed.

Lemma list_at_with_queue q r : Redis.list_at QUEUE (with_queue q r) = q.
Proof. apply list_at_store_same. Qed.

Lemma handler_post codec body r :
  handler codec "POST" body r
  = match safeParse body with
    | Some e => (Ok200, Redis.lpush QUEUE (stringify codec e) r)
    | None => (BadRequest400, r)
    end.
Proof. unfold handler. cbn. now destruct (safeParse body). Qed.

Lemma post_all_queue codec bodies : forall r,
  post_all codec bodies r
  = with_queue (rev (List.map (stringify codec) (accepted bodies)) ++ Redis.list_at QUEUE r) r
    \/ accepted bodies = [] /\ post_all codec bodies r = r.
Proof.
  induction bodies as [|body bodies IH] using rev_ind; intros r; [now right|].
  unfold post_all, accepted in *. rewrite fold_left_app, omap_app. cbn [fold_left omap list_omap].
  rewrite handler_post. destruct (safeParse body) as [e|]; cbn [snd].
  - left. rewrite lpush_queue, map_app. cbn [List.map]. rewrite rev_unit.
    destruct (IH r) as [->|[-> ->]].
    + now rewrite list_at_with_queue, with_queue_twice.
    + reflexivity.
  - rewrite app_nil_r. apply IH.
Qed.

Lemma brpop_queue q raw r :
  brpop QUEUE (with_queue (q ++ [raw]) r) = Some (raw, with_queue q r).
Proof.
  unfold brpop. rewrite list_at_with_queue, rev_unit, rev_involutive.
  fold (with_queue q (with_queue (q ++ [raw]) r)).
  now rewrite with_queue_twice.
Qed.

Lemma sessionRecent_not_queue sid : KEYS.sessionRecent sid ≠ QUEUE.
Proof. unfold KEYS.sessionRecent, QUEUE. simpl. discriminate. Qed.

Lemma set_list_with_queue key (l : list string) q r :
  key ≠ QUEUE ->
  Redis.with_lists (Redis.store_list key l) (with_queue q r)
  = with_queue q (Redis.with_lists (Redis.store_list key l) r).
Proof.
  intros Hne. unfold with_queue, Redis.with_lists.
  cbn [Redis.lists Redis.hashes Redis.zsets Redis.metaHash].
  f_equal. now apply store_list_commute.
Qed.

Lemma list_at_other_with_queue key q r :
  key ≠ QUEUE -> Redis.list_at key (with_queue q r) = Redis.list_at key r.
Proof.
  intros Hne. apply list_at_store_other. intros H. now apply Hne.
Qed.

Lemma pushTrail_with_queue q e r :
  pushTrail e (with_queue q r) = with_queue q (pushTrail e r).
Proof.
  unfold pushTrail. destruct (JS.truthy (sessionId e)); [|reflexivity].
  set (key := KEYS.sessionRecent _).
  assert (Hne : key ≠ QUEUE) by apply sessionRecent_not_queue.
  unfold Redis.expire, Redis.ltrim, Redis.lpush.
  rewrite (list_at_other_with_queue key q r Hne).
  rewrite (set_list_with_queue key _ q r Hne).
  rewrite (list_at_other_with_queue key q _ Hne).
  now rewrite set_list_with_queue.
Qed.

Lemma updateBandit_with_queue q e db r :
  updateBandit e db (with_queue q r) = with_queue q (updateBandit e db r).
Proof.
  unfold updateBandit. destruct (Store.findUnique (productId e) db); [|reflexivity].
  destruct (type e); reflexivity.
Qed.

Lemma handleEvent_with_queue now q e r db :
  handleEvent now e (mkWorld (with_queue q r) db)
  = mkWorld (with_queue q (redis (handleEvent now e (mkWorld r db))))
            (store (handleEvent now e (mkWorld r db))).
Proof.
  unfold handleEvent. cbn [redis store].
  now rewrite pushTrail_with_queue, updateBandit_with_queue.
Qed.

Lemma runLoop_drains codec (tes : list (Z * Event)) : forall r db,
  (forall te, In te tes -> parse codec (stringify codec (snd te)) = Some (snd te)) ->
  runLoop codec (List.map fst tes)
    (mkWorld (with_queue (rev (List.map (stringify codec) (List.map snd tes))) r) db)
  = mkWorld (with_queue [] (redis (handleAll tes (mkWorld r db))))
            (store (handleAll tes (mkWorld r db))).
Proof.
  induction tes as [|[t e] tes IH]; intros r db Hcodec; [reflexivity|].
  cbn [List.map fst snd rev]. unfold runLoop, handleAll in *. cbn [fold_left].
  unfold iteration at 2. cbn [redis store].
  rewrite brpop_queue.
  pose proof (Hcodec (t, e) (or_introl eq_refl)) as Hp. cbn [snd] in Hp.
  rewrite Hp, handleEvent_with_queue. cbn [fst snd].
  apply IH. intros te Hte. apply Hcodec. now right.
Qed.

Lemma lookup_store_list_ne key key' (l : list string) (m : gmap string (list string)) :
  key ≠ key' -> Redis.store_list key l m !! key' = m !! key'.
Proof.
  intros Hne. unfold Redis.store_list.
  destruct l; [now rewrite lookup_delete_ne|now rewrite lookup_insert_ne].
Qed.

Lemma lists_handleAll_queue (tes : list (Z * Event)) w :
  Redis.lists (redis (handleAll tes w)) !! QUEUE = Redis.lists (redis w) !! QUEUE.
Proof.
  induction tes as [|te tes IH] using rev_ind; [reflexivity|].
  rewrite handleAll_snoc. unfold handleEvent. cbn [redis].
  rewrite lists_updateBandit, <- IH.
  unfold pushTrail. destruct (JS.truthy (sessionId (snd te))); [|reflexivity].
  unfold Redis.expire, Redis.ltrim, Redis.lpush, Redis.with_lists.
  cbn [Redis.lists].
  now rewrite !lookup_store_list_ne by apply sessionRecent_not_queue.
Qed.

Lemma with_queue_absent r :
  Redis.lists r !! QUEUE = None -> with_queue [] r = r.
Proof.
  intros H. destruct r as [l h z m]. unfold with_queue, Redis.with_lists. cbn in *.
  now rewrite delete_id.
Qed.

Lemma iteration_idle codec now w :
  Redis.lists (redis w) !! QUEUE = None -> iteration codec now w = w.
Proof.
  intros H. unfold iteration, brpop, Redis.list_at. now rewrite H.
Qed.

(** First in, first out: when the queue is empty and the codec reads back
    the accepted events as it wrote them, posting bodies and then turning
    the consumer loop once per accepted event leaves exactly the world that
    handling the accepted events in the order of their posting leaves, with
    the queue empty again; a body the schema refuses leaves no trace, and
    further turns on the empty queue change nothing. *)
Theorem runLoop_first_in_first_out codec (bodies : list Body) (times idle : list Z) w :
  Redis.lists (redis w) !! QUEUE = None ->
  length times = length (accepted bodies) ->
  (forall e, In e (accepted bodies) -> parse codec (stringify codec e) = Some e) ->
  runLoop codec (times ++ idle)
    (mkWorld (post_all codec bodies (redis w)) (store w))
  = handleAll (zip times (accepted bodies)) w.
Proof.
  intros Hfresh Hlen Hcodec. destruct w as [r db]. cbn [redis store] in *.
  set (tes := zip times (accepted bodies)).
  assert (Hfst : List.map fst tes = times)
    by (subst tes; apply fst_zip; lia).
  assert (Hsnd : List.map snd tes = accepted bodies)
    by (subst tes; apply snd_zip; lia).
  assert (Hq : post_all codec bodies r
               = with_queue (rev (List.map (stringify codec) (List.map snd tes))) r).
  { rewrite Hsnd. destruct (post_all_queue codec bodies r) as [->|[Hnil ->]].
    - unfold Redis.list_at. now rewrite Hfresh, app_nil_r.
    - rewrite Hnil. cbn. symmetry. now apply with_queue_absent. }
  rewrite Hq, <- Hfst. unfold runLoop. rewrite fold_left_app.
  fold (runLoop codec (List.map fst tes)
          (mkWorld (with_queue (rev (List.map (stringify codec) (List.map snd tes))) r) db)).
  rewrite runLoop_drains.
  2:{ intros te Hte. apply Hcodec. rewrite <- Hsnd. now apply in_map. }
  assert (Hdone : Redis.lists (redis (handleAll tes (mkWorld r db))) !! QUEUE = None)
    by now rewrite lists_handleAll_queue.
  rewrite with_queue_absent by assumption.
  assert (Heta : mkWorld (redis (handleAll tes (mkWorld r db)))
                         (store (handleAll tes (mkWorld r db)))
                 = handleAll tes (mkWorld r db))
    by now destruct (handleAll tes (mkWorld r db)).
  rewrite Heta.
  induction idle as [|t idle IH]; [reflexivity|].
  cbn [fold_left]. now rewrite iteration_idle.
Qed.

Lemma runLoop_first_in_first_out_witness :
  runLoop click_codec ([1; 2] ++ [3])
    (mkWorld (post_all click_codec three_posts (redis shoe_world)) (store shoe_world))
  = handleAll (zip [1; 2] (accepted three_posts)) shoe_world.
Proof.
  apply (runLoop_first_in_first_out click_codec three_posts [1; 2] [3] shoe_world).
  - reflexivity.
  - reflexivity.
  - intros e [<-|[<-|[]]]; reflexivity.
Defined.

(** The refused post of [three_posts] is answered with 400 and the queue
    holds the two accepted clicks, the newest first. *)
Example handler_refuses_sessionless :
  fst (handler click_codec "POST" (Object Absent Absent (Str "P9") (Str "CLICK")) Redis.empty)
  = BadRequest400
  /\ Redis.list_at QUEUE (post_all click_codec three_posts Redis.empty)
     = ["P2"; "P1"]%string.
Proof. split; reflexivity. Qed.

End QueueOrder.

(** ** What the popularity pass writes and what it leaves alone *)

Section PopularityMirror.

Import Store FeatureWorker.
Local Open Scope Q_scope.

(** The loop over rows with distinct, existing products: every row leaves
    its score on the product, in the global sorted set and in the cached
    meta; what has no row is left as it was. *)
Lemma writeRows_mirror rows : forall w,
  NoDup (List.map fst rows) ->
  (forall pid, In pid (List.map fst rows) -> is_Some (products (store w) !! pid)) ->
  exists w',
    writeRows rows w = Returned w'
    /\ (forall pid s, In (pid, s) rows ->
          exists p, products (store w) !! pid = Some p
            /\ products (store w') !! pid = Some (with_popularity s p)
            /\ zscore KEYS.globalTop pid (redis w') = Some s
            /\ Redis.metaHash (redis w') !! pid
               = Some (mkMeta (p_title p) (p_merchantId p) (p_productCategoryId p) (Some s)))
    /\ (forall pid, ~ In pid (List.map fst rows) ->
          products (store w') !! pid = products (store w) !! pid
          /\ zscore KEYS.globalTop pid (redis w') = zscore KEYS.globalTop pid (redis w)
          /\ Redis.metaHash (redis w') !! pid = Redis.metaHash (redis w) !! pid).
Proof.
  induction rows as [|[pid s] rows IH]; intros w Hnd Hex.
  - exists w. split; [reflexivity|]. split; [intros ? ? []|now intros].
  - simpl List.map in Hnd. apply NoDup_cons in Hnd as [Hpid Hnd].
    destruct (Hex pid) as [p Hp]; [now left|].
    pose proof (writeRow_effect pid s w p Hp) as Hrow.
    set (w1 := mkWorld _ _) in Hrow.
    destruct (IH w1 Hnd) as (w' & Hrun & Hin & Hout).
    { intros k Hk. subst w1. cbn [store products].
      destruct (decide (pid = k)) as [->|Hne].
      - rewrite lookup_insert_eq. eauto.
      - rewrite lookup_insert_ne by assumption. apply Hex. now right. }
    exists w'. cbn [writeRows]. rewrite Hrow. split; [exact Hrun|]. split.
    + intros k s' [[= -> ->]|Hk].
      * destruct (Hout k) as (H1 & H2 & H3); [now rewrite <- list_elem_of_In|].
        exists p. split; [exact Hp|]. rewrite H1, H2, H3. subst w1. cbn [store redis products].
        split; [apply lookup_insert_eq|]. split.
        -- unfold zscore, Redis.hset_meta. cbn [Redis.zsets].
           apply zscore_zadd_same.
        -- unfold Redis.hset_meta. cbn [Redis.metaHash]. apply lookup_insert_eq.
      * destruct (Hin k s' Hk) as (p' & Hp' & H1 & H2 & H3).
        assert (Hne : pid ≠ k).
        { intros ->. apply Hpid. rewrite list_elem_of_In.
          change k with (fst (k, s')). now apply in_map. }
        subst w1. cbn [store products] in Hp'.
        rewrite lookup_insert_ne in Hp' by assumption.
        exists p'. repeat split; assumption.
    + intros k Hk.
      assert (Hne : pid ≠ k) by (intros ->; apply Hk; now left).
      destruct (Hout k) as (H1 & H2 & H3); [intros H; apply Hk; now right|].
      rewrite H1, H2, H3. subst w1. cbn [store redis products].
      split; [now apply lookup_insert_ne|]. split.
      * unfold zscore, Redis.hset_meta. cbn [Redis.zsets].
        apply zscore_zadd_other. now right.
      * unfold Redis.hset_meta. cbn [Redis.metaHash]. now apply lookup_insert_ne.
Qed.

(** After a pass over a log whose interactions all refer to existing
    products, the store, the global top-K and the meta cache agree on every
    product that has a row: the product carries the row's score as its
    popularity with title, merchant and category untouched, ZSCORE of
    global:topk gives the same score, and the cached meta is the product's;
    a product without a row keeps its popularity and its cache entries. *)
Theorem popularity_mirrored now w :
  (forall i, In i (interactions (store w)) ->
             is_Some (products (store w) !! i_productId i)) ->
  exists w',
    computeProductPopularity now w = Returned w'
    /\ (forall pid s, In (pid, s) (popularityRows now (store w)) ->
          exists p, products (store w) !! pid = Some p
            /\ products (store w') !! pid = Some (with_popularity s p)
            /\ zscore KEYS.globalTop pid (redis w') = Some s
            /\ Redis.metaHash (redis w') !! pid
               = Some (mkMeta (p_title p) (p_merchantId p) (p_productCategoryId p) (Some s)))
    /\ (forall pid, ~ In pid (List.map fst (popularityRows now (store w))) ->
          products (store w') !! pid = products (store w) !! pid
          /\ zscore KEYS.globalTop pid (redis w') = zscore KEYS.globalTop pid (redis w)
          /\ Redis.metaHash (redis w') !! pid = Redis.metaHash (redis w) !! pid).
Proof.
  intros Hfk. unfold computeProductPopularity.
  apply writeRows_mirror.
  - apply popularityRows_NoDup.
  - intros k Hk. apply row_has_hit in Hk as (i & Hi & <-). now apply Hfk.
Qed.

Lemma popularity_mirrored_witness :
  exists w',
    computeProductPopularity 1000 busy_world = Returned w'
    /\ zscore KEYS.globalTop "P1" (redis w') = Some (0.5 * 1 + 8 * 1).
Proof.
  destruct (popularity_mirrored 1000 busy_world) as (w' & Hrun & Hin & _).
  - intros i [<-|[<-|[]]]; simpl; rewrite lookup_singleton_eq; eauto.
  - exists w'. split; [exact Hrun|].
    destruct (Hin "P1"%string (0.5 * 1 + 8 * 1)) as (p & _ & _ & Hz & _);
      [vm_compute; now left|exact Hz].
Defined.

(** Whether a run returns or throws, it never touches the interaction log,
    the lists, the posteriors or any sorted set but global:topk, it neither
    adds nor removes a product, and it leaves title, description, merchant
    and category of every product as they were. *)
Theorem computeProductPopularity_frame now w :
  let w' := final (computeProductPopularity now w) in
  interactions (store w') = interactions (store w)
  /\ Redis.lists (redis w') = Redis.lists (redis w)
  /\ Redis.hashes (redis w') = Redis.hashes (redis w)
  /\ (forall key, key ≠ KEYS.globalTop ->
        Redis.zsets (redis w') !! key = Redis.zsets (redis w) !! key)
  /\ (forall pid, identity_of <$> (products (store w') !! pid)
                  = identity_of <$> (products (store w) !! pid)).
Proof.
  unfold computeProductPopularity.
  generalize (popularityRows now (store w)) as rows. intros rows. revert w.
  induction rows as [|[pid s] rows IH]; intros w; cbn [writeRows final].
  - repeat split; reflexivity.
  - destruct (products (store w) !! pid) as [p|] eqn:Hp.
    + rewrite (writeRow_effect pid s w p Hp).
      set (w1 := mkWorld _ _).
      destruct (IH w1) as (H1 & H2 & H3 & H4 & H5). cbv zeta.
      rewrite H1, H2, H3. subst w1. cbn [store redis interactions].
      split; [reflexivity|]. split; [reflexivity|]. split; [reflexivity|]. split.
      * intros key Hkey. rewrite H4 by assumption. cbn [redis].
        unfold Redis.hset_meta, Redis.zadd. cbn [Redis.zsets Redis.with_zsets].
        apply lookup_insert_ne. congruence.
      * intros k. rewrite H5. cbn [store products].
        destruct (decide (pid = k)) as [->|Hne].
        -- rewrite lookup_insert_eq, Hp. reflexivity.
        -- now rewrite lookup_insert_ne.
    + rewrite (writeRow_missing pid s w Hp). cbn [final].
      repeat split; reflexivity.
Qed.

(** A row for a product that is not in the table makes the run throw at
    the first such row in the order of the query: the rows before it are
    written (popularity, global sorted set and cached meta), and neither
    the failing row nor any row after it is: their products, their scores in
    the sorted set and their cached metas stay as they were. *)
Theorem computeProductPopularity_throws now w pid s :
  In (pid, s) (popularityRows now (store w)) ->
  products (store w) !! pid = None ->
  exists before k sk after w',
    popularityRows now (store w) = before ++ (k, sk) :: after
    /\ (forall row, In row before -> is_Some (products (store w) !! fst row))
    /\ products (store w) !! k = None
    /\ computeProductPopularity now w = Threw w'
    /\ (forall j sj, In (j, sj) before ->
          exists p, products (store w) !! j = Some p
            /\ products (store w') !! j = Some (with_popularity sj p)
            /\ zscore KEYS.globalTop j (redis w') = Some sj
            /\ Redis.metaHash (redis w') !! j
               = Some (mkMeta (p_title p) (p_merchantId p) (p_productCategoryId p) (Some sj)))
    /\ (forall j sj, In (j, sj) ((k, sk) :: after) ->
          products (store w') !! j = products (store w) !! j
          /\ zscore KEYS.globalTop j (redis w') = zscore KEYS.globalTop j (redis w)
          /\ Redis.metaHash (redis w') !! j = Redis.metaHash (redis w) !! j).
Proof.
  intros Hrow Hnone. unfold computeProductPopularity.
  pose proof (popularityRows_NoDup now (store w)) as Hnd.
  destruct (reached_split (products (store w)) _ pid s Hrow Hnone)
    as (k & sk & after & Hsplit & Hk).
  destruct (writeRows_reached (popularityRows now (store w)) w Hnd)
    as (w' & Hrun & Hin & Hout).
  set (before := reached (products (store w)) (popularityRows now (store w))) in *.
  exists before, k, sk, after, w'.
  split; [exact Hsplit|]. split; [intros row; apply reached_exist|].
  split; [exact Hk|]. split; [|split].
  - destruct Hrun as [[E _]|[_ R]]; [|exact R].
    exfalso. apply (f_equal (@length _)) in Hsplit.
    rewrite length_app, E in Hsplit. cbn [length] in Hsplit. lia.
  - exact Hin.
  - intros j sj Hj. apply Hout. intros Hb.
    rewrite Hsplit, map_app in Hnd. apply NoDup_app in Hnd as (_ & Hdisj & _).
    apply (Hdisj j); [now apply list_elem_of_In|].
    apply list_elem_of_In. change j with (fst (j, sj)). now apply in_map.
Qed.

Lemma computeProductPopularity_throws_witness :
  exists before k sk after w',
    popularityRows 1000 (store late_orphan_world) = before ++ (k, sk) :: after
    /\ (forall row, In row before ->
          is_Some (products (store late_orphan_world) !! fst row))
    /\ products (store late_orphan_world) !! k = None
    /\ computeProductPopularity 1000 late_orphan_world = Threw w'
    /\ (forall j sj, In (j, sj) before ->
          exists p, products (store late_orphan_world) !! j = Some p
            /\ products (store w') !! j = Some (with_popularity sj p)
            /\ zscore KEYS.globalTop j (redis w') = Some sj
            /\ Redis.metaHash (redis w') !! j
               = Some (mkMeta (p_title p) (p_merchantId p) (p_productCategoryId p) (Some sj)))
    /\ (forall j sj, In (j, sj) ((k, sk) :: after) ->
          products (store w') !! j = products (store late_orphan_world) !! j
          /\ zscore KEYS.globalTop j (redis w')
             = zscore KEYS.globalTop j (redis late_orphan_world)
          /\ Redis.metaHash (redis w') !! j
             = Redis.metaHash (redis late_orphan_world) !! j).
Proof.
  apply (computeProductPopularity_throws 1000 late_orphan_world "P9" (3 * 1)).
  - vm_compute. right. now left.
  - reflexivity.
Defined.

(** In [late_orphan_world] the rows are P1, P9 and P2 by score; P1 is
    written, the run throws at P9, and P2 keeps the popularity 0. *)
Example computeProductPopularity_stops_at_P9 :
  popularityRows 1000 (store late_orphan_world)
  = [("P1"%string, 8 * 1); ("P9"%string, 3 * 1); ("P2"%string, 0.5 * 1)]
  /\ exists w', computeProductPopularity 1000 late_orphan_world = Threw w'
       /\ p_popularity <$> (products (store w') !! "P1"%string) = Some (8 * 1)
       /\ p_popularity <$> (products (store w') !! "P2"%string) = Some 0.
Proof.
  split; [vm_compute; reflexivity|].
  eexists. split; [vm_compute; reflexivity|]. split; vm_compute; reflexivity.
Qed.

End PopularityMirror.

(** ** The merchant pass of the feature worker *)

Section MerchantPopularity.

Import Store FeatureWorker MerchantWorker.
Local Open Scope Q_scope.

Lemma entries_of_snoc k xs x :
  entries_of k (xs ++ [x])
  = entries_of k xs ++ (if String.eqb (fst x) k then [snd x] else []).
Proof.
  unfold entries_of. rewrite List.filter_app, List.map_app. simpl.
  now destruct (String.eqb (fst x) k).
Qed.

(** Grouping keyed numbers: the group of a key holds the sum of its
    entries, and a key without entry has no group. *)
Lemma group_fold_spec (xs : list (string * Q)) k :
  match assoc k (fold_left (fun rows x => add_to_group (fst x) (snd x) rows) xs []) with
  | Some s => s == sumQ (entries_of k xs)
  | None => entries_of k xs = []
  end.
Proof.
  induction xs as [|[k' v] xs IH] using rev_ind; [reflexivity|].
  rewrite fold_left_app, entries_of_snoc. cbn [fold_left fst snd].
  destruct (String.eqb_spec k' k) as [->|Hne].
  - rewrite assoc_add_same.
    destruct (assoc k _) as [s|].
    + rewrite sumQ_app, IH. simpl. ring.
    + rewrite IH. simpl. ring.
  - rewrite assoc_add_other by assumption. rewrite app_nil_r. exact IH.
Qed.

Lemma entries_of_joined since db mid :
  entries_of mid (joined since db)
  = List.map (fun i => typeWeight (i_type i)) (merchant_hits since db mid).
Proof.
  unfold entries_of, joined, merchant_hits.
  induction (interactions db) as [|i log IH]; [reflexivity|].
  cbn [omap list_omap List.filter].
  destruct (in_window since i); cbn [andb]; [|exact IH].
  destruct (products db !! i_productId i) as [p|]; [|exact IH].
  cbn [List.filter fst]. destruct (String.eqb (p_merchantId p) mid); cbn; now rewrite IH.
Qed.

Lemma merchantScore_weight since db mid :
  merchantScore since db mid == merchant_weight since db mid.
Proof.
  unfold merchantScore, merchant_weight, scoresByMerchant.
  pose proof (group_fold_spec (joined since db) mid) as H. unfold assoc in H.
  rewrite <- entries_of_joined.
  destruct (List.find _ _) as [row|]; cbn in H |- *.
  - exact H.
  - rewrite H. reflexivity.
Qed.

(** The loop over rows with distinct ids that are all in the table. *)
Lemma updateAll_spec rows : forall merchants : gmap string Q,
  NoDup (List.map fst rows) ->
  (forall k, In k (List.map fst rows) -> is_Some (merchants !! k)) ->
  exists merchants',
    updateAll rows merchants = inr merchants'
    /\ (forall k s, In (k, s) rows -> merchants' !! k = Some s)
    /\ (forall k, ~ In k (List.map fst rows) -> merchants' !! k = merchants !! k).
Proof.
  induction rows as [|[k s] rows IH]; intros merchants Hnd Hex.
  - exists merchants. split; [reflexivity|]. split; [intros ? ? []|reflexivity].
  - simpl List.map in Hnd. apply NoDup_cons in Hnd as [Hk Hnd].
    destruct (Hex k) as [old Hold]; [now left|].
    destruct (IH (<[k := s]> merchants) Hnd) as (m' & Hrun & Hin & Hout).
    { intros k' Hk'. simpl in Hk'. destruct (decide (k = k')) as [->|Hne].
      - rewrite lookup_insert_eq. eauto.
      - rewrite lookup_insert_ne by assumption. apply Hex. now right. }
    exists m'. cbn [updateAll]. unfold merchant_update. cbn [fst snd].
    unfold Merchants in *. rewrite Hold. split; [exact Hrun|]. split.
    + intros k' s' [[= -> ->]|Hk'].
      * rewrite Hout; [apply lookup_insert_eq|now rewrite <- list_elem_of_In].
      * now apply Hin.
    + intros k' Hk'. rewrite Hout by (intros H; apply Hk'; now right).
      apply lookup_insert_ne. intros ->. apply Hk'. now left.
Qed.

Lemma merchantRows_perm now db merchants :
  (size merchants <= LIMIT)%nat ->
  Permutation (merchantRows now db merchants)
    (List.map (fun m => (fst m, merchantScore (now - window) db (fst m)))
              (map_to_list merchants)).
Proof.
  intros Hsize. unfold merchantRows.
  rewrite take_ge; [apply sort_by_perm|].
  rewrite (Permutation_length (sort_by_perm _ _)), length_map.
  unfold Merchants in *. now rewrite length_map_to_list.
Qed.

(** With at most 10000 merchants the merchant pass returns, and afterwards
    every merchant of the table carries the sum of the type weights of the
    window's interactions on its products (their value column does not
    count, and a merchant without such interactions gets 0); no merchant is
    added. *)
Theorem computeMerchantPopularity_sums now db merchants :
  (size merchants <= LIMIT)%nat ->
  exists merchants',
    computeMerchantPopularity now db merchants = inr merchants'
    /\ forall mid,
         match merchants !! mid with
         | Some _ => exists s, merchants' !! mid = Some s
                       /\ s == merchant_weight (now - window) db mid
         | None => merchants' !! mid = None
         end.
Proof.
  intros Hsize. pose proof (merchantRows_perm now db merchants Hsize) as Hperm.
  assert (Hkeys : List.map fst (merchantRows now db merchants)
                  ≡ₚ List.map fst (map_to_list merchants)).
  { rewrite Hperm, List.map_map. cbn [fst]. reflexivity. }
  destruct (updateAll_spec (merchantRows now db merchants) merchants)
    as (m' & Hrun & Hin & Hout).
  - rewrite Hkeys. apply (NoDup_fst_map_to_list merchants).
  - intros k Hk. apply list_elem_of_In in Hk. rewrite Hkeys in Hk.
    apply list_elem_of_fmap in Hk as ([k' v] & -> & Hk).
    apply elem_of_map_to_list in Hk. eauto.
  - exists m'. split; [exact Hrun|]. intros mid.
    destruct (merchants !! mid) as [old|] eqn:Hold.
    + exists (merchantScore (now - window) db mid). split.
      * apply Hin. apply (Permutation_in _ (Permutation_sym Hperm)).
        apply in_map_iff. exists (mid, old). split; [reflexivity|].
        apply list_elem_of_In. now apply elem_of_map_to_list.
      * apply merchantScore_weight.
    + rewrite Hout; [exact Hold|].
      intros Hk. apply list_elem_of_In in Hk. rewrite Hkeys in Hk.
      apply list_elem_of_fmap in Hk as ([k' v] & -> & Hk).
      apply elem_of_map_to_list in Hk. simpl in Hold.
      unfold Merchants in *. congruence.
Qed.

Lemma computeMerchantPopularity_sums_witness :
  exists merchants',
    computeMerchantPopularity 1000 (store busy_world) two_merchants = inr merchants'
    /\ (exists s, merchants' !! "M"%string = Some s /\ s == 0.5 + 8)
    /\ (exists s, merchants' !! "N"%string = Some s /\ s == 0).
Proof.
  destruct (computeMerchantPopularity_sums 1000 (store busy_world) two_merchants)
    as (m' & Hrun & Hall).
  - apply Nat.leb_le. vm_compute. reflexivity.
  - exists m'. split; [exact Hrun|]. split.
    + destruct (Hall "M"%string) as (s & Hs & Heq). exists s. split; [exact Hs|].
      rewrite Heq. vm_compute. reflexivity.
    + destruct (Hall "N"%string) as (s & Hs & Heq). exists s. split; [exact Hs|].
      rewrite Heq. vm_compute. reflexivity.
Defined.

End MerchantPopularity.

(** ** The top-K of the CF worker, as computed and as read back *)

Section TopScores.

Import CFWorker Recommender.
Local Open Scope Q_scope.

Lemma Qltb_false (x y : Q) : JS.Qltb x y = false -> y <= x.
Proof.
  unfold JS.Qltb. intros H. apply negb_false_iff in H. now apply Qle_bool_iff.
Qed.

Lemma Qltb_true (x y : Q) : JS.Qltb x y = true -> x <= y.
Proof.
  unfold JS.Qltb. intros H. apply negb_true_iff in H.
  destruct (Qlt_le_dec x y) as [Hlt|Hle]; [now apply Qlt_le_weak|].
  apply Qle_bool_iff in Hle. congruence.
Qed.

Section SortedByKey.

Context {A : Type} (key : A -> Q).

Lemma insert_by_descending (x : A) l :
  descending_by key l ->
  descending_by key (JS.insert_by (fun y x => JS.Qltb (key x) (key y)) x l).
Proof.
  unfold descending_by. induction 1 as [|y l Hl IH Hy]; cbn [JS.insert_by].
  - constructor; constructor.
  - destruct (JS.Qltb (key x) (key y)) eqn:E.
    + constructor; [exact IH|].
      rewrite Forall_forall. intros z Hz. apply list_elem_of_In in Hz.
      apply (Permutation_in _ (insert_by_perm _ _ _)) in Hz.
      destruct Hz as [<-|Hz]; [now apply Qltb_true|].
      rewrite Forall_forall in Hy. apply Hy. now apply list_elem_of_In.
    + apply Qltb_false in E. constructor; [now constructor|].
      constructor; [exact E|].
      rewrite Forall_forall in Hy |- *. intros z Hz.
      apply Qle_trans with (key y); [now apply Hy|exact E].
Qed.

Lemma sort_by_descending (l : list A) :
  descending_by key (JS.sort_by (fun y x => JS.Qltb (key x) (key y)) l).
Proof.
  induction l as [|x l IH]; cbn [JS.sort_by]; [constructor|].
  now apply insert_by_descending.
Qed.



Lemma descending_head x l y :
  descending_by key (x :: l) -> In y (x :: l) -> key y <= key x.
Proof.
  unfold descending_by. intros H [<-|Hy]; [apply Qle_refl|].
  apply StronglySorted_inv in H as [_ H]. rewrite Forall_forall in H.
  apply H. now apply list_elem_of_In.
Qed.

End SortedByKey.


Lemma userTopK_inj (u1 u2 : string) : KEYS.userTopK u1 = KEYS.userTopK u2 -> u1 = u2.
Proof. unfold KEYS.userTopK. apply String.app_inj. Qed.

Lemma topScores_keys uvec productFactors :
  NoDup (List.map fst productFactors) ->
  NoDup (List.map fst (topScores uvec productFactors)).
Proof.
  intros Hnd. unfold topScores.
  eapply sublist_NoDup; [|apply fmap_sublist, sublist_take].
  eapply NoDup_Permutation_proper;
    [apply (fmap_Permutation fst), sort_by_perm|].
  change (NoDup (List.map fst (List.map (fun pv => (fst pv, dot uvec (snd pv))) productFactors))).
  rewrite List.map_map. exact Hnd.
Qed.

Lemma topScores_nonempty uvec productFactors :
  productFactors ≠ [] -> topScores uvec productFactors ≠ [].
Proof.
  intros Hne Htop. apply Hne. unfold topScores in Htop.
  apply (f_equal (@length _)) in Htop. rewrite length_take in Htop.
  rewrite (Permutation_length (sort_by_perm _ _)), length_map in Htop.
  destruct productFactors; [reflexivity|]. cbn in Htop. discriminate.
Qed.

(** The pairs of a sorted set built from pairs with distinct members. *)
Lemma zset_of_lookup top :
  NoDup (List.map fst top) ->
  forall pid s, zset_of top !! pid = Some s <-> In (pid, s) top.
Proof.
  unfold zset_of, zargs. induction top as [|[p v] top IH] using rev_ind; intros Hnd pid s.
  - cbn. rewrite lookup_empty. split; [discriminate|tauto].
  - rewrite List.map_app in Hnd |- *. cbn [List.map fst snd] in Hnd |- *.
    rewrite fold_left_app. cbn [fold_left fst snd].
    apply NoDup_app in Hnd as (Hnd & Hfresh & _).
    rewrite in_app_iff. destruct (decide (p = pid)) as [->|Hne].
    + rewrite lookup_insert_eq. split.
      * intros [= ->]. right. now left.
      * intros [Hin|[[= ->]|[]]]; [|reflexivity].
        exfalso. apply (Hfresh pid); [|now left].
        apply list_elem_of_In. change pid with (fst (pid, s)). now apply in_map.
    + rewrite lookup_insert_ne by assumption. rewrite IH by assumption.
      split; [tauto|]. intros [Hin|[[= -> _]|[]]]; [exact Hin|contradiction].
Qed.

Lemma zset_of_list top :
  NoDup (List.map fst top) -> Permutation (map_to_list (zset_of top)) top.
Proof.
  intros Hnd. apply NoDup_Permutation.
  - apply NoDup_map_to_list.
  - eapply NoDup_fmap_1. exact Hnd.
  - intros [pid s]. rewrite elem_of_map_to_list, list_elem_of_In.
    now apply zset_of_lookup.
Qed.

(** One user's replacement, once all its commands have run. *)
Lemma writeTop_zsets uid top r :
  Redis.zsets (run_cmds (writeTop uid top) r)
  = match top with
    | [] => Redis.zsets r
    | _ => <[KEYS.userTopK uid := zset_of top]> (delete (KEYS.userTopK uid) (Redis.zsets r))
    end.
Proof.
  destruct top as [|ps top]; [reflexivity|].
  rewrite writeTop_cons. cbn [run_cmds fold_left]. unfold Redis.expire, Redis.zadd.
  cbn [zargs List.map Redis.with_zsets Redis.zsets Redis.del].
  rewrite lookup_delete_eq. reflexivity.
Qed.

Lemma writeTop_other uid uid' top r :
  uid ≠ uid' ->
  Redis.zsets (run_cmds (writeTop uid top) r) !! KEYS.userTopK uid'
  = Redis.zsets r !! KEYS.userTopK uid'.
Proof.
  intros Hne. rewrite writeTop_zsets. destruct top; [reflexivity|].
  assert (KEYS.userTopK uid ≠ KEYS.userTopK uid')
    by (intros H; now apply userTopK_inj in H).
  rewrite lookup_insert_ne, lookup_delete_ne by assumption. reflexivity.
Qed.

Lemma run_cmds_app cmds1 cmds2 r :
  run_cmds (cmds1 ++ cmds2) r = run_cmds cmds2 (run_cmds cmds1 r).
Proof. unfold run_cmds. apply fold_left_app. Qed.

Lemma publishTopK_cons uv userFactors productFactors r :
  run_cmds (publishTopK (uv :: userFactors) productFactors) r
  = run_cmds (publishTopK userFactors productFactors)
      (run_cmds (writeTop (fst uv) (topScores (snd uv) productFactors)) r).
Proof. unfold publishTopK. cbn [List.map concat]. apply run_cmds_app. Qed.

Lemma publishTopK_other userFactors productFactors uid : forall r,
  ~ In uid (List.map fst userFactors) ->
  Redis.zsets (run_cmds (publishTopK userFactors productFactors) r) !! KEYS.userTopK uid
  = Redis.zsets r !! KEYS.userTopK uid.
Proof.
  induction userFactors as [|[u v] users IH]; intros r Hout; [reflexivity|].
  rewrite publishTopK_cons, IH by (intros H; apply Hout; now right).
  cbn [fst snd]. apply writeTop_other. intros ->. apply Hout. now left.
Qed.

Lemma publishTopK_zset userFactors productFactors uid uvec : forall r,
  NoDup (List.map fst userFactors) ->
  productFactors ≠ [] ->
  In (uid, uvec) userFactors ->
  Redis.zsets (run_cmds (publishTopK userFactors productFactors) r) !! KEYS.userTopK uid
  = Some (zset_of (topScores uvec productFactors)).
Proof.
  intros r Hnd Hne. revert r Hnd.
  induction userFactors as [|[u v] users IH]; intros r Hnd Hin; [destruct Hin|].
  cbn [List.map fst] in Hnd. apply NoDup_cons in Hnd as [Hu Hnd].
  rewrite publishTopK_cons. destruct Hin as [[= -> ->]|Hin].
  - rewrite publishTopK_other by (now rewrite <- list_elem_of_In).
    cbn [fst snd]. rewrite writeTop_zsets.
    pose proof (topScores_nonempty uvec productFactors Hne) as Htop.
    destruct (topScores uvec productFactors); [congruence|].
    apply lookup_insert_eq.
  - now apply IH.
Qed.

(** The round trip from the CF worker to the recommender: once the
    publishing loop has run over users with distinct ids and a non-empty
    set of product vectors with distinct ids, what the recommender reads as
    the top-K of a trained user (with a non-empty id) is that user's best
    products and their scores, whatever was stored under the key before:
    the same pairs as [topScores], in the order of ZREVRANGE. *)
Theorem publishTopK_read_back userFactors productFactors uid uvec r :
  NoDup (List.map fst userFactors) ->
  NoDup (List.map fst productFactors) ->
  productFactors ≠ [] ->
  In (uid, uvec) userFactors ->
  uid ≠ EmptyString ->
  Permutation
    (getPrecomputedUserTop (Some uid) CANDIDATE_K
       (run_cmds (publishTopK userFactors productFactors) r))
    (topScores uvec productFactors).
Proof.
  intros Hus Hps Hne Hin Huid.
  unfold getPrecomputedUserTop, JS.truthy.
  destruct (String.eqb_spec uid EmptyString) as [->|_]; [congruence|].
  cbn [negb]. unfold Redis.zrevrange. simpl (default EmptyString (Some uid)).
  rewrite (publishTopK_zset _ _ _ _ r Hus Hne Hin). cbn [from_option].
  unfold Datatypes.id.
  pose proof (zset_of_list _ (topScores_keys uvec productFactors Hps)) as Hperm.
  rewrite drop_0, take_ge.
  - rewrite sort_by_perm. exact Hperm.
  - rewrite (Permutation_length (sort_by_perm _ _)), (Permutation_length Hperm).
    unfold topScores. rewrite length_take.
    change (S (CANDIDATE_K - 1) - 0)%nat with TOPK. apply Nat.le_min_l.
Qed.

Lemma publishTopK_read_back_witness :
  Permutation
    (getPrecomputedUserTop (Some "V"%string) CANDIDATE_K
       (run_cmds (publishTopK two_users three_factors) old_top_store))
    (topScores [0; 3] three_factors).
Proof.
  apply (publishTopK_read_back two_users three_factors "V" [0; 3] old_top_store).
  - apply (bool_decide_unpack _). vm_compute. exact I.
  - apply (bool_decide_unpack _). vm_compute. exact I.
  - discriminate.
  - right. now left.
  - discriminate.
Defined.

(** A user that the loop does not write keeps the top-K it had. *)
Theorem publishTopK_other_users userFactors productFactors uid r :
  ~ In uid (List.map fst userFactors) ->
  getPrecomputedUserTop (Some uid) CANDIDATE_K
    (run_cmds (publishTopK userFactors productFactors) r)
  = getPrecomputedUserTop (Some uid) CANDIDATE_K r.
Proof.
  intros Hout. apply reads_zset. now apply publishTopK_other.
Qed.

Lemma publishTopK_other_users_witness :
  getPrecomputedUserTop (Some "W"%string) CANDIDATE_K
    (run_cmds (publishTopK two_users three_factors) old_top_store)
  = getPrecomputedUserTop (Some "W"%string) CANDIDATE_K old_top_store.
Proof.
  apply (publishTopK_other_users two_users three_factors "W" old_top_store).
  intros [H|[H|[]]]; discriminate H.
Defined.

End TopScores.

(** ** What the diversity re-ranker keeps in place *)

Section DiversityOrder.

Import Diversity.
Local Open Scope nat_scope.

Lemma step_out opts mMax cMax st st' :
  step opts mMax cMax st = Some st' ->
  exists picked, In picked (pool st) /\ out st' = out st ++ [picked].
Proof.
  unfold step. destruct (pickFrom _ 0 (pool st)) as [j|].
  - destruct (pool st !! j) as [picked|] eqn:Hj; [|discriminate].
    intros [= <-]. exists picked. split; [|reflexivity].
    apply list_elem_of_In. eapply list_elem_of_lookup_2. exact Hj.
  - destruct (pool st) as [|top rest]; [discriminate|].
    intros [= <-]. exists top. split; [now left|reflexivity].
Qed.

(** The loop only appends to the output it starts with. *)
Lemma loop_extends opts N mMax cMax : forall fuel st res,
  loop fuel opts N mMax cMax st = Some res -> exists more, res = out st ++ more.
Proof.
  induction fuel as [|fuel IH]; intros st res; cbn [loop];
    destruct (negb _ && _)%bool.
  - discriminate.
  - intros [= <-]. exists []. now rewrite app_nil_r.
  - destruct (step opts mMax cMax st) as [st'|] eqn:Hstep; [|discriminate].
    intros Hres. apply IH in Hres as (more & ->).
    apply step_out in Hstep as (picked & _ & ->).
    exists (picked :: more). now rewrite <- app_assoc.
  - intros [= <-]. exists []. now rewrite app_nil_r.
Qed.

Lemma pickFrom_none ok (pool : list Item) : forall i,
  (forall c, In c pool -> ok c = false) -> pickFrom ok i pool = None.
Proof.
  induction pool as [|c pool IH]; intros i Hall; cbn [pickFrom]; [reflexivity|].
  rewrite (Hall c) by now left. apply IH. intros c' Hc'. apply Hall. now right.
Qed.

(** With nothing placed yet, the test does not tell candidates apart. *)
Lemma acceptable_fresh opts mMax cMax (items : list Item) c1 c2 :
  acceptable opts mMax cMax (mkState ∅ ∅ [] items) c1
  = acceptable opts mMax cMax (mkState ∅ ∅ [] items) c2.
Proof.
  unfold acceptable, lastViolates, JS.slice_from. cbn [out merchantCount categoryCount].
  rewrite drop_nil, !lookup_empty. reflexivity.
Qed.

Lemma step_first opts mMax cMax x l :
  exists st',
    step opts mMax cMax (mkState ∅ ∅ [] (x :: l)) = Some st'
    /\ out st' = [x] /\ pool st' = l.
Proof.
  unfold step. cbn [pool pickFrom out].
  destruct (acceptable opts mMax cMax (mkState ∅ ∅ [] (x :: l)) x) eqn:E.
  - eexists. split; [reflexivity|]. split; reflexivity.
  - rewrite pickFrom_none.
    + eexists. split; [reflexivity|]. split; reflexivity.
    + intros c _. now rewrite (acceptable_fresh _ _ _ _ c x).
Qed.

Lemma ensureDiversity_cons x l opts :
  exists rest, ensureDiversity (x :: l) opts = Some (x :: rest) /\ Permutation rest l.
Proof.
  unfold ensureDiversity, ensureDiversity_fuel. cbv zeta.
  set (mMax := Qceiling _). set (cMax := Qceiling _).
  change (length (x :: l)) with (S (length l)). cbn [loop pool out length].
  cbn [Nat.eqb negb andb]. change (Nat.ltb 0 (S (length l))) with true. cbv iota.
  destruct (step_first opts mMax cMax x l) as (st' & -> & Hout & Hpool).
  destruct (loop_returns opts (S (length l)) mMax cMax (length l) st')
    as (res & Hres & Hperm).
  - now rewrite Hpool.
  - rewrite Hout, Hpool. reflexivity.
  - rewrite Hres. destruct (loop_extends _ _ _ _ _ _ _ Hres) as (more & ->).
    rewrite Hout, Hpool in Hperm. rewrite Hout. exists more.
    split; [reflexivity|]. now apply Permutation_cons_inv in Hperm.
Qed.

(** Whatever the options, the first item of the input is the first item
    of the output: the re-ranker never moves the best-scored item away from
    the top, and the rest is a rearrangement of the other items. *)
Theorem ensureDiversity_keeps_head x l opts :
  exists rest, ensureDiversity (x :: l) opts = Some (x :: rest) /\ Permutation rest l.
Proof. apply ensureDiversity_cons. Qed.

Lemma trunc_neg_nonpos (k : Q) : (0 < k)%Q -> (JS.trunc (- k) <= 0)%Z.
Proof.
  intros Hk. unfold JS.trunc.
  assert (Hneg : (- k < 0)%Q) by Lqa.lra.
  destruct (Qle_bool 0 (- k)) eqn:E.
  - apply Qle_bool_iff in E. Lqa.lra.
  - rewrite <- (Qceiling_Z 0). apply Qceiling_resp_le.
    change (- k <= 0)%Q. Lqa.lra.
Qed.

Lemma rel_index_last (len : nat) (i : Z) :
  (i <= 0)%Z -> 0 < len -> JS.rel_index len i < len.
Proof.
  intros Hi Hlen. unfold JS.rel_index.
  destruct (Z.ltb_spec i 0); lia.
Qed.

Lemma strict_eq_true (x y : option string) : JS.strict_eq x y = true -> x = y.
Proof.
  destruct x as [a|], y as [b|]; cbn; try discriminate; [|reflexivity].
  intros H. now apply String.eqb_eq in H as ->.
Qed.

(** With a positive run limit, a candidate of a merchant that has not been
    placed yet does not extend a run. *)
Lemma lastViolates_new_merchant opts (placed : list Item) m :
  (0 < maxSameMerchantConsecutive opts)%Q ->
  ~ In m (List.map merchantOf placed) ->
  lastViolates opts placed m = false.
Proof.
  intros Hk Hnew. unfold lastViolates, JS.slice_from.
  destruct placed as [|y placed].
  - rewrite drop_nil. cbn.
    destruct (Qle_bool _ _) eqn:E; [|reflexivity].
    apply Qle_bool_iff in E.
    assert (E' : (maxSameMerchantConsecutive opts <= 0)%Q) by exact E. Lqa.lra.
  - set (n := JS.rel_index _ _).
    assert (Hn : n < length (y :: placed)).
    { apply rel_index_last; [now apply trunc_neg_nonpos|simpl; lia]. }
    destruct (drop n (y :: placed)) as [|z rest] eqn:Hdrop.
    + apply (f_equal (@length _)) in Hdrop. rewrite length_drop in Hdrop.
      simpl in Hdrop, Hn. lia.
    + cbn [forallb].
      destruct (JS.strict_eq (v_merchantId (meta z)) m) eqn:E; [|reflexivity].
      apply strict_eq_true in E as <-.
      exfalso. apply Hnew. change (v_merchantId (meta z)) with (merchantOf z).
      apply in_map. apply (In_drop n). rewrite Hdrop. now left.
Qed.

Lemma Qceiling_pos (q : Q) : (0 < q)%Q -> (1 <= Qceiling q)%Z.
Proof.
  intros Hq. pose proof (Qle_ceiling q) as Hc.
  assert (H : (0 < inject_Z (Qceiling q))%Q) by Lqa.lra.
  change 0%Q with (inject_Z 0) in H. rewrite <- Zlt_Qlt in H. lia.
Qed.

(** The loop on a state whose placed and pooled items have pairwise
    different merchants and categories: each turn takes the head of the
    pool. *)
Lemma loop_diverse opts N mMax cMax :
  (0 < maxSameMerchantConsecutive opts)%Q -> (1 <= mMax)%Z -> (1 <= cMax)%Z ->
  forall fuel waiting placed mc cc,
    length waiting <= fuel ->
    length placed + length waiting = N ->
    NoDup (List.map merchantOf (placed ++ waiting)) ->
    NoDup (List.map categoryOf (placed ++ waiting)) ->
    (forall m, is_Some (mc !! m) -> In m (List.map merchantOf placed)) ->
    (forall c, is_Some (cc !! c) -> In c (List.map categoryOf placed)) ->
    loop fuel opts N mMax cMax (mkState mc cc placed waiting) = Some (placed ++ waiting).
Proof.
  intros Hk HmMax HcMax.
  induction fuel as [|fuel IH]; intros waiting placed mc cc Hfuel HN Hm Hc Hmc Hcc.
  - destruct waiting; [|simpl in Hfuel; lia]. cbn. now rewrite app_nil_r.
  - destruct waiting as [|x waiting]; [cbn; now rewrite app_nil_r|].
    cbn [loop pool out length Nat.eqb negb andb].
    assert (Hlt : Nat.ltb (length placed) N = true)
      by (apply Nat.ltb_lt; simpl in HN; lia).
    rewrite Hlt.
    assert (Hxm : ~ In (merchantOf x) (List.map merchantOf placed)).
    { rewrite List.map_app in Hm. apply NoDup_app in Hm as (_ & Hm & _).
      intros Hin. apply (Hm (merchantOf x)); [now apply list_elem_of_In|].
      cbn. now left. }
    assert (Hxc : ~ In (categoryOf x) (List.map categoryOf placed)).
    { rewrite List.map_app in Hc. apply NoDup_app in Hc as (_ & Hc & _).
      intros Hin. apply (Hc (categoryOf x)); [now apply list_elem_of_In|].
      cbn. now left. }
    assert (Hacc : acceptable opts mMax cMax (mkState mc cc placed (x :: waiting)) x = true).
    { unfold acceptable. cbn [out merchantCount categoryCount].
      fold (merchantOf x). fold (categoryOf x).
      rewrite (lastViolates_new_merchant opts placed (merchantOf x) Hk Hxm).
      destruct (mc !! merchantOf x) as [n|] eqn:Emc;
        [exfalso; apply Hxm, Hmc; eauto|].
      destruct (cc !! categoryOf x) as [n|] eqn:Ecc;
        [exfalso; apply Hxc, Hcc; eauto|].
      cbn [default from_option]. unfold Datatypes.id.
      destruct (Z.leb_spec mMax 0); [lia|].
      destruct (Z.leb_spec cMax 0); [lia|]. reflexivity. }
    unfold step. cbn [pool pickFrom]. rewrite Hacc. cbn [lookup list_lookup].
    cbn [out merchantCount categoryCount]. cbn [delete list_delete].
    fold (merchantOf x). fold (categoryOf x).
    rewrite IH.
    + now rewrite <- app_assoc.
    + simpl in Hfuel. lia.
    + rewrite length_app. simpl in HN |- *. lia.
    + now rewrite <- app_assoc.
    + now rewrite <- app_assoc.
    + intros m Hsome. rewrite List.map_app, in_app_iff.
      destruct (decide (merchantOf x = m)) as [<-|Hne]; [right; now left|].
      rewrite lookup_insert_ne in Hsome by assumption. left. now apply Hmc.
    + intros c Hsome. rewrite List.map_app, in_app_iff.
      destruct (decide (categoryOf x = c)) as [<-|Hne]; [right; now left|].
      rewrite lookup_insert_ne in Hsome by assumption. left. now apply Hcc.
Qed.

(** A list that is already diverse is returned as it is: with positive
    options, items of pairwise different merchants and pairwise different
    categories keep their order. *)
Theorem ensureDiversity_diverse_unchanged items opts :
  (0 < maxSameMerchantConsecutive opts)%Q ->
  (0 < maxMerchantTotalRatio opts)%Q ->
  (0 < maxCategoryTotalRatio opts)%Q ->
  NoDup (List.map merchantOf items) ->
  NoDup (List.map categoryOf items) ->
  ensureDiversity items opts = Some items.
Proof.
  intros Hk Hrm Hrc Hm Hc. unfold ensureDiversity, ensureDiversity_fuel.
  destruct items as [|x l]; [reflexivity|].
  set (items := x :: l) in *.
  assert (HN : (0 < inject_Z (Z.of_nat (length items)))%Q).
  { change 0%Q with (inject_Z 0). rewrite <- Zlt_Qlt. subst items. simpl. lia. }
  apply (loop_diverse opts (length items) _ _ Hk) with (placed := []).
  - apply Qceiling_pos. now apply Qmult_lt_0_compat.
  - apply Qceiling_pos. now apply Qmult_lt_0_compat.
  - lia.
  - reflexivity.
  - exact Hm.
  - exact Hc.
  - intros m [n Hn]. now rewrite lookup_empty in Hn.
  - intros c [n Hn]. now rewrite lookup_empty in Hn.
Qed.

Lemma ensureDiversity_diverse_unchanged_witness :
  ensureDiversity diverse_three Recommender.diversityOpts = Some diverse_three.
Proof.
  apply (ensureDiversity_diverse_unchanged diverse_three Recommender.diversityOpts).
  - reflexivity.
  - reflexivity.
  - reflexivity.
  - apply (bool_decide_unpack _). vm_compute. exact I.
  - apply (bool_decide_unpack _). vm_compute. exact I.
Defined.

End DiversityOrder.

(** ** The head of the feed *)

Section FeedTop.

Import Diversity Recommender.
Local Open Scope Q_scope.

Lemma slice_to_head {A} (q : Q) (x : A) (l : list A) :
  1 <= q -> exists l', JS.slice_to q (x :: l) = x :: l'.
Proof.
  intros Hq. unfold JS.slice_to, JS.rel_index, JS.trunc.
  assert (Hb : Qle_bool 0 q = true) by (apply Qle_bool_iff; Lqa.lra).
  rewrite Hb.
  assert (Hf : (1 <= Qfloor q)%Z).
  { rewrite <- (Qfloor_Z 1). now apply Qfloor_resp_le. }
  destruct (Z.ltb_spec (Qfloor q) 0) as [Hneg|_]; [lia|].
  destruct (Z.to_nat (Qfloor q)) as [|n] eqn:E; [lia|].
  simpl. eauto.
Qed.

(** With a limit of at least 1, the feed starts with a best candidate: no
    scored candidate has a higher fused score than the first item, and the
    feed is empty only when no candidate was scored. *)
Theorem getFeed_best_first env p w :
  1 <= limitOf p ->
  exists feed r,
    getFeed env p w = Some (feed, r)
    /\ forall it, In it (fst (results env p w)) ->
         exists fi rest, items feed = fi :: rest /\ score it <= f_score fi.
Proof.
  intros Hlimit. unfold getFeed. destruct (results env p w) as [res r]. cbn [fst].
  pose proof (sort_by_perm (fun y x => JS.Qltb (score x) (score y)) res) as Hperm.
  pose proof (sort_by_descending score res) as Hdesc.
  destruct (JS.sort_by (fun y x => JS.Qltb (score x) (score y)) res) as [|h t].
  - eexists _, _. split; [reflexivity|]. intros it Hit.
    apply (Permutation_in _ (Permutation_sym Hperm)) in Hit. destruct Hit.
  - destruct (ensureDiversity_cons h t diversityOpts) as (rest & -> & _).
    destruct (slice_to_head (Qmax (limitOf p) 50) h rest) as (l1 & ->).
    { apply Qle_trans with (limitOf p); [exact Hlimit|apply Q.le_max_l]. }
    destruct (slice_to_head (limitOf p) h l1 Hlimit) as (l2 & ->).
    eexists _, _. split; [reflexivity|]. intros it Hit.
    apply (Permutation_in _ (Permutation_sym Hperm)) in Hit.
    eexists _, _. cbn [items List.map]. split; [reflexivity|].
    cbn [toFeedItem f_score]. now apply (descending_head score h t).
Qed.

Lemma getFeed_best_first_witness :
  exists feed r,
    getFeed quiet_env (for_user "U") six_products_world = Some (feed, r)
    /\ forall it, In it (fst (results quiet_env (for_user "U") six_products_world)) ->
         exists fi rest, items feed = fi :: rest /\ score it <= f_score fi.
Proof.
  apply (getFeed_best_first quiet_env (for_user "U") six_products_world).
  vm_compute. discriminate.
Defined.

End FeedTop.

(** ** The product meta cache *)

Section MetaCache.

Import Diversity Recommender.

(** Hydration goes through the cache.  For the ids asked for: a cached
    meta is handed out as it is, even when the store has a newer row; an
    id that is not cached and is no property the object inherits gets the
    meta of its store row, which is cached on the way, and gets nothing
    when the store has no row either; an id that is not cached and is a
    property the object inherits ([__proto__], a function of
    [Object.prototype], a truthy field of a meta cached under [__proto__])
    yields that inherited value, and nothing is read from the store or
    cached for it.  Ids not asked for become no property of the object,
    and no cache entry of theirs changes.  No cached meta is ever replaced,
    and nothing but the meta hash is written. *)
Theorem loadProductMeta_cache_first ids w :
  let metas := fst (loadProductMeta ids w) in
  let r := snd (loadProductMeta ids w) in
  (forall id m, In id ids -> Redis.metaHash (redis w) !! id = Some m ->
                obj_get id metas = Some (MetaObj m))
  /\ (forall id, In id ids -> Redis.metaHash (redis w) !! id = None ->
                 shadowed ids (redis w) id = false ->
                 obj_get id metas
                 = MetaObj <$> (metaOfRow <$> Store.products (store w) !! id)
                 /\ Redis.metaHash r !! id
                    = metaOfRow <$> Store.products (store w) !! id)
  /\ (forall id, In id ids -> Redis.metaHash (redis w) !! id = None ->
                 shadowed ids (redis w) id = true ->
                 obj_get id metas = Some NotMeta
                 /\ Redis.metaHash r !! id = None)
  /\ (forall id, ~ In id ids ->
                 own metas !! id = None
                 /\ Redis.metaHash r !! id = Redis.metaHash (redis w) !! id)
  /\ (forall id m, Redis.metaHash (redis w) !! id = Some m ->
                   Redis.metaHash r !! id = Some m)
  /\ Redis.lists r = Redis.lists (redis w)
  /\ Redis.hashes r = Redis.hashes (redis w)
  /\ Redis.zsets r = Redis.zsets (redis w).
Proof.
  cbv zeta. destruct (loadProductMeta_spec ids w) as (Hp & Hm & Hr & H3 & H4 & H5).
  split; [|split; [|split; [|split; [|split]]]].
  - intros id m Hin Hc. apply list_elem_of_In in Hin.
    rewrite (obj_get_loaded ids w id Hin), Hc. now destruct (String.eqb _ _).
  - intros id Hin Hc Hsh. apply list_elem_of_In in Hin.
    rewrite (obj_get_loaded ids w id Hin), Hr, Hc, Hsh, (bool_decide_eq_true_2 _ Hin).
    cbn [andb negb]. split; [|reflexivity].
    unfold shadowed in Hsh. destruct (String.eqb id "__proto__"); [discriminate Hsh|].
    reflexivity.
  - intros id Hin Hc Hsh. apply list_elem_of_In in Hin.
    rewrite (obj_get_loaded ids w id Hin), Hr, Hc, Hsh, andb_false_r.
    split; [|reflexivity]. now destruct (String.eqb _ _).
  - intros id Hout. rewrite <- list_elem_of_In in Hout.
    rewrite Hm, Hr, (bool_decide_eq_false_2 _ Hout). cbn [andb].
    split; [reflexivity|]. now destruct (Redis.metaHash (redis w) !! id).
  - intros id m Hc. now rewrite Hr, Hc.
  - now repeat split.
Qed.

(** The cache of [stale_cache_world] says popularity 0 for P1 where the
    store says 5: the cached meta is handed out, the uncached P2 is read
    from the store. *)
Example loadProductMeta_stale :
  obj_get "P1" (fst (loadProductMeta ["P1"; "P2"]%string stale_cache_world))
  = Some (MetaObj shoe_meta)
  /\ obj_get "P2" (fst (loadProductMeta ["P1"; "P2"]%string stale_cache_world))
     = Some (MetaObj (mkMeta "blue shoe" "M" "C" (Some 2%Q))).
Proof. split; vm_compute; reflexivity. Qed.

(** The store has a product whose id is [toString]: hydration finds the
    function of that name, reads no row and caches nothing. *)
Example loadProductMeta_toString :
  obj_get "toString" (fst (loadProductMeta ["toString"%string] toString_world))
  = Some NotMeta
  /\ Redis.metaHash (snd (loadProductMeta ["toString"%string] toString_world))
       !! "toString"%string = None.
Proof. split; vm_compute; reflexivity. Qed.

Lemma redis_eq (r1 r2 : Redis.t) :
  Redis.lists r1 = Redis.lists r2 -> Redis.hashes r1 = Redis.hashes r2 ->
  Redis.zsets r1 = Redis.zsets r2 -> Redis.metaHash r1 = Redis.metaHash r2 ->
  r1 = r2.
Proof. destruct r1, r2. cbn. now intros -> -> -> ->. Qed.

Lemma obj_eq (o1 o2 : Obj) : own o1 = own o2 -> proto o1 = proto o2 -> o1 = o2.
Proof. destruct o1, o2. cbn. now intros -> ->. Qed.

(** The candidates are read from the sorted sets and the store only. *)
Lemma candidates_cache env p w r :
  Redis.zsets r = Redis.zsets (redis w) ->
  candidates env p (mkWorld r (store w)) = candidates env p w.
Proof.
  intros Hz. unfold candidates, getPrecomputedUserTop, addGlobal, getGlobalTop,
    Redis.zrevrange. cbn [redis store]. now rewrite Hz.
Qed.

Lemma shadowed_proto ids r : shadowed ids r "__proto__" = true.
Proof. reflexivity. Qed.

Lemma proto_of_again ids w :
  proto_of ids (snd (loadProductMeta ids w)) = proto_of ids (redis w).
Proof.
  destruct (loadProductMeta_spec ids w) as (_ & _ & Hr & _).
  unfold proto_of. destruct (bool_decide _); [|reflexivity].
  rewrite Hr, shadowed_proto, andb_false_r.
  now destruct (Redis.metaHash (redis w) !! "__proto__"%string).
Qed.

Lemma shadowed_again ids w id :
  shadowed ids (snd (loadProductMeta ids w)) id = shadowed ids (redis w) id.
Proof. unfold shadowed. now rewrite proto_of_again. Qed.

(** Hydrating the same ids again, from the cache the first hydration has
    left, gives the same metas and writes nothing new. *)
Lemma loadProductMeta_again ids w :
  loadProductMeta ids (mkWorld (snd (loadProductMeta ids w)) (store w))
  = loadProductMeta ids w.
Proof.
  set (w' := mkWorld (snd (loadProductMeta ids w)) (store w)).
  destruct (loadProductMeta_spec ids w) as (Hp & Hm & Hr & H3 & H4 & H5).
  destruct (loadProductMeta_spec ids w') as (Hp' & Hm' & Hr' & H3' & H4' & H5').
  cbn [redis store w'] in Hp', Hm', Hr', H3', H4', H5'.
  rewrite (surjective_pairing (loadProductMeta ids w')),
          (surjective_pairing (loadProductMeta ids w)).
  f_equal.
  - apply obj_eq; [|now rewrite Hp', Hp, proto_of_again].
    apply map_eq. intros id. rewrite Hm', Hm, Hr, shadowed_again.
    destruct (bool_decide (id ∈ ids)); [|reflexivity]. cbn [andb].
    destruct (negb (String.eqb id "__proto__")); [|reflexivity].
    destruct (Redis.metaHash (redis w) !! id); [reflexivity|].
    destruct (shadowed ids (redis w) id); [reflexivity|]. cbn [negb].
    now destruct (Store.products (store w) !! id).
  - apply redis_eq; try congruence.
    apply map_eq. intros id. rewrite Hr', Hr, shadowed_again.
    destruct (Redis.metaHash (redis w) !! id); [reflexivity|].
    destruct (bool_decide (id ∈ ids) && negb (shadowed ids (redis w) id));
      [|reflexivity].
    now destruct (Store.products (store w) !! id).
Qed.

Lemma results_again env p w :
  results env p (mkWorld (cacheOf env p w) (store w)) = results env p w.
Proof.
  destruct (loadProductMeta_spec (idsOf env p w) w) as (_ & _ & _ & _ & _ & Hz).
  unfold results. rewrite candidates_cache by exact Hz.
  fold (idsOf env p w). unfold cacheOf. now rewrite loadProductMeta_again.
Qed.

(** A request is repeatable: asked again with the same parameters against
    the cache the first call has left (and with the text matches and
    bandit samples settling as before), [getFeed] returns the same feed and
    leaves that cache as it is. *)
Theorem getFeed_repeatable env p w :
  exists feed r,
    getFeed env p w = Some (feed, r)
    /\ getFeed env p (mkWorld r (store w)) = Some (feed, r).
Proof.
  destruct (getFeed_returns env p w) as (reRanked & _ & Hfeed).
  eexists _, _. split; [exact Hfeed|].
  rewrite <- Hfeed. unfold getFeed. rewrite results_again. reflexivity.
Qed.

(** A request only reads, except that it warms the meta cache: session
    trails, posteriors and sorted sets are as before, no cached meta is
    replaced or removed, a new cache entry is the meta of the product's
    store row, and every product of the feed is cached afterwards unless
    its id is a property the object of metas inherits; such a product is
    cached afterwards only if it was cached before. *)
Theorem getFeed_warms_cache env p w :
  exists feed r,
    getFeed env p w = Some (feed, r)
    /\ Redis.lists r = Redis.lists (redis w)
    /\ Redis.hashes r = Redis.hashes (redis w)
    /\ Redis.zsets r = Redis.zsets (redis w)
    /\ (forall id m, Redis.metaHash (redis w) !! id = Some m ->
                     Redis.metaHash r !! id = Some m)
    /\ (forall id m, Redis.metaHash r !! id = Some m ->
                     Redis.metaHash (redis w) !! id = Some m
                     \/ exists row, Store.products (store w) !! id = Some row
                                    /\ m = metaOfRow row)
    /\ Forall (fun fi =>
                 let i := product_id (f_product fi) in
                 if shadowed (idsOf env p w) (redis w) i
                 then Redis.metaHash r !! i = Redis.metaHash (redis w) !! i
                 else is_Some (Redis.metaHash r !! i))
              (items feed).
Proof.
  destruct (getFeed_items_scored env p w) as (feed & Hfeed & Hall).
  destruct (loadProductMeta_spec (idsOf env p w) w) as (Hp & Hm & Hr & H3 & H4 & H5).
  fold (metasOf env p w) in Hp, Hm. fold (cacheOf env p w) in Hr, H3, H4, H5.
  exists feed, (cacheOf env p w). split; [exact Hfeed|].
  split; [exact H3|]. split; [exact H4|]. split; [exact H5|].
  split; [|split].
  - intros id m Hc. now rewrite Hr, Hc.
  - intros id m. rewrite Hr.
    destruct (Redis.metaHash (redis w) !! id) as [m'|]; [now left|].
    destruct (_ && _); [|discriminate].
    destruct (Store.products (store w) !! id) as [row|]; [|discriminate].
    intros [= <-]. right. now exists row.
  - eapply Forall_impl; [exact Hall|].
    intros fi (meta & base & Hin & Hmeta & _). cbv beta zeta.
    apply list_elem_of_In in Hin. unfold metasOf in Hmeta.
    rewrite (obj_get_loaded _ w _ Hin) in Hmeta.
    rewrite Hr, (bool_decide_eq_true_2 _ Hin). cbn [andb].
    destruct (shadowed (idsOf env p w) (redis w) (product_id (f_product fi))) eqn:Hsh;
      cbn [negb].
    + now destruct (Redis.metaHash (redis w) !! product_id (f_product fi)).
    + unfold shadowed in Hsh.
      destruct (String.eqb (product_id (f_product fi)) "__proto__");
        [discriminate Hsh|].
      destruct (Redis.metaHash (redis w) !! product_id (f_product fi)); [eauto|].
      destruct (Store.products (store w) !! product_id (f_product fi));
        [eauto|discriminate].
Qed.

End MetaCache.

(** ** Where a candidate's base score comes from, and the text score *)

Section CandidatePriority.

Import Recommender.
Local Open Scope Q_scope.

Lemma cm_get_set_same id v cm : cm_get id (cm_set id v cm) = Some v.
Proof.
  unfold cm_get. induction cm as [|[k v'] cm IH]; simpl.
  - now rewrite String.eqb_refl.
  - destruct (String.eqb k id) eqn:E; simpl; rewrite E; [reflexivity|exact IH].
Qed.

Lemma cm_get_set_other id id' v cm :
  id ≠ id' -> cm_get id' (cm_set id v cm) = cm_get id' cm.
Proof.
  intros Hne. unfold cm_get. induction cm as [|[k v'] cm IH]; simpl.
  - destruct (String.eqb_spec id id'); [contradiction|reflexivity].
  - destruct (String.eqb_spec k id) as [->|Hk]; simpl.
    + destruct (String.eqb_spec id id'); [contradiction|reflexivity].
    + destruct (String.eqb k id'); [reflexivity|exact IH].
Qed.

Lemma cm_has_false id cm : cm_has id cm = false -> cm_get id cm = None.
Proof.
  unfold cm_has, cm_get. induction cm as [|[k v] cm IH]; simpl; [reflexivity|].
  destruct (String.eqb k id); simpl; [discriminate|exact IH].
Qed.

Lemma cm_add_if_absent_keeps id id' v cm s :
  cm_get id' cm = Some s -> cm_get id' (cm_add_if_absent id v cm) = Some s.
Proof.
  intros Hget. unfold cm_add_if_absent.
  destruct (cm_has id cm) eqn:E; [exact Hget|].
  rewrite cm_get_set_other; [exact Hget|].
  intros ->. apply cm_has_false in E. congruence.
Qed.

Lemma addUserTop_other userTop id : forall cm,
  ~ In id (List.map fst userTop) -> cm_get id (addUserTop userTop cm) = cm_get id cm.
Proof.
  unfold addUserTop. induction userTop as [|[k v] userTop IH]; intros cm Hout;
    [reflexivity|].
  cbn [fold_left fst snd]. rewrite IH by (intros H; apply Hout; now right).
  apply cm_get_set_other. intros ->. apply Hout. now left.
Qed.

Lemma addUserTop_get userTop id s : forall cm,
  NoDup (List.map fst userTop) -> In (id, s) userTop ->
  cm_get id (addUserTop userTop cm) = Some s.
Proof.
  induction userTop as [|[k v] userTop IH]; intros cm Hnd Hin; [destruct Hin|].
  cbn [List.map fst] in Hnd. apply NoDup_cons in Hnd as [Hk Hnd].
  destruct Hin as [[= -> ->]|Hin].
  - change (addUserTop ((id, s) :: userTop) cm)
      with (addUserTop userTop (cm_set id s cm)).
    rewrite addUserTop_other by (now rewrite <- list_elem_of_In).
    apply cm_get_set_same.
  - now apply (IH (cm_set k v cm)).
Qed.

Lemma addTextMatches_cons m textMatches cm :
  addTextMatches (m :: textMatches) cm
  = addTextMatches textMatches
      (cm_set (fst m)
         (match cm_get (fst m) cm with
          | Some cur => Qmax cur (boosted (snd m))
          | None => boosted (snd m)
          end) cm).
Proof. unfold addTextMatches. cbn [fold_left]. now destruct (cm_get (fst m) cm). Qed.

Lemma addTextMatches_other textMatches id : forall cm,
  ~ In id (List.map fst textMatches) ->
  cm_get id (addTextMatches textMatches cm) = cm_get id cm.
Proof.
  induction textMatches as [|[k ts] textMatches IH]; intros cm Hout; [reflexivity|].
  rewrite addTextMatches_cons, IH by (intros H; apply Hout; now right).
  apply cm_get_set_other. intros Hk. apply Hout. now left.
Qed.

Lemma addTextMatches_get textMatches id ts : forall cm,
  NoDup (List.map fst textMatches) -> In (id, ts) textMatches ->
  cm_get id (addTextMatches textMatches cm)
  = Some (match cm_get id cm with
          | Some cur => Qmax cur (boosted ts)
          | None => boosted ts
          end).
Proof.
  induction textMatches as [|[k v] textMatches IH]; intros cm Hnd Hin; [destruct Hin|].
  cbn [List.map fst] in Hnd. apply NoDup_cons in Hnd as [Hk Hnd].
  rewrite addTextMatches_cons. cbn [fst snd].
  destruct Hin as [[= -> ->]|Hin].
  - rewrite addTextMatches_other by (now rewrite <- list_elem_of_In).
    apply cm_get_set_same.
  - rewrite (IH _ Hnd Hin). rewrite cm_get_set_other; [reflexivity|].
    intros ->. apply Hk. apply list_elem_of_In.
    change id with (fst (id, ts)). now apply in_map.
Qed.

Lemma addGlobal_keeps limit r cm id s :
  cm_get id cm = Some s -> cm_get id (addGlobal limit r cm) = Some s.
Proof.
  intros Hget. unfold addGlobal. destruct (JS.Qltb _ _); [|exact Hget].
  apply fold_left_invariant; [|exact Hget].
  intros acc g _ Hacc. now apply cm_add_if_absent_keeps.
Qed.

Lemma addCategory_keeps p limit db cm id s :
  cm_get id cm = Some s -> cm_get id (addCategory p limit db cm) = Some s.
Proof.
  intros Hget. unfold addCategory.
  destruct (JS.truthy _); [|exact Hget]. destruct (JS.Qltb _ _); [|exact Hget].
  apply fold_left_invariant; [|exact Hget].
  intros acc row _ Hacc. now apply cm_add_if_absent_keeps.
Qed.

Lemma zrevrange_keys key start stop r :
  NoDup (List.map fst (Redis.zrevrange key start stop r)).
Proof.
  unfold Redis.zrevrange.
  eapply sublist_NoDup; [|apply fmap_sublist, sublist_take].
  eapply sublist_NoDup; [|apply fmap_sublist, sublist_drop].
  eapply NoDup_Permutation_proper;
    [apply (fmap_Permutation fst), sort_by_perm|].
  apply NoDup_fst_map_to_list.
Qed.

Lemma userTop_keys uid k r : NoDup (List.map fst (getPrecomputedUserTop uid k r)).
Proof.
  unfold getPrecomputedUserTop. destruct (JS.truthy uid); [|constructor].
  apply zrevrange_keys.
Qed.

(** The base score of a candidate by where it was found, for text matches
    with distinct ids: a product of the user's top-K keeps its CF score
    unless a text boost is higher; a text match outside the top-K gets
    0.05 + 0.8 textScore; and neither is replaced by a global or category
    score. *)
Theorem candidates_priority env p w id :
  let userTop := getPrecomputedUserTop (fp_userId p) CANDIDATE_K (redis w) in
  let textMatches := textMatchesOf env p in
  NoDup (List.map fst textMatches) ->
  (forall s, In (id, s) userTop -> ~ In id (List.map fst textMatches) ->
             cm_get id (candidates env p w) = Some s)
  /\ (forall s ts, In (id, s) userTop -> In (id, ts) textMatches ->
                   cm_get id (candidates env p w) = Some (Qmax s (boosted ts)))
  /\ (forall ts, ~ In id (List.map fst userTop) -> In (id, ts) textMatches ->
                 cm_get id (candidates env p w) = Some (boosted ts)).
Proof.
  cbv zeta. intros Hnd. unfold candidates.
  pose proof (userTop_keys (fp_userId p) CANDIDATE_K (redis w)) as Hut.
  split; [|split].
  - intros s Hin Hout. apply addCategory_keeps, addGlobal_keeps.
    rewrite addTextMatches_other by exact Hout. now apply addUserTop_get.
  - intros s ts Hin Htext. apply addCategory_keeps, addGlobal_keeps.
    rewrite (addTextMatches_get _ _ _ _ Hnd Htext).
    now rewrite (addUserTop_get _ _ _ _ Hut Hin).
  - intros ts Hout Htext. apply addCategory_keeps, addGlobal_keeps.
    rewrite (addTextMatches_get _ _ _ _ Hnd Htext).
    now rewrite (addUserTop_other _ _ _ Hout).
Qed.

Lemma candidates_priority_witness :
  cm_get "P3" (candidates shirt_env shirt_fan shirt_fan_world)
  = Some (Qmax 0.9 (boosted 1))
  /\ cm_get "P1" (candidates shirt_env shirt_fan shirt_fan_world)
     = Some (boosted 0.5).
Proof.
  split.
  - apply (candidates_priority shirt_env shirt_fan shirt_fan_world "P3").
    + apply (bool_decide_unpack _). vm_compute. exact I.
    + vm_compute. now left.
    + vm_compute. now left.
  - apply (candidates_priority shirt_env shirt_fan shirt_fan_world "P1").
    + apply (bool_decide_unpack _). vm_compute. exact I.
    + vm_compute. intros [H|[H|[]]]; discriminate H.
    + vm_compute. right. now left.
Defined.

(** The text score of a candidate is never above 1, and it is 0 when the
    request has no search text or a blank one, and when the trigram query
    does not return the candidate. *)
Theorem textScore_range env p id :
  textScoreOf (textMatchesOf env p) id <= 1
  /\ (JS.blank (default EmptyString (fp_searchText p)) = true ->
      textScoreOf (textMatchesOf env p) id = 0)
  /\ (~ In id (List.map fst (trgmRows env (default EmptyString (fp_searchText p)) 200)) ->
      textScoreOf (textMatchesOf env p) id = 0).
Proof.
  split; [|split].
  - unfold textScoreOf.
    destruct (List.find _ _) as [[k ts]|] eqn:E; cbn; [|discriminate].
    apply find_some in E as [Hin _]. unfold textMatchesOf in Hin.
    destruct (_ && _)%bool; [|destruct Hin].
    unfold fuzzySearchProductIds in Hin. destruct (JS.blank _); [destruct Hin|].
    apply in_map_iff in Hin as ([k' sim] & [= _ <-] & _). apply Q.le_min_l.
  - intros Hblank. unfold textMatchesOf. rewrite Hblank.
    now rewrite andb_false_r.
  - intros Hout. unfold textScoreOf.
    destruct (List.find _ _) as [[k ts]|] eqn:E; [|reflexivity].
    exfalso. apply find_some in E as [Hin Hk]. apply Hout.
    apply String.eqb_eq in Hk. cbn [fst] in Hk. subst k.
    unfold textMatchesOf in Hin. destruct (_ && _)%bool; [|destruct Hin].
    unfold fuzzySearchProductIds in Hin. destruct (JS.blank _); [destruct Hin|].
    apply in_map_iff in Hin as ([k' sim] & [= <- _] & Hin).
    change k' with (fst (k', sim)). now apply in_map.
Qed.

(** White space beyond ASCII is trimmed as well: a text of a no-break
    space, an ideographic space, a line separator and a space brings no
    text match, where the text "x" brings one. *)
Example textMatchesOf_wide_blank :
  JS.blank wide_blank_text = true
  /\ textMatchesOf any_text_env (search_for wide_blank_text) = []
  /\ textMatchesOf any_text_env (search_for "x") = [("P3"%string, 1)].
Proof. repeat split; vm_compute; reflexivity. Qed.

End CandidatePriority.
